(** * AuraGameSurvey frontend: telemetry tracker and challenge state machine

    A shallow embedding of
    - [MotorSkillsTracker] (utils/motorSkillsTracking.js): pointer sampling,
      trajectory analysis, interaction logging and batching;
    - the overshoot probe of [sampleCursorPosition]
      (modules/Motor/MotorSkillsGame.jsx);
    - [logPointerSamples] (utils/api.js);
    - [gameReducer], [completeChallenge], the load/save effects and the
      other actions of [GameProvider] (context/GameContext.jsx);
    - the game loop of the bubble game: [startRound], [spawnBubble],
      [animate], the click handlers and the tally of [endRound]
      (modules/Motor/MotorSkillsGame.jsx);
    - [usePerformanceMetrics] (hooks/usePerformanceMetrics.js);
    - [sendRoundDataToML] and [logMotorAttempts], the report of a round.

    Conventions.  [Date.now()] and the viewport are read from the host, so
    every function that reads them takes them as arguments.  Millisecond
    clocks, rounds and counters are integers ([Z]).  Pointer coordinates,
    distances and velocities are JavaScript numbers ([JsNum], below). *)

From Stdlib Require Import ZArith List String Reals Lra Lia.
From stdpp Require Import gmap strings list sorting pretty.

Open Scope Z_scope.

(* ================================================================== *)
(** * JavaScript numbers *)
(* ================================================================== *)

(** A JavaScript number is a finite value, one of the two infinities, or
    NaN.  Finite values are taken as exact reals: rounding and overflow of
    IEEE doubles are not modelled, and the sign of zero is not tracked (a
    finite number divided by zero takes the sign of the numerator).  The
    special values follow IEEE 754: [0/0], [Inf - Inf], [0 * Inf],
    [Inf / Inf] and the square root of a negative number are NaN, and NaN
    propagates through every operation and fails every comparison. *)
Module Js.

#[global] Instance R_eq_dec : EqDecision R := Req_dec_T.
#[global] Instance Rlt_decision : RelDecision Rlt := Rlt_dec.
#[global] Instance Rle_decision : RelDecision Rle := Rle_dec.

Inductive JsNum : Type :=
| Fin (r : R)
| PInf
| NInf
| NaN.

Arguments Fin r%_R.

Definition zero : JsNum := Fin 0%R.
Definition ofZ (z : Z) : JsNum := Fin (IZR z).

(** The infinity whose sign is the sign of the non-zero real [r]. *)
Definition inf_of_sign (r : R) : JsNum :=
  if bool_decide (0 < r)%R then PInf else NInf.

Definition neg (a : JsNum) : JsNum :=
  match a with
  | Fin r => Fin (- r)%R
  | PInf => NInf
  | NInf => PInf
  | NaN => NaN
  end.

Definition add (a b : JsNum) : JsNum :=
  match a, b with
  | NaN, _ | _, NaN => NaN
  | Fin x, Fin y => Fin (x + y)%R
  | PInf, NInf | NInf, PInf => NaN
  | PInf, _ | _, PInf => PInf
  | NInf, _ | _, NInf => NInf
  end.

Definition sub (a b : JsNum) : JsNum := add a (neg b).

Definition mul (a b : JsNum) : JsNum :=
  match a, b with
  | NaN, _ | _, NaN => NaN
  | Fin x, Fin y => Fin (x * y)%R
  | Fin x, PInf | PInf, Fin x =>
      if bool_decide (x = 0%R) then NaN else inf_of_sign x
  | Fin x, NInf | NInf, Fin x =>
      if bool_decide (x = 0%R) then NaN else inf_of_sign (- x)%R
  | PInf, PInf | NInf, NInf => PInf
  | PInf, NInf | NInf, PInf => NInf
  end.

Definition div (a b : JsNum) : JsNum :=
  match a, b with
  | NaN, _ | _, NaN => NaN
  | Fin x, Fin y =>
      if bool_decide (y = 0%R)
      then (if bool_decide (x = 0%R) then NaN else inf_of_sign x)
      else Fin (x / y)%R
  | Fin _, (PInf | NInf) => Fin 0%R
  | PInf, Fin y => if bool_decide (y < 0)%R then NInf else PInf
  | NInf, Fin y => if bool_decide (y < 0)%R then PInf else NInf
  | (PInf | NInf), (PInf | NInf) => NaN
  end.

(** [Math.sqrt]. *)
Definition sqrt (a : JsNum) : JsNum :=
  match a with
  | Fin x => if bool_decide (x < 0)%R then NaN else Fin (R_sqrt.sqrt x)
  | PInf => PInf
  | NInf | NaN => NaN
  end.

(** [Math.pow(a, 2)]. *)
Definition pow2 (a : JsNum) : JsNum := mul a a.

(** [a < b]: false as soon as one side is NaN. *)
Definition lt (a b : JsNum) : bool :=
  match a, b with
  | NaN, _ | _, NaN => false
  | Fin x, Fin y => bool_decide (x < y)%R
  | NInf, (Fin _ | PInf) => true
  | Fin _, PInf => true
  | _, _ => false
  end.

(** [a > b]. *)
Definition gt (a b : JsNum) : bool := lt b a.

(** Truthiness of a number: everything but [0] and [NaN]. *)
Definition truthy (a : JsNum) : bool :=
  match a with
  | Fin x => negb (bool_decide (x = 0%R))
  | PInf | NInf => true
  | NaN => false
  end.

(** [a || d] on numbers, where [None] is [undefined]. *)
Definition or_default (a : option JsNum) (d : JsNum) : JsNum :=
  match a with
  | Some v => if truthy v then v else d
  | None => d
  end.

Definition is_finite (a : JsNum) : Prop :=
  match a with Fin _ => True | _ => False end.

(** [parseFloat(a.toFixed(d))]: the nearest multiple of [10^-d], ties away
    from zero (toFixed rounds the magnitude, picking the larger candidate,
    and prefixes the sign).  The special values print as ["Infinity"],
    ["-Infinity"] and ["NaN"], which [parseFloat] reads back unchanged. *)
Definition round_half_up (x : R) : Z := Int_part (x + / 2)%R.

Definition toFixedR (d : nat) (x : R) : R :=
  let scale := IZR (10 ^ Z.of_nat d) in
  if bool_decide (x < 0)%R
  then (- (IZR (round_half_up (- x * scale)) / scale))%R
  else (IZR (round_half_up (x * scale)) / scale)%R.

Definition toFixed (d : nat) (a : JsNum) : JsNum :=
  match a with
  | Fin x => Fin (toFixedR d x)
  | other => other
  end.

#[global] Arguments div : simpl never.
#[global] Arguments sqrt : simpl never.
#[global] Arguments lt : simpl never.
#[global] Arguments truthy : simpl never.
#[global] Arguments toFixedR : simpl never.

End Js.

Abbreviation JsNum := Js.JsNum.

(* ================================================================== *)
(** * The motor-skills tracker: data *)
(* ================================================================== *)

Module Tracker.

(** ** Inputs from the host *)

(** One entry of [event.touches]. *)
Record Touch : Type := {
  t_clientX : JsNum;
  t_clientY : JsNum;
  t_force : option JsNum;
  t_radiusX : option JsNum;
  t_radiusY : option JsNum;
}.

(** The fields of a pointer, mouse or touch event that the tracker reads;
    [None] is [undefined].  The synthetic event built by
    [sampleCursorPosition] carries [clientX] and [clientY] only. *)
Record PointerEvent : Type := {
  touches : option (list Touch);
  clientX : option JsNum;
  clientY : option JsNum;
  pointerType : option string;
  pressure : option JsNum;
}.

(** [window.innerWidth] and [window.innerHeight]. *)
Record Viewport : Type := {
  innerWidth : JsNum;
  innerHeight : JsNum;
}.

(** A bubble as the game hands it to the tracker. *)
Record Bubble : Type := {
  b_id : string;
  b_x : JsNum;
  b_y : JsNum;
  b_column : Z;
  b_speed : JsNum;
  b_radius : JsNum;
  b_spawnTime : Z;
}.

(** ** Records the tracker builds *)

Record Coords : Type := {
  c_x : JsNum;
  c_y : JsNum;
}.

(** An entry of [pointerSamples]. *)
Record Sample : Type := {
  s_round : Z;
  s_tms : Z;
  s_x : JsNum;
  s_y : JsNum;
  s_isDown : bool;
  s_pointerType : string;
}.

(** An entry of [trajectoryPoints]; the point pushed by [trackPointerDown]
    has neither velocity nor acceleration. *)
Record TrajectoryPoint : Type := {
  p_x : JsNum;
  p_y : JsNum;
  p_time : Z;
  p_velocity : option JsNum;
  p_acceleration : option JsNum;
}.

(** An entry of [velocityHistory]. *)
Record VelocitySample : Type := {
  v_velocity : JsNum;
  v_acceleration : JsNum;
  v_time : Z;
}.

(** The object returned by [analyzeTrajectory]; the early return has no
    [straightDistance] and no [averageVelocity]. *)
Record TrajectoryMetrics : Type := {
  pathLength : JsNum;
  straightDistance : option JsNum;
  straightness : JsNum;
  smoothness : JsNum;
  pointCount : nat;
  averageVelocity : option JsNum;
}.

(** The type-specific part of a logged interaction. *)
Inductive InteractionData : Type :=
| BubbleSpawnData (bubble : Bubble)
| PointerDownData (coordinates : Coords) (bubbleId : option string)
    (pointerKind : string) (pressure : JsNum)
    (touchArea : option (option JsNum * option JsNum))
| PointerUpData (coordinates : Coords) (bubbleId : option string)
    (touchDuration interTapInterval : Z)
    (trajectoryMetrics : TrajectoryMetrics) (success : bool)
| BubbleHitData (bubble : Bubble) (coordinates : Coords)
    (clickAccuracy : JsNum) (reactionTime : Z)
| BubbleMissData (bubble : Bubble) (bubbleLifetime : Z).

(** What [logInteraction] builds. *)
Record Interaction : Type := {
  i_sessionId : string;
  i_module : string;
  i_round : Z;
  i_eventType : string;
  i_timestamp : Z;
  i_data : InteractionData;
}.

(** ** The tracker object *)

Record Tracker : Type := {
  sessionId : string;
  userId : option string;
  participantId : string;
  interactions : list Interaction;
  touchStartTimes : gmap string Z;
  lastTapTime : Z;
  lastPosition : option Coords;
  velocityHistory : list VelocitySample;
  trajectoryPoints : list TrajectoryPoint;
  round : Z;
  pointerSamples : list Sample;
  lastSampleTime : Z;
  isPointerDown : bool;
  interactionBuffer : list Interaction;
  batchTimer : option positive;
  lastMoveTrackTime : Z;
}.

Definition SAMPLE_INTERVAL : Z := 33.
Definition BATCH_SIZE : nat := 15.
Definition BATCH_TIMEOUT : Z := 3000.
Definition MOVE_TRACK_INTERVAL : Z := 33.

(** The constructor; the participant id comes from [localStorage]. *)
Definition new (sessionId : string) (userId : option string)
    (participantId : string) : Tracker :=
  {| sessionId := sessionId; userId := userId;
     participantId := participantId;
     interactions := []; touchStartTimes := ∅; lastTapTime := 0;
     lastPosition := None; velocityHistory := []; trajectoryPoints := [];
     round := 1; pointerSamples := []; lastSampleTime := 0;
     isPointerDown := false; interactionBuffer := []; batchTimer := None;
     lastMoveTrackTime := 0 |}.

(** Field assignments. *)
Definition set_interactions (v : list Interaction) (t : Tracker) : Tracker :=
  let (a, b, c, _, e, f, g, h, i, j, k, l, m, n, o, p) := t in
  Build_Tracker a b c v e f g h i j k l m n o p.
Definition set_touchStartTimes (v : gmap string Z) (t : Tracker) : Tracker :=
  let (a, b, c, d, _, f, g, h, i, j, k, l, m, n, o, p) := t in
  Build_Tracker a b c d v f g h i j k l m n o p.
Definition set_lastTapTime (v : Z) (t : Tracker) : Tracker :=
  let (a, b, c, d, e, _, g, h, i, j, k, l, m, n, o, p) := t in
  Build_Tracker a b c d e v g h i j k l m n o p.
Definition set_lastPosition (v : option Coords) (t : Tracker) : Tracker :=
  let (a, b, c, d, e, f, _, h, i, j, k, l, m, n, o, p) := t in
  Build_Tracker a b c d e f v h i j k l m n o p.
Definition set_velocityHistory (v : list VelocitySample) (t : Tracker)
    : Tracker :=
  let (a, b, c, d, e, f, g, _, i, j, k, l, m, n, o, p) := t in
  Build_Tracker a b c d e f g v i j k l m n o p.
Definition set_trajectoryPoints (v : list TrajectoryPoint) (t : Tracker)
    : Tracker :=
  let (a, b, c, d, e, f, g, h, _, j, k, l, m, n, o, p) := t in
  Build_Tracker a b c d e f g h v j k l m n o p.
Definition set_round (v : Z) (t : Tracker) : Tracker :=
  let (a, b, c, d, e, f, g, h, i, _, k, l, m, n, o, p) := t in
  Build_Tracker a b c d e f g h i v k l m n o p.
Definition set_pointerSamples (v : list Sample) (t : Tracker) : Tracker :=
  let (a, b, c, d, e, f, g, h, i, j, _, l, m, n, o, p) := t in
  Build_Tracker a b c d e f g h i j v l m n o p.
Definition set_lastSampleTime (v : Z) (t : Tracker) : Tracker :=
  let (a, b, c, d, e, f, g, h, i, j, k, _, m, n, o, p) := t in
  Build_Tracker a b c d e f g h i j k v m n o p.
Definition set_isPointerDown (v : bool) (t : Tracker) : Tracker :=
  let (a, b, c, d, e, f, g, h, i, j, k, l, _, n, o, p) := t in
  Build_Tracker a b c d e f g h i j k l v n o p.
Definition set_interactionBuffer (v : list Interaction) (t : Tracker)
    : Tracker :=
  let (a, b, c, d, e, f, g, h, i, j, k, l, m, _, o, p) := t in
  Build_Tracker a b c d e f g h i j k l m v o p.
Definition set_batchTimer (v : option positive) (t : Tracker) : Tracker :=
  let (a, b, c, d, e, f, g, h, i, j, k, l, m, n, _, p) := t in
  Build_Tracker a b c d e f g h i j k l m n v p.
Definition set_lastMoveTrackTime (v : Z) (t : Tracker) : Tracker :=
  let (a, b, c, d, e, f, g, h, i, j, k, l, m, n, o, _) := t in
  Build_Tracker a b c d e f g h i j k l m n o v.

(* ------------------------------------------------------------------ *)
(** ** The host: timers, network, console *)
(* ------------------------------------------------------------------ *)

(** A request issued through the axios instance of utils/api.js. *)
Inductive ApiCall : Type :=
| PostMotorTrace (sessionId : string) (userId : option string)
    (samples : list Sample).

(** What the tracker can observe or change outside itself.  [timers] holds
    the ids of the armed [setTimeout] timers; the only callback the tracker
    ever arms is [() => this.flushBatch()].  [posted] lists the requests
    issued so far and [consoleErrors] the [console.error] lines, oldest
    first.  [batches] is a ghost field: it collects, oldest first, every
    array that [flushBatch] binds to its local [batch]; the source drops
    that array when the function returns. *)
Record Host : Type := {
  timers : gset positive;
  nextTimerId : positive;
  posted : list ApiCall;
  consoleErrors : list string;
  batches : list (list Interaction);
}.

Definition fresh_host : Host :=
  {| timers := ∅; nextTimerId := 1%positive; posted := [];
     consoleErrors := []; batches := [] |}.

(** [setTimeout(callback, delay)]: arms a timer and returns its id, a
    positive integer that no earlier call returned. *)
Definition setTimeout (delay : Z) (h : Host) : positive * Host :=
  (nextTimerId h,
   {| timers := {[ nextTimerId h ]} ∪ timers h;
      nextTimerId := Pos.succ (nextTimerId h);
      posted := posted h; consoleErrors := consoleErrors h;
      batches := batches h |}).

(** [clearTimeout(id)]. *)
Definition clearTimeout (id : positive) (h : Host) : Host :=
  {| timers := timers h ∖ {[ id ]}; nextTimerId := nextTimerId h;
     posted := posted h; consoleErrors := consoleErrors h;
     batches := batches h |}.

Definition post (c : ApiCall) (h : Host) : Host :=
  {| timers := timers h; nextTimerId := nextTimerId h;
     posted := posted h ++ [c]; consoleErrors := consoleErrors h;
     batches := batches h |}.

Definition console_error (msg : string) (h : Host) : Host :=
  {| timers := timers h; nextTimerId := nextTimerId h;
     posted := posted h; consoleErrors := consoleErrors h ++ [msg];
     batches := batches h |}.

Definition note_batch (batch : list Interaction) (h : Host) : Host :=
  {| timers := timers h; nextTimerId := nextTimerId h;
     posted := posted h; consoleErrors := consoleErrors h;
     batches := batches h ++ [batch] |}.

(** [logPointerSamples] of utils/api.js.  [net c] tells whether the
    request [c] succeeds.  The result is [true] when the promise resolves
    and [false] when it rejects: the failure is written to the console and
    thrown again to the caller. *)
Definition logPointerSamples (net : ApiCall → bool) (sessionId : string)
    (userId : option string) (samples : list Sample) (h : Host)
    : bool * Host :=
  let call := PostMotorTrace sessionId userId samples in
  let h1 := post call h in
  if net call then (true, h1)
  else (false, console_error "Error logging pointer samples:" h1).

(* ------------------------------------------------------------------ *)
(** ** Batching *)
(* ------------------------------------------------------------------ *)

(** [flushBatch].  The function is declared [async] but awaits nothing, so
    its whole body runs before the call returns.  After the timer is
    cleared the body ends: [batch] is not used. *)
Definition flushBatch (t : Tracker) (h : Host) : Tracker * Host :=
  match interactionBuffer t with
  | [] => (t, h)
  | _ :: _ =>
      let batch := interactionBuffer t in
      let t1 := set_interactionBuffer [] t in
      let h1 := note_batch batch h in
      match batchTimer t1 with
      | Some id => (set_batchTimer None t1, clearTimeout id h1)
      | None => (t1, h1)
      end
  end.

(** [addToBuffer]. *)
Definition addToBuffer (data : Interaction) (t : Tracker) (h : Host)
    : Tracker * Host :=
  let t1 := set_interactionBuffer (interactionBuffer t ++ [data]) t in
  if bool_decide (BATCH_SIZE ≤ length (interactionBuffer t1))%nat
  then flushBatch t1 h
  else
    let h1 := match batchTimer t1 with
              | Some id => clearTimeout id h
              | None => h
              end in
    let '(id, h2) := setTimeout BATCH_TIMEOUT h1 in
    (set_batchTimer (Some id) t1, h2).

(** The callback armed by [addToBuffer] runs when its timer expires; a
    timer that is not armed (never set, cleared, or already run) does
    nothing. *)
Definition fireTimer (id : positive) (t : Tracker) (h : Host)
    : Tracker * Host :=
  if bool_decide (id ∈ timers h)
  then flushBatch t (clearTimeout id h)
  else (t, h).

(** [logInteraction]; [now] is the time of [new Date()]. *)
Definition logInteraction (eventType : string) (data : InteractionData)
    (now : Z) (t : Tracker) (h : Host) : Tracker * Host :=
  let interaction :=
    {| i_sessionId := sessionId t; i_module := "motorSkills";
       i_round := round t; i_eventType := eventType; i_timestamp := now;
       i_data := data |} in
  let t1 := set_interactions (interactions t ++ [interaction]) t in
  addToBuffer interaction t1 h.

(* ------------------------------------------------------------------ *)
(** ** Sampler *)
(* ------------------------------------------------------------------ *)

(** [getCoordinates]. *)
Definition getCoordinates (event : PointerEvent) : Coords :=
  match touches event with
  | Some (touch :: _) => {| c_x := t_clientX touch; c_y := t_clientY touch |}
  | _ => {| c_x := Js.or_default (clientX event) Js.zero;
            c_y := Js.or_default (clientY event) Js.zero |}
  end.

(** [event.pointerType || (event.touches ? 'touch' : 'mouse')]; an array,
    even an empty one, is truthy and the empty string is not. *)
Definition pointerTypeOf (event : PointerEvent) : string :=
  let fallback :=
    match touches event with Some _ => "touch" | None => "mouse" end in
  match pointerType event with
  | Some s => if bool_decide (s = "") then fallback else s
  | None => fallback
  end.

(** [array.slice(-n)]: the last [n] elements. *)
Definition slice_last {A : Type} (n : nat) (l : list A) : list A :=
  drop (length l - n) l.

(** The time of the last trajectory point, or [now] when there is none or
    when it is falsy: [this.trajectoryPoints[len - 1]?.time || now]. *)
Definition lastPointTime (now : Z) (points : list TrajectoryPoint) : Z :=
  match last points with
  | Some p => if bool_decide (p_time p = 0) then now else p_time p
  | None => now
  end.

(** The block of [trackPointerMove] under "Store normalized pointer sample
    for kinematics". *)
Definition storePointerSample (event : PointerEvent) (now : Z)
    (window : Viewport) (coords : Coords) (t : Tracker) : Tracker :=
  if bool_decide (SAMPLE_INTERVAL ≤ now - lastSampleTime t)
  then
    let screenWidth := innerWidth window in
    let screenHeight := innerHeight window in
    let sample :=
      {| s_round := round t; s_tms := now;
         s_x := Js.div (c_x coords) screenWidth;
         s_y := Js.div (c_y coords) screenHeight;
         s_isDown := isPointerDown t;
         s_pointerType := pointerTypeOf event |} in
    let t1 := set_pointerSamples (pointerSamples t ++ [sample]) t in
    let t2 := set_lastSampleTime now t1 in
    if bool_decide (1000 < length (pointerSamples t2))%nat
    then set_pointerSamples (slice_last 800 (pointerSamples t2)) t2
    else t2
  else t.

(** The block of [trackPointerMove] under "Calculate velocity and
    acceleration for local tracking". *)
Definition trackKinematics (now : Z) (coords : Coords) (t : Tracker)
    : Tracker :=
  match lastPosition t with
  | None => t
  | Some lastPos =>
      let dt := now - lastPointTime now (trajectoryPoints t) in
      if bool_decide (0 < dt)
      then
        let dx := Js.sub (c_x coords) (c_x lastPos) in
        let dy := Js.sub (c_y coords) (c_y lastPos) in
        let distance := Js.sqrt (Js.add (Js.mul dx dx) (Js.mul dy dy)) in
        let seconds := Js.div (Js.ofZ dt) (Js.ofZ 1000) in
        let velocity := Js.div distance seconds in
        let acceleration :=
          match last (velocityHistory t) with
          | Some v => Js.div (Js.sub velocity (v_velocity v)) seconds
          | None => Js.zero
          end in
        let history :=
          velocityHistory t ++
          [{| v_velocity := velocity; v_acceleration := acceleration;
              v_time := now |}] in
        let history :=
          if bool_decide (10 < length history)%nat
          then drop 1 history else history in
        let points :=
          trajectoryPoints t ++
          [{| p_x := c_x coords; p_y := c_y coords; p_time := now;
              p_velocity := Some velocity;
              p_acceleration := Some acceleration |}] in
        let points :=
          if bool_decide (100 < length points)%nat
          then slice_last 80 points else points in
        set_trajectoryPoints points (set_velocityHistory history t)
      else t
  end.

(** [trackPointerMove]; [now] is [Date.now()] and [window] the viewport at
    the time of the call. *)
Definition trackPointerMove (event : PointerEvent) (now : Z)
    (window : Viewport) (t : Tracker) : Tracker :=
  if bool_decide (now - lastMoveTrackTime t < MOVE_TRACK_INTERVAL)
  then t
  else
    let t1 := set_lastMoveTrackTime now t in
    let coords := getCoordinates event in
    let t2 := storePointerSample event now window coords t1 in
    let t3 := trackKinematics now coords t2 in
    set_lastPosition (Some coords) t3.

(** [trackPointerDownState] and [trackPointerUpState]. *)
Definition trackPointerDownState (t : Tracker) : Tracker :=
  set_isPointerDown true t.

Definition trackPointerUpState (t : Tracker) : Tracker :=
  set_isPointerDown false t.

(** [bubbleId || 'screen']. *)
Definition touchKey (bubbleId : option string) : string :=
  match bubbleId with
  | Some s => if bool_decide (s = "") then "screen" else s
  | None => "screen"
  end.

(** [trackPointerDown]. *)
Definition trackPointerDown (event : PointerEvent)
    (bubbleId : option string) (now : Z) (t : Tracker) (h : Host)
    : Tracker * Host :=
  let coords := getCoordinates event in
  let t1 := set_touchStartTimes
              (<[touchKey bubbleId := now]> (touchStartTimes t)) t in
  let t2 := set_lastPosition (Some coords) t1 in
  let t3 :=
    set_trajectoryPoints
      [{| p_x := c_x coords; p_y := c_y coords; p_time := now;
          p_velocity := None; p_acceleration := None |}] t2 in
  let touch0 := touches event ≫= head in
  logInteraction "pointer_down"
    (PointerDownData coords bubbleId (pointerTypeOf event)
       (Js.or_default (pressure event)
          (Js.or_default (touch0 ≫= t_force) Js.zero))
       ((λ touch, (t_radiusX touch, t_radiusY touch)) <$> touch0))
    now t3 h.

(* ------------------------------------------------------------------ *)
(** ** Kinematics analyzer *)
(* ------------------------------------------------------------------ *)

(** Length of the segment between two trajectory points. *)
Definition segmentLength (a b : TrajectoryPoint) : JsNum :=
  let dx := Js.sub (p_x b) (p_x a) in
  let dy := Js.sub (p_y b) (p_y a) in
  Js.sqrt (Js.add (Js.mul dx dx) (Js.mul dy dy)).

(** The loop [for (let i = 1; i < points.length; i++) pathLength += ...],
    entered with [prev = points[i - 1]] and [rest] the points from index
    [i] on. *)
Fixpoint pathLengthLoop (prev : TrajectoryPoint)
    (rest : list TrajectoryPoint) (acc : JsNum) : JsNum :=
  match rest with
  | [] => acc
  | p :: rest' => pathLengthLoop p rest' (Js.add acc (segmentLength prev p))
  end.

(** [points.filter(p => p.velocity).map(p => p.velocity)]. *)
Definition truthyVelocities (points : list TrajectoryPoint) : list JsNum :=
  omap (λ p, match p_velocity p with
             | Some v => if Js.truthy v then Some v else None
             | None => None
             end) points.

(** [values.reduce((a, b) => a + b, 0)]. *)
Definition sum (values : list JsNum) : JsNum :=
  foldl Js.add Js.zero values.

(** [analyzeTrajectory]. *)
Definition analyzeTrajectory (t : Tracker) : TrajectoryMetrics :=
  let points := trajectoryPoints t in
  match points with
  | [] | [_] =>
      {| pathLength := Js.zero; straightDistance := None;
         straightness := Js.ofZ 1; smoothness := Js.ofZ 1;
         pointCount := length points; averageVelocity := None |}
  | first :: rest =>
      let pathLength := pathLengthLoop first rest Js.zero in
      let lastPoint := default first (last points) in
      let straightDistance :=
        Js.sqrt (Js.add (Js.pow2 (Js.sub (p_x lastPoint) (p_x first)))
                        (Js.pow2 (Js.sub (p_y lastPoint) (p_y first)))) in
      let straightness := Js.div straightDistance pathLength in
      let velocities := truthyVelocities points in
      let count := Js.ofZ (Z.of_nat (length velocities)) in
      let avgVelocity := Js.div (sum velocities) count in
      let velocityVariance :=
        Js.div
          (foldl (λ acc v, Js.add acc (Js.pow2 (Js.sub v avgVelocity)))
                 Js.zero velocities)
          count in
      let smoothness :=
        Js.div (Js.ofZ 1)
          (Js.add (Js.ofZ 1)
             (Js.div (Js.sqrt velocityVariance) avgVelocity)) in
      {| pathLength := Js.toFixed 2 pathLength;
         straightDistance := Some (Js.toFixed 2 straightDistance);
         straightness := Js.toFixed 3 straightness;
         smoothness := Js.toFixed 3 smoothness;
         pointCount := length points;
         averageVelocity := Some (Js.toFixed 2 avgVelocity) |}
  end.

(* ------------------------------------------------------------------ *)
(** ** Event logger *)
(* ------------------------------------------------------------------ *)

(** [trackBubbleSpawn]. *)
Definition trackBubbleSpawn (bubble : Bubble) (now : Z) (t : Tracker)
    (h : Host) : Tracker * Host :=
  logInteraction "bubble_spawn" (BubbleSpawnData bubble) now t h.

(** [trackPointerUp]. *)
Definition trackPointerUp (event : PointerEvent) (bubbleId : option string)
    (bubbleHit : bool) (now : Z) (t : Tracker) (h : Host)
    : Tracker * Host :=
  let coords := getCoordinates event in
  let touchDuration :=
    match touchStartTimes t !! touchKey bubbleId with
    | Some startTime =>
        if bool_decide (startTime = 0) then 0 else now - startTime
    | None => 0
    end in
  let interTapInterval :=
    if bool_decide (lastTapTime t = 0) then 0 else now - lastTapTime t in
  let t1 := set_lastTapTime now t in
  let trajectoryMetrics := analyzeTrajectory t1 in
  let t2 := set_touchStartTimes
              (delete (touchKey bubbleId) (touchStartTimes t1)) t1 in
  let t3 := set_velocityHistory [] t2 in
  let t4 := set_trajectoryPoints [] t3 in
  let t5 := set_lastPosition None t4 in
  logInteraction (if bubbleHit then "bubble_hit" else "stage_clicked_miss")
    (PointerUpData coords bubbleId touchDuration interTapInterval
       trajectoryMetrics bubbleHit)
    now t5 h.

(** [trackBubbleHit]. *)
Definition trackBubbleHit (bubble : Bubble) (event : PointerEvent)
    (now : Z) (t : Tracker) (h : Host) : Tracker * Host :=
  let reactionTime := now - b_spawnTime bubble in
  let coords := getCoordinates event in
  let dx := Js.sub (c_x coords) (b_x bubble) in
  let dy := Js.sub (c_y coords) (b_y bubble) in
  let clickAccuracy := Js.sqrt (Js.add (Js.mul dx dx) (Js.mul dy dy)) in
  logInteraction "bubble_hit"
    (BubbleHitData bubble coords (Js.toFixed 2 clickAccuracy) reactionTime)
    now t h.

(** [trackBubbleMiss]. *)
Definition trackBubbleMiss (bubble : Bubble) (now : Z) (t : Tracker)
    (h : Host) : Tracker * Host :=
  logInteraction "bubble_miss"
    (BubbleMissData bubble (now - b_spawnTime bubble)) now t h.

(* ------------------------------------------------------------------ *)
(** ** Calls from the game *)
(* ------------------------------------------------------------------ *)

(** The calls the game and the host make on one tracker.  [Flush] stands
    for the callers of [flushBatch] outside [addToBuffer]
    ([trackRoundComplete] and [complete]); [StartRound] is an assignment
    to [tracker.round]: [startRound] of the game, and the [round++] that
    ends [trackRoundComplete]. *)
Inductive Call : Type :=
| PointerMove (event : PointerEvent) (now : Z) (window : Viewport)
| PointerDown (event : PointerEvent) (bubbleId : option string) (now : Z)
| PointerUp (event : PointerEvent) (bubbleId : option string)
    (bubbleHit : bool) (now : Z)
| PointerDownState
| PointerUpState
| BubbleSpawn (bubble : Bubble) (now : Z)
| BubbleHit (bubble : Bubble) (event : PointerEvent) (now : Z)
| BubbleMiss (bubble : Bubble) (now : Z)
| Flush
| TimerExpires (id : positive)
| StartRound (round : Z).

Definition call (c : Call) (t : Tracker) (h : Host) : Tracker * Host :=
  match c with
  | PointerMove event now window => (trackPointerMove event now window t, h)
  | PointerDown event bubbleId now => trackPointerDown event bubbleId now t h
  | PointerUp event bubbleId bubbleHit now =>
      trackPointerUp event bubbleId bubbleHit now t h
  | PointerDownState => (trackPointerDownState t, h)
  | PointerUpState => (trackPointerUpState t, h)
  | BubbleSpawn bubble now => trackBubbleSpawn bubble now t h
  | BubbleHit bubble event now => trackBubbleHit bubble event now t h
  | BubbleMiss bubble now => trackBubbleMiss bubble now t h
  | Flush => flushBatch t h
  | TimerExpires id => fireTimer id t h
  | StartRound r => (set_round r t, h)
  end.

(** A run of calls, first call first. *)
Definition run (calls : list Call) (t : Tracker) (h : Host)
    : Tracker * Host :=
  foldl (λ '(t, h) c, call c t h) (t, h) calls.

End Tracker.

(* ================================================================== *)
(** * The bubble game: overshoot probe of [sampleCursorPosition] *)
(* ================================================================== *)

Module MotorSkillsGame.
Import Tracker.

Definition BUBBLE_RADIUS : Z := 25.

(** The refs that [sampleCursorPosition] reads and writes. *)
Record Refs : Type := {
  isPlayingRef : bool;
  motorTrackerRef : option Tracker;
  bubblesRef : list Bubble;
  distanceHistoryRef : list JsNum;
}.

(** The distance [dist] from the pointer to one bubble, as the loop
    computes it. *)
Definition bubbleDistance (pointerPos : Coords) (bubble : Bubble) : JsNum :=
  let dx := Js.sub (c_x pointerPos) (b_x bubble) in
  let dy := Js.sub (c_y pointerPos) (b_y bubble) in
  Js.sqrt (Js.add (Js.mul dx dx) (Js.mul dy dy)).

(** The loop over [bubblesRef.current] that keeps the smallest distance,
    started from [Infinity]. *)
Definition nearestDistance (pointerPos : Coords) (bubbles : list Bubble)
    : JsNum :=
  foldl (λ minDist bubble,
           let dist := bubbleDistance pointerPos bubble in
           if Js.lt dist minDist then dist else minDist)
        Js.PInf bubbles.

(** "Add to history": push, then drop the oldest entry past 100. *)
Definition pushDistance (minDist : JsNum) (history : list JsNum)
    : list JsNum :=
  let history1 := history ++ [minDist] in
  if bool_decide (100 < length history1)%nat
  then drop 1 history1 else history1.

(** The condition [wasApproaching && nowReceding && nearTarget] on the
    last three entries, guarded by [history.length >= 3]. *)
Definition overshootDetected (history : list JsNum) : bool :=
  let n := length history in
  if bool_decide (3 ≤ n)%nat
  then
    match history !! (n - 3)%nat, history !! (n - 2)%nat,
          history !! (n - 1)%nat with
    | Some prev2, Some prev1, Some curr =>
        let wasApproaching := Js.lt prev1 prev2 in
        let nowReceding := Js.gt curr prev1 in
        let nearTarget := Js.lt curr (Js.ofZ (BUBBLE_RADIUS * 4)) in
        wasApproaching && nowReceding && nearTarget
    | _, _, _ => false
    end
  else false.

(** The block of [sampleCursorPosition] under "Track distance to nearest
    bubble for overshoot detection".  It returns the new value of
    [distanceHistoryRef.current]: the branch under "Detect overshoot" does
    nothing but reset the history, and nothing else is kept of a
    detection. *)
Definition overshootProbe (pointerPos : Coords) (bubbles : list Bubble)
    (history : list JsNum) : list JsNum :=
  match bubbles with
  | [] => history
  | _ :: _ =>
      let history1 :=
        pushDistance (nearestDistance pointerPos bubbles) history in
      if overshootDetected history1 then [] else history1
  end.

(** One run of [sampleCursorPosition], up to the request for the next
    animation frame.  [pointerPos] is [stage.getPointerPosition()]: [None]
    when the stage is not mounted or has seen no pointer yet. *)
Definition sampleCursorPosition (pointerPos : option Coords) (now : Z)
    (window : Viewport) (refs : Refs) : Refs :=
  if negb (isPlayingRef refs) then refs
  else
    match motorTrackerRef refs, pointerPos with
    | Some tracker, Some pos =>
        let fakeEvent :=
          {| touches := None; clientX := Some (c_x pos);
             clientY := Some (c_y pos); pointerType := None;
             pressure := None |} in
        let tracker1 := trackPointerMove fakeEvent now window tracker in
        {| isPlayingRef := isPlayingRef refs;
           motorTrackerRef := Some tracker1;
           bubblesRef := bubblesRef refs;
           distanceHistoryRef :=
             overshootProbe pos (bubblesRef refs)
               (distanceHistoryRef refs) |}
    | _, _ => refs
    end.

End MotorSkillsGame.

(* ================================================================== *)
(** * The challenge state machine (context/GameContext.jsx) *)
(* ================================================================== *)

Module GameContext.

(** JSON values kept in challenge results and challenge progress.  The
    state machine stores and copies them without looking inside; numbers
    held there (cursors, counters, levels) are integers. *)
#[warnings="-register-all"]
Inductive JVal : Type :=
| JNull
| JBool (b : bool)
| JNum (n : Z)
| JStr (s : string)
| JArr (items : list JVal)
| JObj (fields : list (string * JVal)).

Definition CHALLENGE_ORDER : list string :=
  ["intro"; "color-blindness"; "visual-acuity"; "motor-skills";
   "knowledge-quiz"; "profile-complete"].

Record Trait : Type := {
  trait_id : string;
  trait_name : string;
  trait_icon : string;
  trait_description : string;
}.

(** [PROFILE_TRAITS[challengeId]]; [None] is [undefined].  The table
    answers for the identifiers the game uses; the names of the members
    that an object literal inherits (such as "constructor"), which are no
    challenge identifiers, are not modelled. *)
Definition PROFILE_TRAITS (challengeId : string) : option Trait :=
  if bool_decide (challengeId = "color-blindness") then
    Some {| trait_id := "perception"; trait_name := "Pattern Vision";
            trait_icon := "🎨";
            trait_description := "Master of hidden patterns" |}
  else if bool_decide (challengeId = "visual-acuity") then
    Some {| trait_id := "clarity"; trait_name := "Eagle Eye";
            trait_icon := "🦅";
            trait_description := "Sharp focus and precision" |}
  else if bool_decide (challengeId = "motor-skills") then
    Some {| trait_id := "reflexes"; trait_name := "Lightning Reflexes";
            trait_icon := "⚡";
            trait_description := "Quick reactions under pressure" |}
  else if bool_decide (challengeId = "knowledge-quiz") then
    Some {| trait_id := "literacy"; trait_name := "Tech Guru";
            trait_icon := "🧠";
            trait_description := "Digital wisdom unlocked" |}
  else None.

Record Stats : Type := {
  totalScore : Z;
  currentStreak : Z;
  maxStreak : Z;
  totalCorrect : Z;
  totalAttempts : Z;
  averageResponseTime : Z;
  responseTimes : list Z;
}.

(** The payload of [UPDATE_STATS]: the keys it carries. *)
Record StatsPatch : Type := {
  patch_totalScore : option Z;
  patch_currentStreak : option Z;
  patch_maxStreak : option Z;
  patch_totalCorrect : option Z;
  patch_totalAttempts : option Z;
  patch_averageResponseTime : option Z;
  patch_responseTimes : option (list Z);
}.

(** [{ ...stats, ...patch }]. *)
Definition patchStats (stats : Stats) (patch : StatsPatch) : Stats :=
  {| totalScore := default (totalScore stats) (patch_totalScore patch);
     currentStreak :=
       default (currentStreak stats) (patch_currentStreak patch);
     maxStreak := default (maxStreak stats) (patch_maxStreak patch);
     totalCorrect := default (totalCorrect stats) (patch_totalCorrect patch);
     totalAttempts :=
       default (totalAttempts stats) (patch_totalAttempts patch);
     averageResponseTime :=
       default (averageResponseTime stats) (patch_averageResponseTime patch);
     responseTimes :=
       default (responseTimes stats) (patch_responseTimes patch) |}.

Record GameState : Type := {
  userId : option string;
  sessionId : string;
  currentPhase : string;
  completedChallenges : list string;
  stats : Stats;
  unlockedTraits : list Trait;
  challengeResults : gmap string JVal;
  challengeProgress : gmap string (gmap string JVal);
  startTime : option Z;
  phaseStartTime : option Z;
  showingTransition : bool;
  transitionMessage : string;
  isPaused : bool;
}.

(** What the save effect writes under [STORAGE_KEY], and what
    [JSON.parse] gives back on the next page load: that key is written
    nowhere else. *)
Record SavedState : Type := {
  saved_userId : option string;
  saved_sessionId : string;
  saved_currentPhase : string;
  saved_completedChallenges : list string;
  saved_stats : Stats;
  saved_unlockedTraits : list Trait;
  saved_challengeResults : gmap string JVal;
  saved_challengeProgress : gmap string (gmap string JVal);
  saved_startTime : option Z;
}.

Definition initialStats : Stats :=
  {| totalScore := 0; currentStreak := 0; maxStreak := 0; totalCorrect := 0;
     totalAttempts := 0; averageResponseTime := 0; responseTimes := [] |}.

Definition initialProgress : gmap string (gmap string JVal) :=
  {[ "colorBlindness" :=
       {[ "currentPlate" := JNum 0; "plates" := JArr [] ]};
     "visualAcuity" :=
       {[ "currentLevel" := JNum 1; "distanceConfirmed" := JBool false;
          "lastCorrectLevel" := JNum 1; "attempts" := JArr [] ]};
     "motorSkills" :=
       {[ "currentRound" := JNum 1;
          "totalStats" :=
            JObj [("hits", JNum 0); ("misses", JNum 0);
                  ("bestStreak", JNum 0)] ]};
     "knowledgeQuiz" :=
       {[ "currentQuestion" := JNum 0; "responses" := JArr [] ]} ]}.

(** [initialState]; the session id is generated when the module loads. *)
Definition initialState (sessionId : string) : GameState :=
  {| userId := None; sessionId := sessionId; currentPhase := "intro";
     completedChallenges := []; stats := initialStats;
     unlockedTraits := [];
     challengeResults :=
       {[ "colorBlindness" := JNull; "visualAcuity" := JNull;
          "motorSkills" := JNull; "knowledgeQuiz" := JNull ]};
     challengeProgress := initialProgress;
     startTime := None; phaseStartTime := None;
     showingTransition := false; transitionMessage := "";
     isPaused := false |}.

Inductive Action : Type :=
| SET_USER_ID (payload : option string)
| START_GAME
| SET_PHASE (payload : string)
| COMPLETE_CHALLENGE (payload : string)
| UPDATE_STATS (payload : StatsPatch)
| INCREMENT_STREAK
| BREAK_STREAK
| UNLOCK_TRAIT (payload : Trait)
| SHOW_TRANSITION (payload : string)
| HIDE_TRANSITION
| SAVE_CHALLENGE_RESULT (challenge : string) (result : JVal)
| ADD_RESPONSE_TIME (payload : Z)
| PAUSE_GAME
| RESUME_GAME
| LOAD_SAVED_STATE (payload : SavedState)
| UPDATE_CHALLENGE_PROGRESS (challenge : string)
    (progress : gmap string JVal).

(** Field updates, [{ ...state, field: v }]. *)
Definition set_userId (v : option string) (s : GameState) : GameState :=
  let (_, b, c, d, e, f, g, h, i, j, k, l, m) := s in
  Build_GameState v b c d e f g h i j k l m.
Definition set_currentPhase (v : string) (s : GameState) : GameState :=
  let (a, b, _, d, e, f, g, h, i, j, k, l, m) := s in
  Build_GameState a b v d e f g h i j k l m.
Definition set_completedChallenges (v : list string) (s : GameState)
    : GameState :=
  let (a, b, c, _, e, f, g, h, i, j, k, l, m) := s in
  Build_GameState a b c v e f g h i j k l m.
Definition set_stats (v : Stats) (s : GameState) : GameState :=
  let (a, b, c, d, _, f, g, h, i, j, k, l, m) := s in
  Build_GameState a b c d v f g h i j k l m.
Definition set_unlockedTraits (v : list Trait) (s : GameState) : GameState :=
  let (a, b, c, d, e, _, g, h, i, j, k, l, m) := s in
  Build_GameState a b c d e v g h i j k l m.
Definition set_challengeResults (v : gmap string JVal) (s : GameState)
    : GameState :=
  let (a, b, c, d, e, f, _, h, i, j, k, l, m) := s in
  Build_GameState a b c d e f v h i j k l m.
Definition set_challengeProgress (v : gmap string (gmap string JVal))
    (s : GameState) : GameState :=
  let (a, b, c, d, e, f, g, _, i, j, k, l, m) := s in
  Build_GameState a b c d e f g v i j k l m.
Definition set_startTime (v : option Z) (s : GameState) : GameState :=
  let (a, b, c, d, e, f, g, h, _, j, k, l, m) := s in
  Build_GameState a b c d e f g h v j k l m.
Definition set_phaseStartTime (v : option Z) (s : GameState) : GameState :=
  let (a, b, c, d, e, f, g, h, i, _, k, l, m) := s in
  Build_GameState a b c d e f g h i v k l m.
Definition set_showingTransition (v : bool) (s : GameState) : GameState :=
  let (a, b, c, d, e, f, g, h, i, j, _, l, m) := s in
  Build_GameState a b c d e f g h i j v l m.
Definition set_transitionMessage (v : string) (s : GameState) : GameState :=
  let (a, b, c, d, e, f, g, h, i, j, k, _, m) := s in
  Build_GameState a b c d e f g h i j k v m.
Definition set_isPaused (v : bool) (s : GameState) : GameState :=
  let (a, b, c, d, e, f, g, h, i, j, k, l, _) := s in
  Build_GameState a b c d e f g h i j k l v.

(** [Math.round(sum / count)] on integers, for [count > 0]: the nearest
    integer, a tie going up.  This is what the doubles give as long as
    the partial sums stay below 2^52 in absolute value. *)
Definition roundedMean (values : list Z) : Z :=
  let total := foldl Z.add 0 values in
  let count := Z.of_nat (length values) in
  (2 * total + count) `div` (2 * count).

(** [gameReducer]; [now] is the value [Date.now()] returns while the
    action is reduced. *)
Definition gameReducer (now : Z) (state : GameState) (action : Action)
    : GameState :=
  match action with
  | SET_USER_ID payload => set_userId payload state
  | START_GAME =>
      set_currentPhase "color-blindness"
        (set_phaseStartTime (Some now) (set_startTime (Some now) state))
  | SET_PHASE payload =>
      set_phaseStartTime (Some now) (set_currentPhase payload state)
  | COMPLETE_CHALLENGE payload =>
      let completedChallenges := completedChallenges state ++ [payload] in
      set_completedChallenges completedChallenges state
  | UPDATE_STATS payload => set_stats (patchStats (stats state) payload) state
  | INCREMENT_STREAK =>
      let st := stats state in
      let newStreak := currentStreak st + 1 in
      set_stats
        {| totalScore := totalScore st; currentStreak := newStreak;
           maxStreak := Z.max (maxStreak st) newStreak;
           totalCorrect := totalCorrect st + 1;
           totalAttempts := totalAttempts st + 1;
           averageResponseTime := averageResponseTime st;
           responseTimes := responseTimes st |} state
  | BREAK_STREAK =>
      let st := stats state in
      set_stats
        {| totalScore := totalScore st; currentStreak := 0;
           maxStreak := maxStreak st; totalCorrect := totalCorrect st;
           totalAttempts := totalAttempts st + 1;
           averageResponseTime := averageResponseTime st;
           responseTimes := responseTimes st |} state
  | UNLOCK_TRAIT payload =>
      set_unlockedTraits (unlockedTraits state ++ [payload]) state
  | SHOW_TRANSITION payload =>
      set_transitionMessage payload (set_showingTransition true state)
  | HIDE_TRANSITION =>
      set_transitionMessage "" (set_showingTransition false state)
  | SAVE_CHALLENGE_RESULT challenge result =>
      set_challengeResults (<[challenge := result]> (challengeResults state))
        state
  | ADD_RESPONSE_TIME payload =>
      let st := stats state in
      let responseTimes := responseTimes st ++ [payload] in
      let averageResponseTime := roundedMean responseTimes in
      set_stats
        {| totalScore := totalScore st; currentStreak := currentStreak st;
           maxStreak := maxStreak st; totalCorrect := totalCorrect st;
           totalAttempts := totalAttempts st;
           averageResponseTime := averageResponseTime;
           responseTimes := responseTimes |} state
  | PAUSE_GAME => set_isPaused true state
  | RESUME_GAME => set_isPaused false state
  | LOAD_SAVED_STATE payload =>
      {| userId := saved_userId payload;
         sessionId := saved_sessionId payload;
         currentPhase := saved_currentPhase payload;
         completedChallenges := saved_completedChallenges payload;
         stats := saved_stats payload;
         unlockedTraits := saved_unlockedTraits payload;
         challengeResults := saved_challengeResults payload;
         challengeProgress := saved_challengeProgress payload;
         startTime := saved_startTime payload;
         phaseStartTime := phaseStartTime state;
         showingTransition := showingTransition state;
         transitionMessage := transitionMessage state;
         isPaused := isPaused state |}
  | UPDATE_CHALLENGE_PROGRESS challenge progress =>
      let slice := default ∅ (challengeProgress state !! challenge) in
      set_challengeProgress
        (<[challenge := progress ∪ slice]> (challengeProgress state)) state
  end.

(** A run of dispatched actions, each with the clock at its reduction. *)
Definition dispatchAll (actions : list (Z * Action)) (state : GameState)
    : GameState :=
  foldl (λ s '(now, action), gameReducer now s action) state actions.

(** ** Persistence effects of [GameProvider] *)

(** A start time is truthy when it is a number other than [0]. *)
Definition started (startTime : option Z) : bool :=
  match startTime with
  | Some time => negb (bool_decide (time = 0))
  | None => false
  end.

(** "Load saved state on mount".  [storage] is the parsed item of
    [sessionStorage] under [STORAGE_KEY], [None] when the item is absent
    or does not parse (the exception is caught and logged). *)
Definition loadEffect (now : Z) (storage : option SavedState)
    (state : GameState) : GameState :=
  match storage with
  | Some parsedState =>
      if started (saved_startTime parsedState)
         && negb (bool_decide (saved_currentPhase parsedState = "intro"))
      then gameReducer now state (LOAD_SAVED_STATE parsedState)
      else state
  | None => state
  end.

(** "Save state on changes": the new content of the storage item. *)
Definition saveEffect (state : GameState) (storage : option SavedState)
    : option SavedState :=
  if started (startTime state)
  then Some {| saved_userId := userId state;
               saved_sessionId := sessionId state;
               saved_currentPhase := currentPhase state;
               saved_completedChallenges := completedChallenges state;
               saved_stats := stats state;
               saved_unlockedTraits := unlockedTraits state;
               saved_challengeResults := challengeResults state;
               saved_challengeProgress := challengeProgress state;
               saved_startTime := startTime state |}
  else storage.

(** The provider mounting on a page load: the reducer starts from
    [initialState] and the load effect runs once. *)
Definition mount (now : Z) (freshSessionId : string)
    (storage : option SavedState) : GameState :=
  loadEffect now storage (initialState freshSessionId).

(** ** [completeChallenge] *)

(** [array.indexOf(item)]: the first index of [item], or [-1]. *)
Fixpoint indexOf (item : string) (array : list string) : Z :=
  match array with
  | [] => -1
  | head :: rest =>
      if bool_decide (head = item) then 0
      else let index := indexOf item rest in
           if bool_decide (index = -1) then -1 else index + 1
  end.

(** The dispatches of [completeChallenge] before it awaits the two-second
    transition. *)
Definition completeChallengeBegin (challengeId : string) (results : JVal)
    : list Action :=
  let trait := PROFILE_TRAITS challengeId in
  let traitName := default "Challenge" (trait_name <$> trait) in
  [SAVE_CHALLENGE_RESULT challengeId results;
   COMPLETE_CHALLENGE challengeId]
  ++ match trait with
     | Some tr => [UNLOCK_TRAIT tr]
     | None => []
     end
  ++ [SHOW_TRANSITION (traitName +:+ " Unlocked!")].

(** The dispatches after the wait.  Under the guard the index
    [currentIndex + 1] lies between 0 and 5, so the array access never
    misses; the [None] branch is not reached. *)
Definition completeChallengeEnd (challengeId : string) : list Action :=
  let currentIndex := indexOf challengeId CHALLENGE_ORDER in
  [HIDE_TRANSITION]
  ++ if bool_decide (currentIndex < Z.of_nat (length CHALLENGE_ORDER) - 1)
     then match CHALLENGE_ORDER !! Z.to_nat (currentIndex + 1) with
          | Some nextPhase => [SET_PHASE nextPhase]
          | None => []
          end
     else [].

(** [completeChallenge(challengeId, results)], with [during] the actions
    that other components dispatch while the transition is shown. *)
Definition completeChallenge (challengeId : string) (results : JVal)
    (now : Z) (during : list (Z * Action)) (later : Z) (state : GameState)
    : GameState :=
  let s1 := dispatchAll
              ((λ a, (now, a)) <$> completeChallengeBegin challengeId results)
              state in
  let s2 := dispatchAll during s1 in
  dispatchAll ((λ a, (later, a)) <$> completeChallengeEnd challengeId) s2.

(** The position of a phase in [CHALLENGE_ORDER]. *)
Definition phaseIndex (phase : string) : Z := indexOf phase CHALLENGE_ORDER.

End GameContext.

(* ================================================================== *)
(** * Specification predicates *)
(* ================================================================== *)

Module TrackerSpec.
Import Tracker.

(** Neighbours in the sample buffer are at least [SAMPLE_INTERVAL] apart. *)
Definition spaced (samples : list Sample) : Prop :=
  ∀ i a b, samples !! i = Some a → samples !! S i = Some b →
           SAMPLE_INTERVAL ≤ s_tms b - s_tms a.

(** The newest sample carries the time kept in [lastSampleTime]. *)
Definition stamped (t : Tracker) : Prop :=
  ∀ a, last (pointerSamples t) = Some a → s_tms a = lastSampleTime t.

(** Both dimensions are finite and not zero. *)
Definition usableViewport (window : Viewport) : Prop :=
  ∃ w h : R, innerWidth window = Js.Fin w ∧ innerHeight window = Js.Fin h
             ∧ w ≠ 0%R ∧ h ≠ 0%R.

Definition finiteCoords (coords : Coords) : Prop :=
  Js.is_finite (c_x coords) ∧ Js.is_finite (c_y coords).

(** The point sits at the finite position [(x, y)]. *)
Definition pointAt (x y : R) (p : TrajectoryPoint) : Prop :=
  p_x p = Js.Fin x ∧ p_y p = Js.Fin y.

(** The real coordinates of a point whose coordinates are finite. *)
Definition realX (p : TrajectoryPoint) : R :=
  match p_x p with Js.Fin r => r | _ => 0%R end.

Definition realY (p : TrajectoryPoint) : R :=
  match p_y p with Js.Fin r => r | _ => 0%R end.

Definition finitePoint (p : TrajectoryPoint) : Prop :=
  Js.is_finite (p_x p) ∧ Js.is_finite (p_y p).

(** Euclidean distance between two points, and the length of the
    polyline that starts at [prev] and runs through [rest]. *)
Definition distance (a b : TrajectoryPoint) : R :=
  dist_euc (realX a) (realY a) (realX b) (realY b).

Fixpoint polyline (prev : TrajectoryPoint) (rest : list TrajectoryPoint)
    : R :=
  match rest with
  | [] => 0%R
  | p :: rest' => (distance prev p + polyline p rest')%R
  end.

(** A bubble at a finite position, and its Euclidean distance from the
    point [(px, py)]. *)
Definition finiteBubble (b : Bubble) : Prop :=
  Js.is_finite (b_x b) ∧ Js.is_finite (b_y b).

Definition gap (px py : R) (b : Bubble) : R :=
  match b_x b, b_y b with
  | Js.Fin bx, Js.Fin by_ => dist_euc px py bx by_
  | _, _ => 0%R
  end.

(** A finite, strictly positive number: what [trackKinematics] stores as
    velocity for a move that covers some distance. *)
Definition positive (v : JsNum) : Prop := ∃ r : R, v = Js.Fin r ∧ (0 < r)%R.

End TrackerSpec.

(* ================================================================== *)
(** * Concrete sessions used as examples *)
(* ================================================================== *)

Module Scenario.
Import Tracker.

(** A bubble, and a session that has just been constructed. *)
Definition bubbleA : Bubble :=
  {| b_id := "bubble_1"; b_x := Js.ofZ 80; b_y := Js.ofZ 600; b_column := 0;
     b_speed := Js.ofZ 2; b_radius := Js.ofZ 25; b_spawnTime := 1000 |}.

Definition session1 : Tracker := new "session_1" None "participant_1".

(** The event that [sampleCursorPosition] builds for a pointer at
    [(x, y)]. *)
Definition cursorEvent (x y : JsNum) : PointerEvent :=
  {| touches := None; clientX := Some x; clientY := Some y;
     pointerType := None; pressure := None |}.

(** A viewport that has collapsed to nothing, as [window.innerWidth] and
    [window.innerHeight] report for a frame that is not displayed. *)
Definition collapsedViewport : Viewport :=
  {| innerWidth := Js.ofZ 0; innerHeight := Js.ofZ 0 |}.

Definition desktopViewport : Viewport :=
  {| innerWidth := Js.ofZ 1280; innerHeight := Js.ofZ 720 |}.

(** A press at [(100, 50)] followed, 40 ms later, by a pointer move that
    reports the same position: the pointer is held still. *)
Definition heldStill : Tracker :=
  (run [PointerDown (cursorEvent (Js.ofZ 100) (Js.ofZ 50)) None 1000;
        PointerMove (cursorEvent (Js.ofZ 100) (Js.ofZ 50)) 1040
          desktopViewport]
     session1 fresh_host).1.

(** A session that holds one sample, taken at time 1000 with the pointer
    at [(100, 50)]. *)
Definition sampledOnce : Tracker :=
  trackPointerMove (cursorEvent (Js.ofZ 100) (Js.ofZ 50)) 1000
    desktopViewport session1.






End Scenario.

Module GameScenario.
Import GameContext.

(** A state in the middle of the quiz stage, reached by starting the game
    and moving to that phase. *)
Definition inQuiz : GameState :=
  dispatchAll [(1000, START_GAME); (9000, SET_PHASE "knowledge-quiz")]
    (initialState "session_1").

(** Scenario D: the game was started, the colour stage was completed, and
    the acuity stage stored level 3 as its cursor before the reload. *)
Definition midAcuity : GameState :=
  gameReducer 20000
    (completeChallenge "color-blindness" (JObj [("score", JNum 4)]) 9000 []
       11000
       (gameReducer 1000 (initialState "session_1") START_GAME))
    (UPDATE_CHALLENGE_PROGRESS "visualAcuity" {[ "currentLevel" := JNum 3 ]}).

End GameScenario.

(** Settles the integer tests of the tracker on concrete clocks and
    lengths. *)
Ltac decide_tests :=
  repeat match goal with
    | |- context [bool_decide ?P] =>
        first
          [ rewrite (bool_decide_eq_true_2 P)
              by (cbn; unfold Tracker.SAMPLE_INTERVAL,
                    Tracker.MOVE_TRACK_INTERVAL, Tracker.BATCH_SIZE; lia)
          | rewrite (bool_decide_eq_false_2 P)
              by (cbn; unfold Tracker.SAMPLE_INTERVAL,
                    Tracker.MOVE_TRACK_INTERVAL, Tracker.BATCH_SIZE; lia) ]
    end.

(* ================================================================== *)
(** * The other actions of [GameProvider] *)
(* ================================================================== *)

Module GameActions.
Import GameContext.

(** The actions a callback dispatches, all reduced at the clock [now]. *)
Definition dispatchAt (now : Z) (actions : list Action) (state : GameState)
    : GameState :=
  dispatchAll ((λ action, (now, action)) <$> actions) state.

(** The [ADD_RESPONSE_TIME] dispatch guarded by [if (responseTime)]: a
    call without argument ([None]) or with 0 dispatches nothing. *)
Definition responseTimeActions (responseTime : option Z) : list Action :=
  match responseTime with
  | Some time => if bool_decide (time = 0) then [] else [ADD_RESPONSE_TIME time]
  | None => []
  end.

(** [recordCorrectAnswer(responseTime)]. *)
Definition recordCorrectAnswer (responseTime : option Z) : list Action :=
  INCREMENT_STREAK :: responseTimeActions responseTime.

(** [recordIncorrectAnswer(responseTime)]. *)
Definition recordIncorrectAnswer (responseTime : option Z) : list Action :=
  BREAK_STREAK :: responseTimeActions responseTime.

(** [updateChallengeProgress(challenge, progress)]. *)
Definition updateChallengeProgress (challenge : string)
    (progress : gmap string JVal) : list Action :=
  [UPDATE_CHALLENGE_PROGRESS challenge progress].

(** The computed value [progress] of the provider.  [n / 4 * 100] is the
    exact quotient [100 n / 4]; [Math.round] takes the nearest integer, a
    tie going up. *)
Record Progress : Type := {
  progress_current : Z;
  progress_total : Z;
  progress_percentage : Z;
}.

Definition progress (state : GameState) : Progress :=
  let completed := Z.of_nat (length (completedChallenges state)) in
  {| progress_current := completed;
     progress_total := 4;
     progress_percentage := (2 * (completed * 100) + 4) `div` (2 * 4) |}.

(** [resetGame]: the storage item is removed and the page reloads, which
    mounts the provider again on a module loaded afresh. *)
Definition resetGame (now : Z) (freshSessionId : string)
    : GameState * option SavedState :=
  (mount now freshSessionId None, None).

(** One stage played to its end by the component of the current phase:
    it completes the challenge named by [currentPhase]. *)
Definition playCurrentStage (results : JVal) (now later : Z)
    (state : GameState) : GameState :=
  completeChallenge (currentPhase state) results now [] later state.

(** Stages played one after the other, each with its results and the
    clocks of its two halves. *)
Definition playStages (stages : list (JVal * Z * Z)) (state : GameState)
    : GameState :=
  foldl (λ s '(results, now, later), playCurrentStage results now later s)
    state stages.

(** The four stages, in the order of [CHALLENGE_ORDER]. *)
Definition STAGES : list string := take 4 (drop 1 CHALLENGE_ORDER).

(** The streak counters are consistent: no streak exceeds the best
    streak, the best streak was made of correct answers, and correct
    answers are attempts. *)
Definition statsOrdered (s : Stats) : Prop :=
  0 ≤ currentStreak s ∧ currentStreak s ≤ maxStreak s
  ∧ maxStreak s ≤ totalCorrect s ∧ totalCorrect s ≤ totalAttempts s.

(** Actions that carry a whole [stats] object from outside. *)
Definition overridesStats (action : Action) : bool :=
  match action with
  | UPDATE_STATS _ | LOAD_SAVED_STATE _ => true
  | _ => false
  end.

(** The part of a state that the save effect writes. *)
Definition persisted (state : GameState) : SavedState :=
  {| saved_userId := userId state;
     saved_sessionId := sessionId state;
     saved_currentPhase := currentPhase state;
     saved_completedChallenges := completedChallenges state;
     saved_stats := stats state;
     saved_unlockedTraits := unlockedTraits state;
     saved_challengeResults := challengeResults state;
     saved_challengeProgress := challengeProgress state;
     saved_startTime := startTime state |}.

(** A game in which one answer was given, after 400 ms. *)
Definition answeredOnce : GameState :=
  gameReducer 1000 (initialState "session_1") (ADD_RESPONSE_TIME 400).

(** Two stages played after the start, with their results. *)
Definition twoStages : list (JVal * Z * Z) :=
  [(JObj [("score", JNum 4)], 2000, 4000);
   (JObj [("level", JNum 6)], 9000, 11000)].

End GameActions.

(* ================================================================== *)
(** * The tracker: remaining helpers and invariants *)
(* ================================================================== *)

Module TrackerMore.
Import Tracker.

(** [calculateJerkiness]. *)
Definition calculateJerkiness (t : Tracker) : JsNum :=
  if bool_decide (length (velocityHistory t) < 3)%nat then Js.zero
  else
    let accelerations := v_acceleration <$> velocityHistory t in
    let count := Js.ofZ (Z.of_nat (length accelerations)) in
    let mean := Js.div (sum accelerations) count in
    let variance :=
      Js.div
        (foldl (λ total acc, Js.add total (Js.pow2 (Js.sub acc mean)))
               Js.zero accelerations)
        count in
    Js.sqrt variance.

(** [getAllInteractions]. *)
Definition getAllInteractions (t : Tracker) : list Interaction :=
  interactions t.

(** The three rolling buffers stay within their caps. *)
Definition withinCaps (t : Tracker) : Prop :=
  (length (pointerSamples t) ≤ 1000)%nat
  ∧ (length (trajectoryPoints t) ≤ 100)%nat
  ∧ (length (velocityHistory t) ≤ 10)%nat.

(** The batch timer is armed exactly while the buffer holds something,
    and then it is the only armed timer. *)
Definition timerMatchesBuffer (t : Tracker) (h : Host) : Prop :=
  match interactionBuffer t with
  | [] => timers h = ∅
  | _ :: _ => ∃ id, batchTimer t = Some id ∧ timers h = {[ id ]}
  end.

(** Every logged interaction is either in a batch that was swapped out
    or still in the buffer, in the order of logging. *)
Definition accountedFor (t : Tracker) (h : Host) : Prop :=
  interactions t = concat (batches h) ++ interactionBuffer t.


(** A batch that was swapped out holds between one and [BATCH_SIZE]
    interactions. *)
Definition sized (batch : list Interaction) : Prop :=
  (1 ≤ length batch ≤ BATCH_SIZE)%nat.


(** Neighbours in the list are related by [R]. *)
Definition chained {A : Type} (R : A → A → Prop) (l : list A) : Prop :=
  ∀ i a b, l !! i = Some a → l !! S i = Some b → R a b.

(** The trajectory points are in strictly increasing order of time. *)
Definition timesIncrease (points : list TrajectoryPoint) : Prop :=
  chained (λ a b, p_time a < p_time b) points.

(** Between gestures nothing is measured: an empty trajectory comes with
    an empty velocity history. *)
Definition gestureShape (t : Tracker) : Prop :=
  timesIncrease (trajectoryPoints t)
  ∧ (trajectoryPoints t = [] → velocityHistory t = []).

(** The event reports a finite position. *)
Definition finiteEvent (event : PointerEvent) : Prop :=
  TrackerSpec.finiteCoords (getCoordinates event).

Definition finiteCall (c : Call) : Prop :=
  match c with
  | PointerMove event _ _ | PointerDown event _ _ | PointerUp event _ _ _
  | BubbleHit _ event _ => finiteEvent event
  | _ => True
  end.

(** A finite number that is not negative. *)
Definition magnitude (v : JsNum) : Prop :=
  ∃ r : R, v = Js.Fin r ∧ (0 <= r)%R.

(** An entry of the velocity history with a finite, non-negative velocity
    and a finite acceleration. *)
Definition finiteVelocity (v : VelocitySample) : Prop :=
  magnitude (v_velocity v) ∧ Js.is_finite (v_acceleration v).

(** A trajectory point at a finite position whose velocity and
    acceleration, where it has them, are finite. *)
Definition measuredPoint (p : TrajectoryPoint) : Prop :=
  TrackerSpec.finitePoint p
  ∧ from_option magnitude True (p_velocity p)
  ∧ from_option Js.is_finite True (p_acceleration p).

Definition finiteKinematics (t : Tracker) : Prop :=
  Forall finiteVelocity (velocityHistory t)
  ∧ Forall measuredPoint (trajectoryPoints t)
  ∧ from_option TrackerSpec.finiteCoords True (lastPosition t).

(** The inputs on which the measurements below are stated.  A pointer
    coordinate is a fixed-point number with 32 fractional bits and at most
    20 integer bits, and a clock reading is a time value of [Date], from 0
    to 8.64e15 ms.  On these inputs the arithmetic of the tracker on
    doubles neither overflows nor underflows: a coordinate and a
    difference of two coordinates or of two clock readings are exact, two
    positions that differ are at least 2^-32 px apart, and the rounding
    errors of the quantities derived from them stay many orders below the
    third decimal that [analyzeTrajectory] reports. *)
Definition onGrid (v : JsNum) : Prop :=
  ∃ m : Z, v = Js.Fin (IZR m / 2 ^ 32) ∧ - 2 ^ 52 ≤ m ≤ 2 ^ 52.

Definition hostEvent (event : PointerEvent) : Prop :=
  onGrid (c_x (getCoordinates event)) ∧ onGrid (c_y (getCoordinates event)).

Definition hostClock (now : Z) : Prop := 0 ≤ now ≤ 8640000000000000.

Definition hostCall (c : Call) : Prop :=
  match c with
  | PointerMove event now _ | PointerDown event _ now
  | PointerUp event _ _ now | BubbleHit _ event now =>
      hostEvent event ∧ hostClock now
  | BubbleSpawn _ now | BubbleMiss _ now => hostClock now
  | _ => True
  end.

(** A trajectory point at such a position. *)
Definition gridPoint (p : TrajectoryPoint) : Prop :=
  onGrid (p_x p) ∧ onGrid (p_y p).

(** An entry of the velocity history whose acceleration is a finite
    number of at most 2^64 px/s^2 in absolute value; the recorded
    velocities being below 2^32 px/s and two clock readings at least 1 ms
    apart, the tracker records no larger one on the inputs above. *)
Definition boundedAcceleration (v : VelocitySample) : Prop :=
  ∃ a : R, v_acceleration v = Js.Fin a ∧ (Rabs a <= 2 ^ 64)%R.

(** A drag: a press at [(100, 50)], then two moves to [(130, 90)] and
    [(130, 50)], and what the tracker holds after them. *)
Definition dragCalls : list Call :=
  [PointerDown (Scenario.cursorEvent (Js.ofZ 100) (Js.ofZ 50)) None 1000;
   PointerMove (Scenario.cursorEvent (Js.ofZ 130) (Js.ofZ 90)) 1040
     Scenario.desktopViewport;
   PointerMove (Scenario.cursorEvent (Js.ofZ 130) (Js.ofZ 50)) 1080
     Scenario.desktopViewport].

(** A tracker that holds three velocity entries and nothing else. *)
Definition threeVelocities : Tracker :=
  set_velocityHistory
    [{| v_velocity := Js.ofZ 100; v_acceleration := Js.ofZ 0;
        v_time := 1040 |};
     {| v_velocity := Js.ofZ 300; v_acceleration := Js.ofZ 5;
        v_time := 1080 |};
     {| v_velocity := Js.ofZ 200; v_acceleration := Js.ofZ (-2);
        v_time := 1120 |}]
    Scenario.session1.

(** A tracker that holds a gesture of two points 50 pixels and 40 ms
    apart. *)
Definition twoPoints : Tracker :=
  set_trajectoryPoints
    [{| p_x := Js.ofZ 100; p_y := Js.ofZ 50; p_time := 1000;
        p_velocity := None; p_acceleration := None |};
     {| p_x := Js.ofZ 130; p_y := Js.ofZ 90; p_time := 1040;
        p_velocity := Some (Js.ofZ 1250);
        p_acceleration := Some Js.zero |}]
    Scenario.session1.

End TrackerMore.


(* ================================================================== *)
(** * Performance metrics (hooks/usePerformanceMetrics.js) *)
(* ================================================================== *)

(** [performance.now()] and [event.timeStamp] are finite numbers of
    milliseconds, so the hook computes on finite numbers only: they are
    taken as exact reals.  Every function that reads the clock takes it
    as the argument [now]. *)
Module PerformanceMetrics.
Local Open Scope R_scope.

(** An entry of [inputEventsRef]. *)
Record InputEvent : Type := {
  eventTime : R;
  processTime : R;
  lag : R;
}.

(** The five refs of the hook; [lastFrameTimeRef] is [null] until
    [startTracking] runs. *)
Record Perf : Type := {
  frameTimesRef : list R;
  lastFrameTimeRef : option R;
  droppedFramesRef : Z;
  inputEventsRef : list InputEvent;
  isTrackingRef : bool;
}.

Definition initial : Perf :=
  {| frameTimesRef := []; lastFrameTimeRef := None; droppedFramesRef := 0;
     inputEventsRef := []; isTrackingRef := false |}.

(** What [computeMetrics] returns; [None] is [null]. *)
Record Metrics : Type := {
  samplingHzTarget : Z;
  samplingHzEstimated : option R;
  avgFrameMs : option R;
  p95FrameMs : option R;
  droppedFrames : Z;
  inputLagMsEstimate : option R;
}.

(** [startTracking]. *)
Definition startTracking (now : R) (p : Perf) : Perf :=
  {| frameTimesRef := []; lastFrameTimeRef := Some now;
     droppedFramesRef := 0; inputEventsRef := []; isTrackingRef := true |}.

(** [recordFrame]. *)
Definition recordFrame (now : R) (p : Perf) : Perf :=
  if negb (isTrackingRef p) then p
  else
    match lastFrameTimeRef p with
    | Some lastFrameTime =>
        let frameTime := now - lastFrameTime in
        {| frameTimesRef := frameTimesRef p ++ [frameTime];
           lastFrameTimeRef := Some now;
           droppedFramesRef :=
             if bool_decide (25 < frameTime)
             then (droppedFramesRef p
                   + (Int_part (frameTime / (1667 / 100)) - 1))%Z
             else droppedFramesRef p;
           inputEventsRef := inputEventsRef p;
           isTrackingRef := isTrackingRef p |}
    | None =>
        {| frameTimesRef := frameTimesRef p; lastFrameTimeRef := Some now;
           droppedFramesRef := droppedFramesRef p;
           inputEventsRef := inputEventsRef p;
           isTrackingRef := isTrackingRef p |}
    end.

(** [recordInputEvent]; [eventTimestamp] is [event.evt?.timeStamp], which
    may be [undefined], and a timestamp of 0 is falsy. *)
Definition recordInputEvent (eventTimestamp : option R) (now : R)
    (p : Perf) : Perf :=
  if negb (isTrackingRef p) then p
  else
    match eventTimestamp with
    | Some timestamp =>
        if bool_decide (timestamp = 0) then p
        else
          {| frameTimesRef := frameTimesRef p;
             lastFrameTimeRef := lastFrameTimeRef p;
             droppedFramesRef := droppedFramesRef p;
             inputEventsRef :=
               inputEventsRef p ++
               [{| eventTime := timestamp; processTime := now;
                   lag := now - timestamp |}];
             isTrackingRef := isTrackingRef p |}
    | None => p
    end.

(** [values.reduce((a, b) => a + b, 0) / values.length]. *)
Definition total (values : list R) : R := foldl Rplus 0 values.

Definition count (values : list R) : R := IZR (Z.of_nat (length values)).

Definition average (values : list R) : R := total values / count values.

(** [Math.round(x * scale) / scale] for [scale] 10 or 100. *)
Definition roundTo (scale : Z) (x : R) : R :=
  IZR (Js.round_half_up (x * IZR scale)) / IZR scale.

(** The lags that [computeMetrics] keeps. *)
Definition validLag (l : R) : Prop := 0 <= l ∧ l < 500.

(** [sortedFrameTimes[p95Index] || avgFrameMs]. *)
Definition percentile95 (frameTimes : list R) (avgFrameMs : R) : R :=
  let sortedFrameTimes := merge_sort Rle frameTimes in
  let p95Index :=
    Z.to_nat (Int_part (count sortedFrameTimes * (95 / 100))) in
  match sortedFrameTimes !! p95Index with
  | Some frameTime =>
      if bool_decide (frameTime = 0) then avgFrameMs else frameTime
  | None => avgFrameMs
  end.

(** [computeMetrics], which is also [getCurrentMetrics]. *)
Definition computeMetrics (p : Perf) : Metrics :=
  let frameTimes := frameTimesRef p in
  let inputEvents := inputEventsRef p in
  match frameTimes with
  | [] =>
      {| samplingHzTarget := 60; samplingHzEstimated := None;
         avgFrameMs := None; p95FrameMs := None; droppedFrames := 0;
         inputLagMsEstimate := None |}
  | _ :: _ =>
      let avg := average frameTimes in
      let p95 := percentile95 frameTimes avg in
      let hz := if bool_decide (0 < avg) then 1000 / avg else 60 in
      let inputLag :=
        match inputEvents with
        | [] => None
        | _ :: _ =>
            let validLags := filter validLag (lag <$> inputEvents) in
            match validLags with
            | [] => None
            | _ :: _ => Some (average validLags)
            end
        end in
      {| samplingHzTarget := 60;
         samplingHzEstimated := Some (roundTo 10 hz);
         avgFrameMs := Some (roundTo 100 avg);
         p95FrameMs := Some (roundTo 100 p95);
         droppedFrames := droppedFramesRef p;
         inputLagMsEstimate := roundTo 100 <$> inputLag |}
  end.

Definition getCurrentMetrics (p : Perf) : Metrics := computeMetrics p.

(** [stopTracking]. *)
Definition stopTracking (p : Perf) : Perf * Metrics :=
  let p1 :=
    {| frameTimesRef := frameTimesRef p;
       lastFrameTimeRef := lastFrameTimeRef p;
       droppedFramesRef := droppedFramesRef p;
       inputEventsRef := inputEventsRef p; isTrackingRef := false |} in
  (p1, computeMetrics p1).

(** The calls the game makes while it runs: [recordFrame] from the
    animation loop and [recordInputEvent] from the click handlers. *)
Inductive PerfCall : Type :=
| Frame (now : R)
| InputAt (eventTimestamp : option R) (now : R).

Definition perfCall (c : PerfCall) (p : Perf) : Perf :=
  match c with
  | Frame now => recordFrame now p
  | InputAt eventTimestamp now => recordInputEvent eventTimestamp now p
  end.

Definition perfRun (calls : list PerfCall) (p : Perf) : Perf :=
  foldl (λ p c, perfCall c p) p calls.

(** The clock readings of the frames among the calls. *)
Definition frameClock (calls : list PerfCall) : list R :=
  omap (λ c, match c with Frame now => Some now | InputAt _ _ => None end)
    calls.

(** A clock that starts at [start] and never runs backwards. *)
Fixpoint nondecreasing (start : R) (times : list R) : Prop :=
  match times with
  | [] => True
  | time :: rest => start <= time ∧ nondecreasing time rest
  end.

(** Three frames 16, 50 and 17 ms apart, and a click in between that was
    handled 4 ms after it happened. *)
Definition threeFrames : list PerfCall :=
  [Frame 1016; InputAt (Some 1040) 1044; Frame 1066; Frame 1083].

End PerformanceMetrics.

(* ================================================================== *)
(** * The bubble field (modules/Motor/MotorSkillsGame.jsx) *)
(* ================================================================== *)

(** The game loop around the tracker: [startRound], [spawnBubble],
    [animate] and the two click handlers.  Timers and animation frames
    belong to the host, so each run of a callback is one event.
    [Date.now()] is the argument [now], [performance.now()] the argument
    [perfNow], and [generateBubbleId()] the argument [id]. *)
Module BubbleField.
Import Tracker MotorSkillsGame PerformanceMetrics.

Record Pattern : Type := {
  speed : JsNum;
  spawnInterval : Z;
  duration : Z;
  pattern : list Z;
}.

Definition BUBBLE_PATTERNS : list Pattern :=
  [{| speed := Js.Fin (3 / 2); spawnInterval := 1200; duration := 20000;
      pattern := [0; 1; 2; 3; 4; 0; 2; 4; 1; 3; 2; 0; 4; 1; 3] |};
   {| speed := Js.Fin (5 / 2); spawnInterval := 900; duration := 20000;
      pattern := [1; 3; 0; 4; 2; 1; 3; 0; 2; 4; 1; 0; 3; 2; 4; 1; 3] |};
   {| speed := Js.Fin (7 / 2); spawnInterval := 700; duration := 20000;
      pattern := [2; 0; 4; 1; 3; 2; 4; 0; 3; 1; 4; 2; 0; 3; 1; 4; 2; 0; 1;
                  3] |}].

Definition STAGE_WIDTH : Z := 800.
Definition STAGE_HEIGHT : Z := 600.
Definition COLUMN_WIDTH : Z := STAGE_WIDTH / 5.

(** The component's refs and the state its callbacks close over.
    [currentRound] is React state: it does not change while a round is
    played. *)
Record Game : Type := {
  refs : Refs;
  patternIndexRef : nat;
  currentRound : Z;
  host : Host;
  perfMetrics : Perf;
}.

(** [array[index]] for a number [index]: [undefined] outside the
    array. *)
Definition at_index {A : Type} (l : list A) (index : Z) : option A :=
  if bool_decide (0 ≤ index) then l !! Z.to_nat index else None.

(** A call on the tracker, when there is one. *)
Definition withTracker (f : Tracker → Host → Tracker * Host)
    (tracker : option Tracker) (h : Host) : option Tracker * Host :=
  match tracker with
  | Some t => let '(t1, h1) := f t h in (Some t1, h1)
  | None => (None, h)
  end.

(** [startRound], up to the timers it sets. *)
Definition startRound (perfNow : R) (g : Game) : Game :=
  {| refs :=
       {| isPlayingRef := true;
          motorTrackerRef :=
            set_round (currentRound g) <$> motorTrackerRef (refs g);
          bubblesRef := [];
          distanceHistoryRef := distanceHistoryRef (refs g) |};
     patternIndexRef := 0;
     currentRound := currentRound g;
     host := host g;
     perfMetrics :=
       if bool_decide (currentRound g = 1)
       then startTracking perfNow (perfMetrics g)
       else perfMetrics g |}.

(** [spawnBubble].  [None] is the [TypeError] of reading [pattern] from
    [undefined], when [currentRound] is not the number of a pattern.  The
    three patterns are not empty, so the column is always found. *)
Definition spawnBubble (id : string) (spawnTime now : Z) (g : Game)
    : option Game :=
  if negb (isPlayingRef (refs g)) then Some g
  else
    roundPattern ← at_index BUBBLE_PATTERNS (currentRound g - 1);
    columnIndex ←
      pattern roundPattern
        !! (patternIndexRef g `mod` length (pattern roundPattern))%nat;
    let newBubble :=
      {| b_id := id;
         b_x := Js.ofZ (columnIndex * COLUMN_WIDTH + COLUMN_WIDTH / 2);
         b_y := Js.ofZ STAGE_HEIGHT;
         b_column := columnIndex;
         b_speed := speed roundPattern;
         b_radius := Js.ofZ BUBBLE_RADIUS;
         b_spawnTime := spawnTime |} in
    let '(tracker, h) :=
      withTracker (trackBubbleSpawn newBubble now)
        (motorTrackerRef (refs g)) (host g) in
    Some {| refs :=
              {| isPlayingRef := isPlayingRef (refs g);
                 motorTrackerRef := tracker;
                 bubblesRef := bubblesRef (refs g) ++ [newBubble];
                 distanceHistoryRef := distanceHistoryRef (refs g) |};
            patternIndexRef := S (patternIndexRef g);
            currentRound := currentRound g;
            host := h;
            perfMetrics := perfMetrics g |}.

(** [bubble.y -= bubble.speed]. *)
Definition rise (bubble : Bubble) : Bubble :=
  {| b_id := b_id bubble; b_x := b_x bubble;
     b_y := Js.sub (b_y bubble) (b_speed bubble);
     b_column := b_column bubble; b_speed := b_speed bubble;
     b_radius := b_radius bubble; b_spawnTime := b_spawnTime bubble |}.

(** The [filter] of [animate]: every bubble rises, and one that has left
    through the top is reported to the tracker and dropped. *)
Fixpoint animateBubbles (now : Z) (bubbles : list Bubble)
    (tracker : option Tracker) (h : Host)
    : list Bubble * (option Tracker * Host) :=
  match bubbles with
  | [] => ([], (tracker, h))
  | bubble :: rest =>
      let risen := rise bubble in
      if Js.lt (b_y risen) (Js.ofZ (- BUBBLE_RADIUS))
      then
        let '(tracker1, h1) :=
          withTracker (trackBubbleMiss risen now) tracker h in
        animateBubbles now rest tracker1 h1
      else
        let '(kept, state) := animateBubbles now rest tracker h in
        (risen :: kept, state)
  end.

(** [animate], up to the request for the next frame. *)
Definition animate (now : Z) (perfNow : R) (g : Game) : Game :=
  let '(updatedBubbles, (tracker, h)) :=
    animateBubbles now (bubblesRef (refs g)) (motorTrackerRef (refs g))
      (host g) in
  {| refs :=
       {| isPlayingRef := isPlayingRef (refs g);
          motorTrackerRef := tracker;
          bubblesRef := updatedBubbles;
          distanceHistoryRef := distanceHistoryRef (refs g) |};
     patternIndexRef := patternIndexRef g;
     currentRound := currentRound g;
     host := h;
     perfMetrics := recordFrame perfNow (perfMetrics g) |}.

(** [handleBubbleClick]; [timeStamp] is [event.evt?.timeStamp]. *)
Definition handleBubbleClick (bubble : Bubble) (event : PointerEvent)
    (timeStamp : option R) (now : Z) (perfNow : R) (g : Game) : Game :=
  let '(tracker, h) :=
    withTracker (trackBubbleHit bubble event now)
      (motorTrackerRef (refs g)) (host g) in
  {| refs :=
       {| isPlayingRef := isPlayingRef (refs g);
          motorTrackerRef := tracker;
          bubblesRef :=
            filter (λ b, b_id b ≠ b_id bubble) (bubblesRef (refs g));
          distanceHistoryRef := distanceHistoryRef (refs g) |};
     patternIndexRef := patternIndexRef g;
     currentRound := currentRound g;
     host := h;
     perfMetrics := recordInputEvent timeStamp perfNow (perfMetrics g) |}.

(** [handleStageClick]. *)
Definition handleStageClick (event : PointerEvent) (timeStamp : option R)
    (now : Z) (perfNow : R) (g : Game) : Game :=
  let '(tracker, h) :=
    withTracker (trackPointerUp event None false now)
      (motorTrackerRef (refs g)) (host g) in
  {| refs :=
       {| isPlayingRef := isPlayingRef (refs g);
          motorTrackerRef := tracker;
          bubblesRef := bubblesRef (refs g);
          distanceHistoryRef := distanceHistoryRef (refs g) |};
     patternIndexRef := patternIndexRef g;
     currentRound := currentRound g;
     host := h;
     perfMetrics := recordInputEvent timeStamp perfNow (perfMetrics g) |}.

(** The tally of [endRound]: the interactions of the round that are
    hits, and those that are misses. *)
Definition roundTally (round : Z) (allInteractions : list Interaction)
    : nat * nat :=
  let roundInteractions :=
    filter (λ i, i_round i = round) allInteractions in
  (length (filter (λ i, i_eventType i = "bubble_hit") roundInteractions),
   length (filter (λ i, i_eventType i = "bubble_miss") roundInteractions)).

(** What happens while a round is played. *)
Inductive Event : Type :=
| Spawn (id : string) (spawnTime now : Z)
| AnimationFrame (now : Z) (perfNow : R)
| BubbleClick (bubble : Bubble) (event : PointerEvent)
    (timeStamp : option R) (now : Z) (perfNow : R)
| StageClick (event : PointerEvent) (timeStamp : option R) (now : Z)
    (perfNow : R)
| CursorSample (pointerPos : option Coords) (now : Z) (window : Viewport).

Definition step (e : Event) (g : Game) : option Game :=
  match e with
  | Spawn id spawnTime now => spawnBubble id spawnTime now g
  | AnimationFrame now perfNow => Some (animate now perfNow g)
  | BubbleClick bubble event timeStamp now perfNow =>
      Some (handleBubbleClick bubble event timeStamp now perfNow g)
  | StageClick event timeStamp now perfNow =>
      Some (handleStageClick event timeStamp now perfNow g)
  | CursorSample pointerPos now window =>
      Some {| refs := sampleCursorPosition pointerPos now window (refs g);
              patternIndexRef := patternIndexRef g;
              currentRound := currentRound g;
              host := host g;
              perfMetrics := perfMetrics g |}
  end.

(** A run of events, first event first; it stops at a [TypeError]. *)
Fixpoint play (events : list Event) (g : Game) : option Game :=
  match events with
  | [] => Some g
  | e :: rest => g1 ← step e g; play rest g1
  end.

Definition isSpawn (e : Event) : bool :=
  match e with Spawn _ _ _ => true | _ => false end.

Definition isFrame (e : Event) : bool :=
  match e with AnimationFrame _ _ => true | _ => false end.

Definition spawns (events : list Event) : nat :=
  length (filter (λ e, isSpawn e = true) events).

Definition frames (events : list Event) : nat :=
  length (filter (λ e, isFrame e = true) events).

(** The calls on the performance hook that the events make. *)
Definition perfCalls (events : list Event) : list PerfCall :=
  omap (λ e, match e with
             | AnimationFrame _ perfNow => Some (Frame perfNow)
             | BubbleClick _ _ timeStamp _ perfNow
             | StageClick _ timeStamp _ perfNow =>
                 Some (InputAt timeStamp perfNow)
             | _ => None
             end) events.

(** What the host is trusted with: a new bubble gets an id that no
    bubble on stage has, and a click on a bubble is a click on a bubble
    that is on stage. *)
Definition allowed (e : Event) (g : Game) : Prop :=
  match e with
  | Spawn id _ _ => id ∉ (b_id <$> bubblesRef (refs g))
  | BubbleClick bubble _ _ _ _ => bubble ∈ bubblesRef (refs g)
  | _ => True
  end.

Fixpoint wellPlayed (events : list Event) (g : Game) : Prop :=
  match events with
  | [] => True
  | e :: rest =>
      allowed e g
      ∧ from_option (wellPlayed rest) True (step e g)
  end.

(** A bubble in one of the five columns, between the bottom of the stage
    and the line where it is taken off, rising at a finite speed. *)
Definition onStage (bubble : Bubble) : Prop :=
  ∃ (column : Z) (y s : R),
    b_column bubble = column ∧ 0 ≤ column ≤ 4
    ∧ b_x bubble = Js.ofZ (160 * column + 80)
    ∧ b_y bubble = Js.Fin y
    ∧ (IZR (- BUBBLE_RADIUS) <= y <= IZR STAGE_HEIGHT)%R
    ∧ b_speed bubble = Js.Fin s ∧ (0 < s)%R.

(** What holds while round [round] is played, after [spawned] bubbles
    were spawned: every one of them is on stage, or was hit, or was
    missed; the bubbles on stage have different ids and are on stage. *)
Definition roundInvariant (round : Z) (spawned : nat) (g : Game) : Prop :=
  isPlayingRef (refs g) = true ∧ currentRound g = round
  ∧ ∃ t, motorTrackerRef (refs g) = Some t ∧ Tracker.round t = round
      ∧ (spawned
         = length (bubblesRef (refs g))
           + (roundTally round (interactions t)).1
           + (roundTally round (interactions t)).2)%nat
      ∧ NoDup (b_id <$> bubblesRef (refs g))
      ∧ Forall onStage (bubblesRef (refs g)).

(** A game that has not been played yet, in round [round]. *)
Definition freshGame (round : Z) : Game :=
  {| refs :=
       {| isPlayingRef := false;
          motorTrackerRef := Some Scenario.session1;
          bubblesRef := []; distanceHistoryRef := [] |};
     patternIndexRef := 0;
     currentRound := round;
     host := fresh_host;
     perfMetrics := PerformanceMetrics.initial |}.

(** The stage is clicked once, then a bubble is spawned. *)
Definition clickThenSpawn : list Event :=
  [StageClick (Scenario.cursorEvent (Js.ofZ 300) (Js.ofZ 200)) None 1100
     100;
   Spawn "bubble_a" 1200 1200].

End BubbleField.

(* ================================================================== *)
(** * The round report ([sendRoundDataToML]) *)
(* ================================================================== *)

(** What the tracker sends at the end of a round: the pointer samples of
    the round, and one attempt per bubble that was hit or missed in it.
    A logged interaction is the object
    [{sessionId, module, round, eventType, timestamp, ...data}], so a
    property that [data] does not have reads as [undefined]; the
    accessors below return [None] for [undefined] and for [null]. *)
Module RoundReport.
Import Tracker.

(** [Math.min(a, b)]. *)
Definition jsMin (a b : JsNum) : JsNum :=
  match a, b with
  | Js.NaN, _ | _, Js.NaN => Js.NaN
  | _, _ => if Js.lt b a then b else a
  end.

Definition event_bubbleId (i : Interaction) : option string :=
  match i_data i with
  | BubbleSpawnData bubble | BubbleHitData bubble _ _ _
  | BubbleMissData bubble _ => Some (b_id bubble)
  | PointerDownData _ bubbleId _ _ _ | PointerUpData _ bubbleId _ _ _ _ =>
      bubbleId
  end.

Definition event_spawnTime (i : Interaction) : option Z :=
  match i_data i with
  | BubbleSpawnData bubble | BubbleHitData bubble _ _ _
  | BubbleMissData bubble _ => Some (b_spawnTime bubble)
  | _ => None
  end.

Definition event_column (i : Interaction) : option Z :=
  match i_data i with
  | BubbleSpawnData bubble | BubbleHitData bubble _ _ _
  | BubbleMissData bubble _ => Some (b_column bubble)
  | _ => None
  end.

(** [bubble_spawn] stores the speed as [speed], not as [bubbleSpeed], and
    the position as [initialPosition], not as [bubblePosition]. *)
Definition event_bubbleSpeed (i : Interaction) : option JsNum :=
  match i_data i with
  | BubbleHitData bubble _ _ _ | BubbleMissData bubble _ =>
      Some (b_speed bubble)
  | _ => None
  end.

Definition event_bubblePosition (i : Interaction) : option (JsNum * JsNum) :=
  match i_data i with
  | BubbleHitData bubble _ _ _ | BubbleMissData bubble _ =>
      Some (b_x bubble, b_y bubble)
  | _ => None
  end.

Definition event_coordinates (i : Interaction) : option Coords :=
  match i_data i with
  | PointerDownData coordinates _ _ _ _
  | PointerUpData coordinates _ _ _ _ _
  | BubbleHitData _ coordinates _ _ => Some coordinates
  | _ => None
  end.

Definition event_reactionTime (i : Interaction) : option Z :=
  match i_data i with
  | BubbleHitData _ _ _ reactionTime => Some reactionTime
  | _ => None
  end.

Definition event_clickAccuracy (i : Interaction) : option JsNum :=
  match i_data i with
  | BubbleHitData _ _ clickAccuracy _ => Some clickAccuracy
  | _ => None
  end.

(** One entry of the [attempts] array. *)
Record Attempt : Type := {
  a_round : Z;
  a_attemptId : string;
  a_bubbleId : string;
  a_spawnTms : Z;
  a_column : option Z;
  a_speedNorm : JsNum;
  a_targetX : JsNum;
  a_targetY : JsNum;
  a_targetRadius : JsNum;
  a_clicked : bool;
  a_hit : bool;
  a_missType : string;
  a_tms : Z;
  a_clickX : option JsNum;
  a_clickY : option JsNum;
  a_reactionTimeMs : option Z;
  a_errorDistNorm : option JsNum;
}.

(** [s || 'unknown'] on a string that may be missing. *)
Definition or_unknown (s : option string) : string :=
  match s with
  | Some id => if bool_decide (id = "") then "unknown" else id
  | None => "unknown"
  end.

(** The function mapped over [roundAttempts].  [event.timestamp] is a
    [Date], which is truthy, so [tms] is its time. *)
Definition toAttempt (window : Viewport) (event : Interaction) : Attempt :=
  let screenWidth := innerWidth window in
  let screenHeight := innerHeight window in
  let minDim := jsMin screenWidth screenHeight in
  let isHit := bool_decide (i_eventType event = "bubble_hit") in
  {| a_round := i_round event;
     a_attemptId :=
       "r" +:+ pretty (i_round event) +:+ "_"
       +:+ or_unknown (event_bubbleId event);
     a_bubbleId := or_unknown (event_bubbleId event);
     a_spawnTms := default 0 (event_spawnTime event);
     a_column := event_column event;
     a_speedNorm :=
       match event_bubbleSpeed event with
       | Some bubbleSpeed =>
           if Js.truthy bubbleSpeed then Js.div bubbleSpeed minDim
           else Js.zero
       | None => Js.zero
       end;
     a_targetX :=
       match event_bubblePosition event with
       | Some (x, _) => Js.div x screenWidth
       | None => Js.zero
       end;
     a_targetY :=
       match event_bubblePosition event with
       | Some (_, y) => Js.div y screenHeight
       | None => Js.zero
       end;
     a_targetRadius := Js.div (Js.ofZ 40) minDim;
     a_clicked := isHit;
     a_hit := isHit;
     a_missType :=
       if isHit then "hit"
       else if bool_decide (i_eventType event = "bubble_miss")
            then "timeout" else "unknown";
     a_tms := i_timestamp event;
     a_clickX :=
       (λ coordinates, Js.div (c_x coordinates) screenWidth)
         <$> event_coordinates event;
     a_clickY :=
       (λ coordinates, Js.div (c_y coordinates) screenHeight)
         <$> event_coordinates event;
     a_reactionTimeMs := event_reactionTime event;
     a_errorDistNorm :=
       (λ clickAccuracy, Js.div clickAccuracy minDim)
         <$> event_clickAccuracy event |}.

(** The interactions that [sendRoundDataToML] turns into attempts. *)
Definition isAttempt (round : Z) (i : Interaction) : Prop :=
  (i_eventType i = "bubble_hit" ∨ i_eventType i = "bubble_miss")
  ∧ i_round i = round.

#[global] Instance isAttempt_dec round i : Decision (isAttempt round i).
Proof. unfold isAttempt. apply _. Defined.

(** [logMotorAttempts] of utils/api.js, as [logPointerSamples]: the
    request is issued, and a failure is written to the console and
    thrown again.  The requests for attempts are kept in a list of their
    own, oldest first. *)
Record AttemptsRequest : Type := {
  r_sessionId : string;
  r_userId : option string;
  r_attempts : list Attempt;
}.

Definition logMotorAttempts (net : AttemptsRequest → bool)
    (sessionId : string) (userId : option string)
    (attempts : list Attempt) (sent : list AttemptsRequest) (h : Host)
    : bool * (list AttemptsRequest * Host) :=
  let request :=
    {| r_sessionId := sessionId; r_userId := userId;
       r_attempts := attempts |} in
  if net request then (true, (sent ++ [request], h))
  else (false,
        (sent ++ [request],
         console_error "Error logging motor attempts:" h)).

(** [sendRoundDataToML]; both [catch] blocks are empty, so the function
    always returns. *)
Definition sendRoundDataToML (netTrace : ApiCall → bool)
    (netAttempts : AttemptsRequest → bool) (window : Viewport)
    (round : Z) (t : Tracker) (sent : list AttemptsRequest) (h : Host)
    : list AttemptsRequest * Host :=
  let roundSamples := filter (λ s, s_round s = round) (pointerSamples t) in
  let h1 :=
    match roundSamples with
    | [] => h
    | _ :: _ =>
        (logPointerSamples netTrace (sessionId t) (userId t) roundSamples
           h).2
    end in
  let roundAttempts := filter (isAttempt round) (interactions t) in
  match roundAttempts with
  | [] => (sent, h1)
  | _ :: _ =>
      let attempts := toAttempt window <$> roundAttempts in
      (logMotorAttempts netAttempts (sessionId t) (userId t) attempts
         sent h1).2
  end.

End RoundReport.
(* ================================================================== *)
(** * Facts about JavaScript numbers *)
(* ================================================================== *)

Section JsFacts.

Lemma div_fin (x y : R) : y ≠ 0%R → Js.div (Js.Fin x) (Js.Fin y) = Js.Fin (x / y).
Proof. intros Hy. unfold Js.div. by rewrite bool_decide_eq_false_2. Qed.

Lemma div_zero_zero (x y : R) :
  x = 0%R → y = 0%R → Js.div (Js.Fin x) (Js.Fin y) = Js.NaN.
Proof. intros -> ->. unfold Js.div. by rewrite !bool_decide_eq_true_2. Qed.

Lemma div_pos_zero (x y : R) :
  (0 < x)%R → y = 0%R → Js.div (Js.Fin x) (Js.Fin y) = Js.PInf.
Proof.
  intros Hx ->. unfold Js.div, Js.inf_of_sign.
  rewrite bool_decide_eq_true_2 by done.
  rewrite bool_decide_eq_false_2 by lra.
  by rewrite bool_decide_eq_true_2.
Qed.

Lemma sqrt_fin (x : R) : (0 <= x)%R → Js.sqrt (Js.Fin x) = Js.Fin (R_sqrt.sqrt x).
Proof. intros Hx. unfold Js.sqrt. rewrite bool_decide_eq_false_2; [done | lra]. Qed.


Lemma truthy_fin (x : R) : Js.truthy (Js.Fin x) = true ↔ x ≠ 0%R.
Proof.
  unfold Js.truthy. rewrite negb_true_iff. apply bool_decide_eq_false.
Qed.

(** The Euclidean norm that the tracker and the game write as
    [Math.sqrt(dx * dx + dy * dy)], on finite components. *)
Lemma hypot_fin (dx dy : R) :
  Js.sqrt (Js.add (Js.mul (Js.Fin dx) (Js.Fin dx))
                  (Js.mul (Js.Fin dy) (Js.Fin dy)))
  = Js.Fin (R_sqrt.sqrt (dx * dx + dy * dy)).
Proof. cbn [Js.mul Js.add]. apply sqrt_fin. nra. Qed.

End JsFacts.

(* ================================================================== *)
(** * Properties of the challenge state machine *)
(* ================================================================== *)

Section StateMachine.
Import GameContext GameScenario.

(** The reducer run on a sequence that ends with an action: the last
    action is reduced last. *)
Lemma dispatchAll_snoc actions now action state :
  dispatchAll (actions ++ [(now, action)]) state
  = gameReducer now (dispatchAll actions state) action.
Proof. unfold dispatchAll. by rewrite foldl_app. Qed.

(** What the two halves of [completeChallenge] do to
    [completedChallenges]. *)
Lemma completedChallenges_begin challengeId results now state :
  completedChallenges
    (dispatchAll ((λ a, (now, a)) <$> completeChallengeBegin challengeId results)
       state)
  = completedChallenges state ++ [challengeId].
Proof.
  unfold completeChallengeBegin.
  destruct (PROFILE_TRAITS challengeId); destruct state; reflexivity.
Qed.

Lemma completedChallenges_end challengeId later state :
  completedChallenges
    (dispatchAll ((λ a, (later, a)) <$> completeChallengeEnd challengeId) state)
  = completedChallenges state.
Proof.
  unfold completeChallengeEnd.
  case_bool_decide; [destruct (CHALLENGE_ORDER !! _) |]; destruct state; reflexivity.
Qed.

(** C2, counterexample: completing the colour stage twice from the initial
    state leaves two entries for it in [completedChallenges]. *)
Lemma completeChallenge_twice_duplicates :
  let once := completeChallenge "color-blindness" JNull 1000 [] 3000
                (initialState "session_1") in
  let twice := completeChallenge "color-blindness" JNull 4000 [] 6000 once in
  completedChallenges twice = ["color-blindness"; "color-blindness"]
  ∧ ¬ NoDup (completedChallenges twice).
Proof.
  split; [reflexivity |].
  intros Hnodup. apply NoDup_cons in Hnodup as [Hnotin _].
  apply Hnotin. set_solver.
Qed.

(** C2, amended: every completion appends the stage identifier to
    [completedChallenges], whether or not it is already there; after two
    completions of [s] the list has grown by two entries for [s]. *)
Theorem completeChallenge_appends s r1 r2 now1 later1 now2 later2 state :
  let once := completeChallenge s r1 now1 [] later1 state in
  let twice := completeChallenge s r2 now2 [] later2 once in
  completedChallenges once = completedChallenges state ++ [s]
  ∧ completedChallenges twice = completedChallenges state ++ [s; s]
  ∧ (NoDup (completedChallenges once)
     ↔ NoDup (completedChallenges state) ∧ s ∉ completedChallenges state)
  ∧ ¬ NoDup (completedChallenges twice).
Proof.
  intros once twice.
  assert (Honce : completedChallenges once = completedChallenges state ++ [s]).
  { unfold once, completeChallenge. cbn [dispatchAll foldl].
    fold (dispatchAll []).
    by rewrite completedChallenges_end, completedChallenges_begin. }
  assert (Htwice : completedChallenges twice
                   = completedChallenges state ++ [s; s]).
  { unfold twice, completeChallenge.
    rewrite completedChallenges_end. cbn [dispatchAll foldl].
    rewrite completedChallenges_begin, Honce. by rewrite <- app_assoc. }
  split; [done |]. split; [done |]. split.
  - rewrite Honce, NoDup_app. split.
    + intros (Hl & Hdis & _). split; [done |]. intros Hin.
      apply (Hdis s Hin). set_solver.
    + intros [Hl Hnotin]. split; [done |]. split.
      * intros x Hx Hx'. apply list_elem_of_singleton in Hx'. by subst.
      * apply NoDup_singleton.
  - rewrite Htwice, NoDup_app. intros (_ & _ & Hss).
    apply NoDup_cons in Hss as [Hnotin _]. apply Hnotin. set_solver.
Qed.

Lemma currentPhase_set_phase now phase state :
  currentPhase (gameReducer now state (SET_PHASE phase)) = phase.
Proof. by destruct state. Qed.

(** C3, counterexample: in the quiz stage, a completion call for the
    colour stage moves [currentPhase] back to the acuity stage. *)
Lemma completeChallenge_regresses :
  let after := completeChallenge "color-blindness" JNull 10000 [] 12000
                 inQuiz in
  currentPhase inQuiz = "knowledge-quiz"
  ∧ currentPhase after = "visual-acuity"
  ∧ phaseIndex (currentPhase after) < phaseIndex (currentPhase inQuiz).
Proof. repeat split. Qed.

(** The slip next to it: an identifier that is not in [CHALLENGE_ORDER]
    has index [-1], which passes the guard and selects entry 0. *)
Example completeChallenge_unknown_id :
  currentPhase (completeChallenge "colorBlindness" JNull 10000 [] 12000 inQuiz)
  = "intro".
Proof. reflexivity. Qed.

(** C3, amended: a completion call for a stage of the order other than
    the last sets [currentPhase] to the successor of that stage,
    whatever the phase was and whatever is dispatched meanwhile; the new
    phase is never ["intro"], and it is one step past the old phase when
    the completed stage is the current one. *)
Theorem completeChallenge_successor id results now during later state :
  id ∈ CHALLENGE_ORDER → id ≠ "profile-complete" →
  let after := completeChallenge id results now during later state in
  CHALLENGE_ORDER !! Z.to_nat (phaseIndex id + 1) = Some (currentPhase after)
  ∧ phaseIndex (currentPhase after) = phaseIndex id + 1
  ∧ currentPhase after ≠ "intro"
  ∧ (currentPhase state = id →
     phaseIndex (currentPhase after) = phaseIndex (currentPhase state) + 1).
Proof.
  intros Hin Hlast after.
  assert (Hend : ∃ next,
             completeChallengeEnd id = [HIDE_TRANSITION; SET_PHASE next]
             ∧ CHALLENGE_ORDER !! Z.to_nat (phaseIndex id + 1) = Some next
             ∧ phaseIndex next = phaseIndex id + 1
             ∧ next ≠ "intro").
  { unfold CHALLENGE_ORDER in Hin.
    repeat (apply elem_of_cons in Hin as [-> | Hin]);
      try (by apply elem_of_nil in Hin); try done;
      eexists; (split; [reflexivity |]); done. }
  destruct Hend as (next & Hend & Hnext & Hidx & Hne).
  assert (Hafter : currentPhase after = next).
  { unfold after, completeChallenge. rewrite Hend. cbn [fmap list_fmap].
    change [(later, HIDE_TRANSITION); (later, SET_PHASE next)]
      with ([(later, HIDE_TRANSITION)] ++ [(later, SET_PHASE next)]).
    rewrite dispatchAll_snoc. apply currentPhase_set_phase. }
  rewrite Hafter. repeat split; try done. by intros ->.
Qed.

(** C3, witness: completing the motor stage, with a pause dispatched
    during the transition. *)
Lemma completeChallenge_successor_witness :
  "motor-skills" ∈ CHALLENGE_ORDER ∧ "motor-skills" ≠ "profile-complete"
  ∧ currentPhase
      (completeChallenge "motor-skills" JNull 10000 [(11000, PAUSE_GAME)]
         12000 inQuiz)
    ≠ "intro".
Proof.
  assert (Hin : "motor-skills" ∈ CHALLENGE_ORDER).
  { unfold CHALLENGE_ORDER. set_solver. }
  assert (Hne : "motor-skills" ≠ "profile-complete") by done.
  split; [exact Hin |]. split; [exact Hne |].
  exact (proj1 (proj2 (proj2
    (completeChallenge_successor "motor-skills" JNull 10000
       [(11000, PAUSE_GAME)] 12000 inQuiz Hin Hne)))).
Defined.

(** ** Resuming from the persisted state *)

(** C9: when the persisted state has a start time and a phase other than
    ["intro"], mounting the provider restores it: the phase, the progress
    of every stage and every other persisted field are the persisted
    ones, so that saving the restored state writes the same item again. *)
Theorem mount_restores_saved now freshSessionId saved time :
  saved_startTime saved = Some time → time ≠ 0 →
  saved_currentPhase saved ≠ "intro" →
  let state := mount now freshSessionId (Some saved) in
  currentPhase state = saved_currentPhase saved
  ∧ challengeProgress state = saved_challengeProgress saved
  ∧ completedChallenges state = saved_completedChallenges saved
  ∧ challengeResults state = saved_challengeResults saved
  ∧ startTime state = saved_startTime saved
  ∧ saveEffect state None = Some saved.
Proof.
  intros Hstart Htime Hphase state.
  assert (Hload : state
    = gameReducer now (initialState freshSessionId) (LOAD_SAVED_STATE saved)).
  { unfold state, mount, loadEffect, started. rewrite Hstart.
    by rewrite !bool_decide_eq_false_2. }
  rewrite Hload. cbn. repeat split.
  unfold saveEffect, started. cbn. rewrite Hstart.
  rewrite bool_decide_eq_false_2 by done. cbn.
  rewrite <- Hstart. by destruct saved.
Qed.

(** C9, witness (Scenario D): the item saved in the middle of the acuity
    stage, with level 3 as its cursor, is restored by the next mount. *)
Lemma mount_restores_saved_witness :
  ∃ saved,
    saveEffect midAcuity None = Some saved
    ∧ saved_startTime saved = Some 1000 ∧ 1000 ≠ 0
    ∧ saved_currentPhase saved = "visual-acuity"
    ∧ let state := mount 30000 "session_2" (Some saved) in
      currentPhase state = "visual-acuity"
      ∧ challengeProgress state !! "visualAcuity" ≫= (.!! "currentLevel")
        = Some (JNum 3).
Proof.
  eexists. split; [reflexivity |].
  assert (Hstart : 1000 ≠ 0) by lia.
  split; [reflexivity |]. split; [exact Hstart |]. split; [reflexivity |].
  match goal with
  | |- let state := mount _ _ (Some ?saved) in _ =>
      pose proof (mount_restores_saved 30000 "session_2" saved 1000
                    eq_refl Hstart ltac:(done)) as (Hphase & Hprogress & _)
  end.
  cbn zeta. rewrite Hphase, Hprogress. split; reflexivity.
Defined.

End StateMachine.

(* ================================================================== *)
(** * Properties of the batching delivery buffer *)
(* ================================================================== *)

Section Batching.
Import Tracker TrackerSpec Scenario.

(** [flushBatch] on a buffer that holds something: the buffer is swapped
    for an empty one, the timer is cleared and forgotten, and the host
    sees no request and no console line. *)
Lemma flushBatch_nonempty t h :
  interactionBuffer t ≠ [] →
  let t' := (flushBatch t h).1 in
  let h' := (flushBatch t h).2 in
  interactionBuffer t' = []
  ∧ batchTimer t' = None
  ∧ (∀ id, batchTimer t = Some id → id ∉ timers h')
  ∧ batches h' = batches h ++ [interactionBuffer t]
  ∧ posted h' = posted h
  ∧ consoleErrors h' = consoleErrors h.
Proof.
  intros Hne. unfold flushBatch.
  destruct t as [? ? ? ? ? ? ? ? ? ? ? ? ? buffer timer ?]; cbn in *.
  destruct buffer as [| i buffer]; [done |].
  destruct timer as [id |]; cbn; repeat split; try done.
  intros id' Hid. injection Hid as <-.
  rewrite elem_of_difference, elem_of_singleton. by intros [_ Hne'].
Qed.

(** [flushBatch] on an empty buffer does nothing. *)
Lemma flushBatch_empty t h :
  interactionBuffer t = [] → flushBatch t h = (t, h).
Proof. intros Hnil. unfold flushBatch. by rewrite Hnil. Qed.

(** The sibling path: [logPointerSamples] does issue a request, and a
    failed one is written to the console and reported to the caller. *)
Lemma logPointerSamples_posts net sessionId userId samples h :
  let result := logPointerSamples net sessionId userId samples h in
  let request := PostMotorTrace sessionId userId samples in
  posted result.2 = posted h ++ [request]
  ∧ result.1 = net request
  ∧ (net request = false →
     consoleErrors result.2
     = consoleErrors h ++ ["Error logging pointer samples:"]).
Proof.
  unfold logPointerSamples.
  destruct (net _) eqn:Hnet; cbn; repeat split; try done.
Qed.

(** C1: with one interaction buffered and its timer armed, [flushBatch]
    empties the buffer and cancels the timer, and issues no request: the
    swapped-out batch is dropped, not delivered. *)
Theorem flushBatch_drops_batch :
  let before := run [BubbleSpawn bubbleA 1000] session1 fresh_host in
  let after := flushBatch before.1 before.2 in
  length (interactionBuffer before.1) = 1%nat
  ∧ batchTimer before.1 = Some 1%positive
  ∧ timers before.2 = {[ 1%positive ]}
  ∧ interactionBuffer after.1 = []
  ∧ batchTimer after.1 = None
  ∧ timers after.2 = ∅
  ∧ batches after.2 = [interactionBuffer before.1]
  ∧ posted after.2 = []
  ∧ consoleErrors after.2 = [].
Proof. cbn. repeat split; done. Qed.

(** ** The batch invariant *)

Lemma addToBuffer_length data t h :
  (length (interactionBuffer t) < BATCH_SIZE)%nat →
  (length (interactionBuffer (addToBuffer data t h).1) < BATCH_SIZE)%nat.
Proof.
  intros Hlen. unfold addToBuffer.
  destruct t as [? ? ? ? ? ? ? ? ? ? ? ? ? buffer timer ?]; cbn in *.
  case_bool_decide as Hfull.
  - unfold flushBatch; cbn. destruct (buffer ++ [data]) eqn:Heq.
    + destruct buffer; discriminate.
    + destruct timer; cbn; unfold BATCH_SIZE; lia.
  - destruct timer; cbn; rewrite length_app in *; cbn in *; lia.
Qed.

Lemma flushBatch_length t h :
  (length (interactionBuffer t) < BATCH_SIZE)%nat →
  (length (interactionBuffer (flushBatch t h).1) < BATCH_SIZE)%nat.
Proof.
  intros Hlen. unfold flushBatch.
  destruct t as [? ? ? ? ? ? ? ? ? ? ? ? ? buffer timer ?]; cbn in *.
  destruct buffer; [done |]. destruct timer; cbn; unfold BATCH_SIZE; lia.
Qed.

Lemma logInteraction_length eventType data now t h :
  (length (interactionBuffer t) < BATCH_SIZE)%nat →
  (length (interactionBuffer (logInteraction eventType data now t h).1)
   < BATCH_SIZE)%nat.
Proof.
  intros Hlen. unfold logInteraction. apply addToBuffer_length.
  by destruct t.
Qed.

Lemma trackPointerMove_buffer event now window t :
  interactionBuffer (trackPointerMove event now window t)
  = interactionBuffer t.
Proof.
  unfold trackPointerMove, storePointerSample, trackKinematics.
  destruct t; cbn. repeat (case_bool_decide || case_match); reflexivity.
Qed.

Lemma call_length c t h :
  (length (interactionBuffer t) < BATCH_SIZE)%nat →
  (length (interactionBuffer (call c t h).1) < BATCH_SIZE)%nat.
Proof.
  intros Hlen. destruct c; cbn [call fst].
  - by rewrite trackPointerMove_buffer.
  - apply logInteraction_length. by destruct t.
  - apply logInteraction_length. by destruct t.
  - by destruct t.
  - by destruct t.
  - by apply logInteraction_length.
  - by apply logInteraction_length.
  - by apply logInteraction_length.
  - by apply flushBatch_length.
  - unfold fireTimer. case_bool_decide; [by apply flushBatch_length | done].
  - by destruct t.
Qed.

Lemma run_snoc calls c t h :
  run (calls ++ [c]) t h = call c (run calls t h).1 (run calls t h).2.
Proof.
  unfold run. rewrite foldl_app. cbn. by destruct (foldl _ _ _).
Qed.

Lemma run_length calls t h :
  (length (interactionBuffer t) < BATCH_SIZE)%nat →
  (length (interactionBuffer (run calls t h).1) < BATCH_SIZE)%nat.
Proof.
  intros Hlen. induction calls as [| c calls IH] using rev_ind; [done |].
  rewrite run_snoc. by apply call_length.
Qed.

(** C4: in every state the tracker reaches, an append leaves at most
    [BATCH_SIZE] interactions in the buffer.  The append that finds
    [BATCH_SIZE - 1] of them swaps out exactly one batch, the full buffer,
    and leaves the buffer empty; any other append swaps out nothing. *)
Theorem addToBuffer_batch_invariant sessionId userId participantId calls
    data :
  let reached := run calls (new sessionId userId participantId) fresh_host in
  let t := reached.1 in
  let h := reached.2 in
  let t' := (addToBuffer data t h).1 in
  let h' := (addToBuffer data t h).2 in
  (length (interactionBuffer t') ≤ BATCH_SIZE)%nat
  ∧ if bool_decide (S (length (interactionBuffer t)) = BATCH_SIZE)
    then batches h' = batches h ++ [interactionBuffer t ++ [data]]
         ∧ length (interactionBuffer t ++ [data]) = BATCH_SIZE
         ∧ length (interactionBuffer t') = 0%nat
    else batches h' = batches h
         ∧ interactionBuffer t' = interactionBuffer t ++ [data].
Proof.
  intros reached t h t' h'.
  assert (Hlen : (length (interactionBuffer t) < BATCH_SIZE)%nat).
  { apply run_length. cbn. unfold BATCH_SIZE. lia. }
  split.
  { apply Nat.lt_le_incl. by apply addToBuffer_length. }
  clearbody t h. clear reached. subst t' h'. unfold addToBuffer.
  destruct t as [? ? ? ? ? ? ? ? ? ? ? ? ? buffer timer ?]; cbn in *.
  rewrite length_app; cbn. case_bool_decide as Hfull.
  - rewrite bool_decide_eq_true_2 by lia.
    unfold flushBatch; cbn. destruct (buffer ++ [data]) eqn:Heq.
    + destruct buffer; discriminate.
    + rewrite <- Heq. destruct timer; cbn; repeat split; lia.
  - rewrite bool_decide_eq_false_2 by lia.
    destruct timer; cbn; done.
Qed.

(** Scenario B: after fourteen logged interactions nothing has been
    swapped out; the fifteenth swaps out one batch of fifteen and leaves
    the buffer empty. *)
Example fifteenth_append_flushes :
  let fourteen := run (replicate 14 (BubbleSpawn bubbleA 1000)) session1
                    fresh_host in
  let fifteen := call (BubbleSpawn bubbleA 1000) fourteen.1 fourteen.2 in
  length (interactionBuffer fourteen.1) = 14%nat
  ∧ batches fourteen.2 = []
  ∧ length <$> batches fifteen.2 = [15%nat]
  ∧ interactionBuffer fifteen.1 = [].
Proof. cbn. repeat split; done. Qed.

End Batching.

(* ================================================================== *)
(** * Properties of the sampler *)
(* ================================================================== *)

Section Sampler.
Import Tracker TrackerSpec Scenario.

Lemma spaced_snoc samples s :
  spaced samples →
  (∀ a, last samples = Some a → SAMPLE_INTERVAL ≤ s_tms s - s_tms a) →
  spaced (samples ++ [s]).
Proof.
  intros Hsp Hlast i a b Ha Hb.
  destruct (decide (S i < length samples)%nat) as [Hlt | Hge].
  - rewrite lookup_app_l in Ha by lia. rewrite lookup_app_l in Hb by lia.
    eauto.
  - assert (Hi : S i = length samples).
    { apply lookup_lt_Some in Hb. rewrite length_app in Hb. cbn in Hb. lia. }
    rewrite lookup_app_l in Ha by lia.
    rewrite lookup_app_r in Hb by lia.
    replace (S i - length samples)%nat with 0%nat in Hb by lia.
    injection Hb as <-. apply Hlast.
    rewrite last_lookup. rewrite <- Hi. exact Ha.
Qed.

Lemma spaced_drop n samples : spaced samples → spaced (drop n samples).
Proof.
  intros Hsp i a b Ha Hb. rewrite lookup_drop in Ha, Hb.
  apply (Hsp (n + i)%nat); [done |]. by rewrite <- Nat.add_succ_r.
Qed.

Lemma last_drop_lt {A} n (l : list A) :
  (n < length l)%nat → last (drop n l) = last l.
Proof.
  intros Hn. rewrite !last_lookup, lookup_drop, length_drop.
  f_equal. lia.
Qed.

Lemma storePointerSample_inv event now window coords t :
  spaced (pointerSamples t) → stamped t →
  spaced (pointerSamples (storePointerSample event now window coords t))
  ∧ stamped (storePointerSample event now window coords t).
Proof.
  intros Hsp Hst. unfold storePointerSample.
  case_bool_decide as Hdue; [| done].
  destruct t as [? ? ? ? ? ? ? ? ? ? samples lastTime ? ? ? ?].
  unfold stamped in *. cbn in *.
  set (sample := {| s_round := _ |}).
  assert (Hsp' : spaced (samples ++ [sample])).
  { apply spaced_snoc; [done |]. intros a Ha. rewrite (Hst a Ha). done. }
  case_bool_decide as Hbig; cbn.
  - split.
    + by apply spaced_drop.
    + intros a Ha. unfold slice_last in Ha.
      rewrite last_drop_lt in Ha by (rewrite length_app in *; cbn in *; lia).
      rewrite last_snoc in Ha. by injection Ha as <-.
  - split; [done |]. intros a Ha.
    rewrite last_snoc in Ha. by injection Ha as <-.
Qed.

Lemma trackKinematics_samples now coords t :
  pointerSamples (trackKinematics now coords t) = pointerSamples t
  ∧ lastSampleTime (trackKinematics now coords t) = lastSampleTime t.
Proof.
  unfold trackKinematics. destruct t; cbn.
  repeat (case_bool_decide || case_match); done.
Qed.

Lemma trackPointerMove_inv event now window t :
  spaced (pointerSamples t) → stamped t →
  spaced (pointerSamples (trackPointerMove event now window t))
  ∧ stamped (trackPointerMove event now window t).
Proof.
  intros Hsp Hst. unfold trackPointerMove.
  case_bool_decide as Hthrottle; [done |].
  set (t1 := set_lastMoveTrackTime now t).
  assert (Hsp1 : spaced (pointerSamples t1)) by (by destruct t).
  assert (Hst1 : stamped t1) by (by destruct t).
  destruct (storePointerSample_inv event now window (getCoordinates event)
              t1 Hsp1 Hst1) as [Hsp2 Hst2].
  set (t2 := storePointerSample _ _ _ _ t1) in *.
  destruct (trackKinematics_samples now (getCoordinates event) t2)
    as [Hsamples Htime].
  set (t3 := trackKinematics _ _ t2) in *.
  unfold stamped in *.
  destruct t3; cbn in *. rewrite Hsamples, Htime. done.
Qed.

(** Nothing but [trackPointerMove] touches the sample buffer. *)
Lemma flushBatch_samples t h :
  pointerSamples (flushBatch t h).1 = pointerSamples t
  ∧ lastSampleTime (flushBatch t h).1 = lastSampleTime t.
Proof.
  unfold flushBatch. destruct t; cbn. repeat case_match; done.
Qed.

Lemma logInteraction_samples eventType data now t h :
  pointerSamples (logInteraction eventType data now t h).1 = pointerSamples t
  ∧ lastSampleTime (logInteraction eventType data now t h).1
    = lastSampleTime t.
Proof.
  unfold logInteraction, addToBuffer, flushBatch. destruct t; cbn.
  repeat (case_bool_decide || case_match); done.
Qed.

Lemma call_inv c t h :
  spaced (pointerSamples t) → stamped t →
  spaced (pointerSamples (call c t h).1) ∧ stamped (call c t h).1.
Proof.
  intros Hsp Hst.
  assert (Hframe : ∀ t',
    pointerSamples t' = pointerSamples t ∧ lastSampleTime t' = lastSampleTime t →
    spaced (pointerSamples t') ∧ stamped t').
  { intros t' [Hs Hl]. unfold stamped in *. by rewrite Hs, Hl. }
  destruct c; cbn [call fst].
  - by apply trackPointerMove_inv.
  - apply Hframe. unfold trackPointerDown.
    match goal with
    | |- context [logInteraction ?e ?d ?n ?t0 ?h0] =>
        destruct (logInteraction_samples e d n t0 h0) as [-> ->]
    end.
    by destruct t.
  - apply Hframe. unfold trackPointerUp.
    match goal with
    | |- context [logInteraction ?e ?d ?n ?t0 ?h0] =>
        destruct (logInteraction_samples e d n t0 h0) as [-> ->]
    end.
    by destruct t.
  - apply Hframe. by destruct t.
  - apply Hframe. by destruct t.
  - apply Hframe. apply logInteraction_samples.
  - apply Hframe. apply logInteraction_samples.
  - apply Hframe. apply logInteraction_samples.
  - apply Hframe. apply flushBatch_samples.
  - apply Hframe. unfold fireTimer.
    case_bool_decide; [apply flushBatch_samples | done].
  - apply Hframe. by destruct t.
Qed.

(** C7: in every state the tracker reaches, two neighbouring samples of
    the buffer were captured at least [SAMPLE_INTERVAL] (33 ms) apart, and
    the newest one at [lastSampleTime], the time against which the next
    pointer move is throttled; no assumption is made on the clock or on
    how often the move handler runs. *)
Theorem sample_cadence sessionId userId participantId calls :
  let t := (run calls (new sessionId userId participantId) fresh_host).1 in
  spaced (pointerSamples t) ∧ stamped t.
Proof.
  cbn zeta. induction calls as [| c calls IH] using rev_ind.
  - split; intros ? ?; cbn; intros; done.
  - rewrite run_snoc. destruct IH as [Hsp Hst]. by apply call_inv.
Qed.

Lemma or_default_fin (x : R) d :
  x ≠ 0%R → Js.or_default (Some (Js.Fin x)) d = Js.Fin x.
Proof.
  intros Hx. unfold Js.or_default.
  by rewrite (proj2 (truthy_fin x) Hx).
Qed.

Lemma getCoordinates_cursor (x y : R) :
  x ≠ 0%R → y ≠ 0%R →
  getCoordinates (cursorEvent (Js.Fin x) (Js.Fin y))
  = {| c_x := Js.Fin x; c_y := Js.Fin y |}.
Proof.
  intros Hx Hy. unfold getCoordinates, cursorEvent. cbn [touches clientX clientY].
  by rewrite !or_default_fin.
Qed.

(** C10, counterexample: with a viewport of width and height 0, the first
    pointer move of a session at [(100, 50)] is not skipped: one sample is
    appended, and both of its coordinates are [Infinity]. *)
Lemma collapsed_viewport_sample_appended :
  let t := trackPointerMove (cursorEvent (Js.ofZ 100) (Js.ofZ 50)) 1000
             collapsedViewport session1 in
  length (pointerSamples t) = 1%nat
  ∧ s_x <$> pointerSamples t = [Js.PInf]
  ∧ s_y <$> pointerSamples t = [Js.PInf].
Proof.
  unfold trackPointerMove, storePointerSample, Js.ofZ.
  rewrite getCoordinates_cursor by lra.
  cbn. decide_tests. cbn. unfold Js.ofZ.
  rewrite !div_pos_zero by lra. done.
Qed.

(** What [storePointerSample] does when the sample is due: the sample
    goes to the end of the buffer, and a buffer that grew beyond 1000
    samples is cut to its newest 800. *)
Lemma storePointerSample_due event now window coords t :
  SAMPLE_INTERVAL ≤ now - lastSampleTime t →
  let sample :=
    {| s_round := round t; s_tms := now;
       s_x := Js.div (c_x coords) (innerWidth window);
       s_y := Js.div (c_y coords) (innerHeight window);
       s_isDown := isPointerDown t;
       s_pointerType := pointerTypeOf event |} in
  let appended := pointerSamples t ++ [sample] in
  pointerSamples (storePointerSample event now window coords t)
  = if bool_decide (1000 < length appended)%nat
    then slice_last 800 appended else appended.
Proof.
  intros Hdue. cbv zeta. unfold storePointerSample.
  rewrite bool_decide_eq_true_2 by done.
  destruct t as [? ? ? ? ? ? ? ? ? ? samples ? ? ? ? ?]; cbn.
  by case_bool_decide.
Qed.

Lemma last_slice_last {A} n (l : list A) (a : A) :
  (0 < n)%nat → last (slice_last n (l ++ [a])) = Some a.
Proof.
  intros Hn. unfold slice_last.
  rewrite last_drop_lt by (rewrite length_app; cbn; lia).
  apply last_snoc.
Qed.

(** C10, amended: a pointer move that passes both throttles always
    records a sample, whatever the viewport is.  The sample goes to the
    end of the buffer behind the samples already held (of which only the
    newest 799 stay once the buffer has grown beyond 1000), it is the
    newest entry of the buffer, its coordinates are the pointer
    coordinates divided by the viewport dimensions, and they are finite
    numbers when the pointer coordinates are finite and both dimensions
    are finite and not zero. *)
Theorem trackPointerMove_appends event now window t :
  MOVE_TRACK_INTERVAL ≤ now - lastMoveTrackTime t →
  SAMPLE_INTERVAL ≤ now - lastSampleTime t →
  let coords := getCoordinates event in
  let sample :=
    {| s_round := round t; s_tms := now;
       s_x := Js.div (c_x coords) (innerWidth window);
       s_y := Js.div (c_y coords) (innerHeight window);
       s_isDown := isPointerDown t;
       s_pointerType := pointerTypeOf event |} in
  let appended := pointerSamples t ++ [sample] in
  let after := pointerSamples (trackPointerMove event now window t) in
  after = (if bool_decide (1000 < length appended)%nat
           then slice_last 800 appended else appended)
  ∧ ((length (pointerSamples t) < 1000)%nat →
     after = pointerSamples t ++ [sample])
  ∧ last after = Some sample
  ∧ (usableViewport window → finiteCoords coords →
     Js.is_finite (s_x sample) ∧ Js.is_finite (s_y sample)).
Proof.
  intros Hmove Hdue coords sample appended after.
  assert (Hafter : after = if bool_decide (1000 < length appended)%nat
                           then slice_last 800 appended else appended).
  { unfold after, trackPointerMove.
    rewrite bool_decide_eq_false_2 by lia. fold coords.
    set (t1 := set_lastMoveTrackTime now t).
    assert (Hdue1 : SAMPLE_INTERVAL ≤ now - lastSampleTime t1)
      by (by destruct t).
    pose proof (storePointerSample_due event now window coords t1 Hdue1)
      as Hstored.
    set (t2 := storePointerSample _ _ _ _ t1) in *.
    destruct (trackKinematics_samples now coords t2) as [Hsamples _].
    set (t3 := trackKinematics _ _ t2) in *.
    replace (pointerSamples (set_lastPosition (Some coords) t3))
      with (pointerSamples t3) by (by destruct t3).
    rewrite Hsamples, Hstored. unfold appended, sample, t1.
    by destruct t. }
  split; [exact Hafter |]. split; [| split].
  - intros Hroom. rewrite Hafter, bool_decide_eq_false_2; [done |].
    unfold appended. rewrite length_app. cbn. lia.
  - rewrite Hafter. case_bool_decide.
    + apply last_slice_last. lia.
    + apply last_snoc.
  - intros (w & h & Hw & Hh & Hw0 & Hh0) [Hx Hy]. cbn. rewrite Hw, Hh.
    destruct (c_x coords), (c_y coords); try done. by rewrite !div_fin.
Qed.

(** The session of the example after its first sample. *)
Lemma sampledOnce_state :
  lastMoveTrackTime sampledOnce = 1000
  ∧ lastSampleTime sampledOnce = 1000
  ∧ length (pointerSamples sampledOnce) = 1%nat
  ∧ s_tms <$> pointerSamples sampledOnce = [1000].
Proof.
  unfold sampledOnce, trackPointerMove, storePointerSample, Js.ofZ.
  rewrite getCoordinates_cursor by lra.
  cbn. decide_tests. cbn. done.
Qed.

(** C10, witness: a session holds the sample taken at time 1000; the
    pointer move at time 1040 to the centre of a 1280 x 720 viewport
    puts a second sample behind it, with finite coordinates. *)
Lemma trackPointerMove_appends_witness :
  MOVE_TRACK_INTERVAL ≤ 1040 - lastMoveTrackTime sampledOnce
  ∧ SAMPLE_INTERVAL ≤ 1040 - lastSampleTime sampledOnce
  ∧ s_tms <$> pointerSamples sampledOnce = [1000]
  ∧ ∃ sample,
      pointerSamples
        (trackPointerMove (cursorEvent (Js.ofZ 640) (Js.ofZ 360)) 1040
           desktopViewport sampledOnce)
      = pointerSamples sampledOnce ++ [sample]
      ∧ s_tms sample = 1040
      ∧ Js.is_finite (s_x sample) ∧ Js.is_finite (s_y sample).
Proof.
  destruct sampledOnce_state as (Hmoved & Hsampled & Hlength & Hheld).
  assert (Hmove : MOVE_TRACK_INTERVAL ≤ 1040 - lastMoveTrackTime sampledOnce).
  { rewrite Hmoved. vm_compute. discriminate. }
  assert (Hdue : SAMPLE_INTERVAL ≤ 1040 - lastSampleTime sampledOnce).
  { rewrite Hsampled. vm_compute. discriminate. }
  split; [exact Hmove |]. split; [exact Hdue |]. split; [exact Hheld |].
  destruct (trackPointerMove_appends (cursorEvent (Js.ofZ 640) (Js.ofZ 360))
              1040 desktopViewport sampledOnce Hmove Hdue)
    as (_ & Hroom & _ & Hfinite).
  eexists. split; [apply Hroom; rewrite Hlength; lia |].
  split; [reflexivity |]. apply Hfinite.
  - exists 1280%R, 720%R. repeat split; lra.
  - unfold Js.ofZ. rewrite getCoordinates_cursor by lra. by split.
Defined.

End Sampler.

(* ================================================================== *)
(** * Properties of the kinematics analyzer *)
(* ================================================================== *)

Section Analyzer.
Import Tracker TrackerSpec Scenario.

Lemma truthy_fin_zero (x : R) : x = 0%R → Js.truthy (Js.Fin x) = false.
Proof.
  intros ->. unfold Js.truthy. by rewrite bool_decide_eq_true_2.
Qed.

Lemma segmentLength_same x y a b :
  pointAt x y a → pointAt x y b → segmentLength a b = Js.Fin 0.
Proof.
  intros [Hax Hay] [Hbx Hby]. unfold segmentLength.
  rewrite Hax, Hay, Hbx, Hby. cbn [Js.sub Js.neg Js.add].
  rewrite hypot_fin. f_equal.
  replace ((x + - x) * (x + - x) + (y + - y) * (y + - y))%R with 0%R by ring.
  apply sqrt_0.
Qed.

Lemma pathLengthLoop_same x y prev rest :
  pointAt x y prev → Forall (pointAt x y) rest →
  pathLengthLoop prev rest (Js.Fin 0) = Js.Fin 0.
Proof.
  intros Hprev Hrest. revert prev Hprev.
  induction Hrest as [| p rest Hp Hrest IH]; intros prev Hprev; [done |].
  cbn [pathLengthLoop]. rewrite (segmentLength_same x y) by done.
  cbn [Js.add]. replace (0 + 0)%R with 0%R by ring. by apply IH.
Qed.

(** The degenerate path: when no point of a gesture of two or more
    points differs from the first, the path length is 0 and the
    straightness is [0 / 0]. *)
Lemma analyzeTrajectory_no_movement t first rest x y :
  trajectoryPoints t = first :: rest → rest ≠ [] →
  Forall (pointAt x y) (first :: rest) →
  straightness (analyzeTrajectory t) = Js.NaN.
Proof.
  intros Hpoints Hrest Hall. unfold analyzeTrajectory. rewrite Hpoints.
  destruct rest as [| second rest]; [done |].
  apply Forall_cons in Hall as [Hfirst Hall].
  cbn [straightness]. rewrite (pathLengthLoop_same x y); [| done..].
  assert (Hlast : pointAt x y
                    (default first (last (first :: second :: rest)))).
  { destruct (last (first :: second :: rest)) as [p |] eqn:Hl; [| done].
    cbn. apply last_Some_elem_of in Hl.
    apply elem_of_cons in Hl as [-> | Hl]; [done |].
    by apply (proj1 (Forall_forall _ _) Hall). }
  destruct Hlast as [Hlx Hly]. destruct Hfirst as [Hfx Hfy].
  rewrite Hlx, Hly, Hfx, Hfy. unfold Js.pow2.
  cbn [Js.sub Js.neg Js.add]. rewrite hypot_fin.
  rewrite div_zero_zero; [done | | done].
  replace ((x + - x) * (x + - x) + (y + - y) * (y + - y))%R with 0%R by ring.
  apply sqrt_0.
Qed.

(** The degenerate velocities: when no point of a gesture of two or more
    points has a velocity other than 0, the mean velocity is [0 / 0] and
    the smoothness is NaN. *)
Lemma analyzeTrajectory_no_velocity t :
  (2 ≤ length (trajectoryPoints t))%nat →
  truthyVelocities (trajectoryPoints t) = [] →
  smoothness (analyzeTrajectory t) = Js.NaN.
Proof.
  intros Hlen Hvel. unfold analyzeTrajectory.
  destruct (trajectoryPoints t) as [| first [| second rest]];
    [cbn in Hlen; lia | cbn in Hlen; lia |].
  cbn [smoothness]. rewrite Hvel. cbn [length foldl sum].
  unfold sum, Js.zero, Js.ofZ. cbn [foldl Z.of_nat].
  rewrite !(div_zero_zero 0 (IZR (Z.of_nat 0))) by done. done.
Qed.

(** What the held-still gesture leaves in [trajectoryPoints]: the point
    of the press, and the point of the move with a velocity equal to 0. *)
Lemma heldStill_points :
  ∃ velocity acceleration : R,
    trajectoryPoints heldStill
    = [ {| p_x := Js.Fin 100; p_y := Js.Fin 50; p_time := 1000;
           p_velocity := None; p_acceleration := None |};
        {| p_x := Js.Fin 100; p_y := Js.Fin 50; p_time := 1040;
           p_velocity := Some (Js.Fin velocity);
           p_acceleration := Some (Js.Fin acceleration) |} ]
    ∧ velocity = 0%R.
Proof.
  unfold heldStill, run. cbn [foldl call fst snd].
  unfold trackPointerDown, trackPointerMove, Js.ofZ.
  rewrite getCoordinates_cursor by lra.
  unfold logInteraction, addToBuffer. cbn. decide_tests. cbn.
  unfold trackPointerMove, storePointerSample, trackKinematics. cbn.
  rewrite !(proj2 (truthy_fin _)) by lra.
  unfold lastPointTime. cbn.
  repeat (progress (decide_tests; cbn)). unfold Js.ofZ.
  rewrite !sqrt_fin by nra.
  change (1040 - 1000) with 40.
  rewrite !div_fin by lra.
  eexists _, 0%R. split; [reflexivity |].
  replace ((100 + - (100)) * (100 + - (100)) + (50 + - (50)) * (50 + - (50)))%R
    with 0%R by ring.
  rewrite sqrt_0. lra.
Qed.

(** C5: for the held-still gesture (two points, no movement) the
    analyzer reports a straightness of NaN, where the neutral value 1 is
    reported for a gesture of fewer than two points. *)
Theorem straightness_nan_when_still :
  length (trajectoryPoints heldStill) = 2%nat
  ∧ straightness (analyzeTrajectory heldStill) = Js.NaN
  ∧ straightness
      (analyzeTrajectory
         (trackPointerDown (cursorEvent (Js.ofZ 100) (Js.ofZ 50)) None 1000
            session1 fresh_host).1)
    = Js.ofZ 1.
Proof.
  destruct heldStill_points as (velocity & acceleration & Hpoints & _).
  split; [by rewrite Hpoints |]. split.
  - eapply (analyzeTrajectory_no_movement _ _ _ 100 50);
      [exact Hpoints | done |].
    repeat constructor.
  - reflexivity.
Qed.

(** C6: for the same gesture the analyzer reports a smoothness of NaN:
    the only velocity of the gesture is 0, the filter drops it, and the
    mean over the empty list divides 0 by 0. *)
Theorem smoothness_nan_when_still :
  truthyVelocities (trajectoryPoints heldStill) = []
  ∧ smoothness (analyzeTrajectory heldStill) = Js.NaN.
Proof.
  destruct heldStill_points as (velocity & acceleration & Hpoints & Hzero).
  assert (Hvel : truthyVelocities (trajectoryPoints heldStill) = []).
  { rewrite Hpoints. unfold truthyVelocities. cbn.
    by rewrite truthy_fin_zero. }
  split; [exact Hvel |].
  apply analyzeTrajectory_no_velocity; [| exact Hvel].
  rewrite Hpoints. cbn. lia.
Qed.

End Analyzer.

(* ================================================================== *)
(** * Properties of the overshoot probe *)
(* ================================================================== *)

Section Overshoot.
Import Tracker MotorSkillsGame TrackerSpec Scenario.














(** The probe inside [sampleCursorPosition]: while a round is played
    with a tracker and a pointer position at hand, one run of the sampler
    is one probe on the current bubbles; outside a round nothing
    changes. *)
Lemma sampleCursorPosition_probe pos now window refs tracker :
  motorTrackerRef refs = Some tracker →
  let result := sampleCursorPosition (Some pos) now window refs in
  if isPlayingRef refs
  then distanceHistoryRef result
       = overshootProbe pos (bubblesRef refs) (distanceHistoryRef refs)
  else result = refs.
Proof.
  intros Htracker. unfold sampleCursorPosition. rewrite Htracker.
  by destruct (isPlayingRef refs).
Qed.

End Overshoot.

(* ================================================================== *)
(** * The analyzer away from the degenerate gestures *)
(* ================================================================== *)

Section AnalyzerBounds.
Import Tracker TrackerSpec Scenario.
Local Open Scope R_scope.

Lemma finitePoint_coords p :
  finitePoint p → p_x p = Js.Fin (realX p) ∧ p_y p = Js.Fin (realY p).
Proof.
  unfold finitePoint, realX, realY.
  destruct (p_x p), (p_y p); cbn; intros [? ?]; done.
Qed.

Lemma distance_nonneg a b : 0 <= distance a b.
Proof. unfold distance, dist_euc. apply sqrt_pos. Qed.

Lemma polyline_nonneg prev rest : 0 <= polyline prev rest.
Proof.
  revert prev. induction rest as [| p rest IH]; intros prev; cbn; [lra |].
  pose proof (distance_nonneg prev p). pose proof (IH p). lra.
Qed.

Lemma segmentLength_finite a b :
  finitePoint a → finitePoint b → segmentLength a b = Js.Fin (distance a b).
Proof.
  intros Ha Hb. unfold segmentLength, distance, dist_euc.
  destruct (finitePoint_coords a Ha) as [-> ->].
  destruct (finitePoint_coords b Hb) as [-> ->].
  cbn [Js.sub Js.neg Js.add]. rewrite hypot_fin. do 2 f_equal.
  unfold Rsqr. ring.
Qed.

Lemma pathLengthLoop_finite prev rest acc :
  finitePoint prev → Forall finitePoint rest →
  pathLengthLoop prev rest (Js.Fin acc) = Js.Fin (acc + polyline prev rest).
Proof.
  intros Hprev Hrest. revert prev acc Hprev.
  induction Hrest as [| p rest Hp Hrest IH]; intros prev acc Hprev; cbn.
  - f_equal. lra.
  - rewrite segmentLength_finite by done. cbn [Js.add].
    rewrite IH by done. f_equal. lra.
Qed.

(** The chord from the first point to the last is no longer than the
    path through all the points. *)
Lemma chord_le_polyline first rest :
  distance first (default first (last (first :: rest)))
  <= polyline first rest.
Proof.
  revert first. induction rest as [| p rest IH]; intros first.
  - cbn. unfold distance. rewrite distance_refl. lra.
  - assert (Hlast : default first (last (first :: p :: rest))
                    = default p (last (p :: rest))).
    { rewrite last_cons_cons. by destruct (last (p :: rest)) eqn:Hl;
        [| apply last_None in Hl]. }
    rewrite Hlast. cbn [polyline].
    pose proof (IH p) as Hchord.
    pose proof (triangle (realX first) (realY first)
                  (realX (default p (last (p :: rest))))
                  (realY (default p (last (p :: rest))))
                  (realX p) (realY p)) as Htri.
    unfold distance in *. lra.
Qed.

(** Rounding to three decimals keeps a ratio inside [0, 1]. *)
Lemma toFixedR_unit (s : R) :
  0 <= s <= 1 → 0 <= Js.toFixedR 3 s <= 1.
Proof.
  intros [Hlo Hhi]. unfold Js.toFixedR, Js.round_half_up.
  rewrite bool_decide_eq_false_2 by lra.
  change (IZR (10 ^ Z.of_nat 3)) with 1000.
  destruct (base_Int_part (s * 1000 + / 2)) as [Hle Hgt].
  set (n := Int_part (s * 1000 + / 2)) in *.
  assert (Hn0 : (-1 < n)%Z) by (apply lt_IZR; lra).
  assert (Hn1 : (n < 1001)%Z) by (apply lt_IZR; lra).
  assert (Hlo' : (0 <= n)%Z) by lia.
  assert (Hhi' : (n <= 1000)%Z) by lia.
  apply IZR_le in Hlo', Hhi'. lra.
Qed.

(** Straightness on every gesture of two or more points with finite
    coordinates: either the path has length 0 and the straightness is
    NaN, or the path has positive length and the straightness is a
    number between 0 and 1. *)
Theorem straightness_bounds t first second rest :
  trajectoryPoints t = first :: second :: rest →
  Forall finitePoint (first :: second :: rest) →
  let metrics := analyzeTrajectory t in
  (polyline first (second :: rest) = 0 ∧ straightness metrics = Js.NaN)
  ∨ (0 < polyline first (second :: rest)
     ∧ ∃ s, straightness metrics = Js.Fin s ∧ 0 <= s <= 1).
Proof.
  intros Hpoints Hall metrics.
  pose proof (Forall_inv Hall) as Hfirst.
  pose proof (Forall_inv_tail Hall) as Hrest.
  assert (Hlastfin :
    finitePoint (default first (last (first :: second :: rest)))).
  { destruct (last (first :: second :: rest)) as [p |] eqn:Hl; [| done].
    apply last_Some_elem_of in Hl.
    by apply (proj1 (Forall_forall _ _) Hall). }
  pose proof (chord_le_polyline first (second :: rest)) as Hchord.
  pose proof (distance_nonneg first
                (default first (last (first :: second :: rest)))) as Hpos.
  assert (Hstraight : straightness metrics
    = Js.toFixed 3
        (Js.div
           (Js.Fin (distance first
                      (default first (last (first :: second :: rest)))))
           (Js.Fin (polyline first (second :: rest))))).
  { unfold metrics, analyzeTrajectory. rewrite Hpoints. cbn [straightness].
    unfold Js.zero. rewrite pathLengthLoop_finite by done.
    rewrite Rplus_0_l. do 2 f_equal.
    destruct (finitePoint_coords _ Hfirst) as [-> ->].
    destruct (finitePoint_coords _ Hlastfin) as [-> ->].
    unfold Js.pow2. cbn [Js.sub Js.neg Js.add]. rewrite hypot_fin.
    unfold distance, dist_euc. do 2 f_equal. unfold Rsqr. ring. }
  rewrite Hstraight.
  destruct (Req_dec_T (polyline first (second :: rest)) 0) as [Hzero | Hnz].
  - left. split; [done |]. rewrite div_zero_zero; [done | lra | done].
  - right. pose proof (polyline_nonneg first (second :: rest)).
    split; [lra |]. rewrite div_fin by done. eexists. split; [reflexivity |].
    apply toFixedR_unit.
    set (chord := distance _ _) in *.
    set (path := polyline _ _) in *.
    assert (Hratio : chord / path * path = chord) by (field; lra).
    split; nra.
Qed.

Lemma sum_positive (values : list JsNum) (acc : R) :
  Forall positive values →
  ∃ total : R, foldl Js.add (Js.Fin acc) values = Js.Fin total
               ∧ acc <= total ∧ (values ≠ [] → acc < total).
Proof.
  intros Hall. revert acc.
  induction Hall as [| v values (r & -> & Hr) _ IH]; intros acc.
  - exists acc. cbn. repeat split; [lra | done].
  - cbn [foldl Js.add]. destruct (IH (acc + r)) as (total & -> & Hle & _).
    exists total. repeat split; lra.
Qed.

Lemma squares_nonneg (values : list JsNum) (mean acc : R) :
  Forall positive values → 0 <= acc →
  ∃ total : R,
    foldl (λ acc v, Js.add acc (Js.pow2 (Js.sub v (Js.Fin mean))))
      (Js.Fin acc) values = Js.Fin total
    ∧ 0 <= total.
Proof.
  intros Hall. revert acc.
  induction Hall as [| v values (r & -> & Hr) _ IH]; intros acc Hacc.
  - by exists acc.
  - cbn [foldl]. unfold Js.pow2. cbn [Js.sub Js.neg Js.add Js.mul].
    apply IH. pose proof (Rle_0_sqr (r + - mean)) as Hsq.
    unfold Rsqr in Hsq. lra.
Qed.

(** Smoothness away from the degenerate velocities: when a gesture of
    two or more points has at least one velocity that passes the filter,
    and those that pass are finite and positive, the smoothness is a
    number between 0 and 1. *)
Theorem smoothness_bounds t :
  (2 ≤ length (trajectoryPoints t))%nat →
  truthyVelocities (trajectoryPoints t) ≠ [] →
  Forall positive (truthyVelocities (trajectoryPoints t)) →
  ∃ s, smoothness (analyzeTrajectory t) = Js.Fin s ∧ 0 <= s <= 1.
Proof.
  intros Hlen Hne Hall. unfold analyzeTrajectory.
  destruct (trajectoryPoints t) as [| first [| second rest]] eqn:Hpoints;
    [cbn in Hlen; lia | cbn in Hlen; lia |].
  cbn [smoothness].
  set (velocities := truthyVelocities (first :: second :: rest)) in *.
  destruct (sum_positive velocities 0 Hall) as (total & Hsum & _ & Htotal).
  specialize (Htotal Hne).
  unfold sum, Js.zero, Js.ofZ. rewrite Hsum.
  assert (Hcount : 0 < IZR (Z.of_nat (length velocities))).
  { apply IZR_lt. destruct velocities; [done | cbn; lia]. }
  set (count := IZR (Z.of_nat (length velocities))) in *.
  rewrite div_fin by lra.
  destruct (squares_nonneg velocities (total / count) 0 Hall)
    as (squares & -> & Hsquares); [lra |].
  rewrite div_fin by lra.
  assert (Hmean : 0 < total / count) by (by apply Rdiv_lt_0_compat).
  assert (Hvar : 0 <= squares / count).
  { apply Rmult_le_pos; [done |]. left. by apply Rinv_0_lt_compat. }
  rewrite sqrt_fin by done. rewrite div_fin by lra.
  pose proof (sqrt_pos (squares / count)) as Hdev.
  set (deviation := R_sqrt.sqrt (squares / count)) in *.
  assert (Hspread : 0 <= deviation / (total / count)).
  { apply Rmult_le_pos; [done |]. left. by apply Rinv_0_lt_compat. }
  set (spread := deviation / (total / count)) in *.
  cbn [Js.add]. rewrite div_fin by lra.
  eexists. split; [reflexivity |]. apply toFixedR_unit.
  assert (Hratio : 1 / (1 + spread) * (1 + spread) = 1) by (field; lra).
  split; nra.
Qed.

End AnalyzerBounds.

(* ================================================================== *)
(** * Further properties of the challenge state machine *)
(* ================================================================== *)

Section StateMachineMore.
Import GameContext GameActions.

Lemma dispatchAll_cons now action actions state :
  dispatchAll ((now, action) :: actions) state
  = dispatchAll actions (gameReducer now state action).
Proof. reflexivity. Qed.

(** ** Streak counters *)

Lemma statsOrdered_step now state action :
  overridesStats action = false →
  statsOrdered (stats state) →
  statsOrdered (stats (gameReducer now state action)).
Proof.
  intros Hkeep (H0 & H1 & H2 & H3). unfold statsOrdered.
  destruct action; try discriminate;
    destruct state as [? ? ? ? st ? ? ? ? ? ? ? ?];
    cbn in *; try done; lia.
Qed.

(** X1: Whatever is answered and whatever else is dispatched, as long as no
    action replaces the [stats] object from outside, the counters stay
    ordered: 0 <= currentStreak <= maxStreak <= totalCorrect <=
    totalAttempts. *)
Theorem stats_stay_ordered sessionId actions :
  Forall (λ timed, overridesStats timed.2 = false) actions →
  statsOrdered (stats (dispatchAll actions (initialState sessionId))).
Proof.
  intros Hall.
  assert (Hinit : statsOrdered (stats (initialState sessionId))).
  { unfold statsOrdered. cbn. lia. }
  revert Hinit. generalize (initialState sessionId).
  induction Hall as [| [now action] actions Hkeep _ IH]; intros state Hinv.
  - done.
  - rewrite dispatchAll_cons. apply IH. by apply statsOrdered_step.
Qed.

(** Three correct answers, a miss, and one more correct answer. *)
Lemma stats_stay_ordered_witness :
  let answers :=
    (λ action, (5000, action))
    <$> (recordCorrectAnswer (Some 420) ++ recordCorrectAnswer None
         ++ recordCorrectAnswer (Some 380) ++ recordIncorrectAnswer None
         ++ recordCorrectAnswer (Some 0)) in
  Forall (λ timed, overridesStats timed.2 = false) answers
  ∧ statsOrdered (stats (dispatchAll answers (initialState "session_1"))).
Proof.
  assert (Hkeep : Forall (λ timed : Z * Action, overridesStats timed.2 = false)
    ((λ action, (5000, action))
     <$> (recordCorrectAnswer (Some 420) ++ recordCorrectAnswer None
          ++ recordCorrectAnswer (Some 380) ++ recordIncorrectAnswer None
          ++ recordCorrectAnswer (Some 0)))).
  { cbn. repeat constructor. }
  cbv zeta. split; [exact Hkeep |].
  exact (stats_stay_ordered "session_1" _ Hkeep).
Defined.

(** ** Average response time *)

Lemma sum_bounds (values : list Z) (lo hi acc : Z) :
  Forall (λ x, lo ≤ x ≤ hi) values →
  acc + Z.of_nat (length values) * lo ≤ foldl Z.add acc values
  ∧ foldl Z.add acc values ≤ acc + Z.of_nat (length values) * hi.
Proof.
  intros Hall. revert acc.
  induction Hall as [| x values Hx _ IH]; intros acc; cbn [foldl length].
  - lia.
  - specialize (IH (acc + x)). lia.
Qed.

Lemma roundedMean_nearest (values : list Z) :
  values ≠ [] →
  let count := Z.of_nat (length values) in
  let total := foldl Z.add 0 values in
  2 * total - count < 2 * count * roundedMean values
  ∧ 2 * count * roundedMean values ≤ 2 * total + count.
Proof.
  intros Hne count total. unfold roundedMean. fold count total.
  assert (Hcount : 0 < count).
  { unfold count. destruct values; [done | cbn; lia]. }
  pose proof (Z.div_mod (2 * total + count) (2 * count)) as Hdiv.
  pose proof (Z.mod_pos_bound (2 * total + count) (2 * count)) as Hmod.
  lia.
Qed.

(** X2: After a response time is added, [averageResponseTime] is the integer
    nearest to the mean of all the response times (a tie goes up), and so
    it lies between any two bounds of the response times.  The response
    times are durations, none of them negative, and their sum stays below
    2^52: there the sum is exact on doubles, and the rounding of the
    quotient cannot carry it across the half on which [Math.round]
    turns. *)
Theorem average_is_rounded_mean now state time :
  Forall (λ x, 0 ≤ x) (responseTimes (stats state) ++ [time]) →
  foldl Z.add 0 (responseTimes (stats state) ++ [time]) < 2 ^ 52 →
  let times := responseTimes (stats state) ++ [time] in
  let after := stats (gameReducer now state (ADD_RESPONSE_TIME time)) in
  let count := Z.of_nat (length times) in
  let total := foldl Z.add 0 times in
  responseTimes after = times
  ∧ 2 * total - count < 2 * count * averageResponseTime after
  ∧ 2 * count * averageResponseTime after ≤ 2 * total + count
  ∧ ∀ lo hi, Forall (λ x, lo ≤ x ≤ hi) times →
             lo ≤ averageResponseTime after ≤ hi.
Proof.
  intros _ _ times after count total.
  assert (Hafter : responseTimes after = times
                   ∧ averageResponseTime after = roundedMean times).
  { unfold after, times. by destruct state. }
  destruct Hafter as [Htimes Havg]. rewrite Havg.
  assert (Hne : times ≠ []).
  { unfold times. by destruct (responseTimes (stats state)). }
  destruct (roundedMean_nearest times Hne) as [Hlo Hhi].
  fold count total in Hlo, Hhi.
  split; [done |]. split; [done |]. split; [done |].
  intros lo hi Hall.
  destruct (sum_bounds times lo hi 0 Hall) as [Hsumlo Hsumhi].
  fold count total in Hsumlo, Hsumhi.
  assert (Hcount : 0 < count).
  { unfold count. destruct times; [done | cbn; lia]. }
  split; nia.
Qed.

(** After answers given in 400 ms and in 501 ms the average is 451 ms:
    the mean 450.5 goes up. *)
Lemma average_is_rounded_mean_witness :
  responseTimes (stats (gameReducer 2000 answeredOnce
                          (ADD_RESPONSE_TIME 501))) = [400; 501]
  ∧ averageResponseTime (stats (gameReducer 2000 answeredOnce
                                  (ADD_RESPONSE_TIME 501))) = 451.
Proof.
  assert (Hheld : responseTimes (stats answeredOnce) = [400])
    by reflexivity.
  assert (Hsigns : Forall (λ x, 0 ≤ x)
                     (responseTimes (stats answeredOnce) ++ [501])).
  { rewrite Hheld. repeat (apply Forall_cons_2; [lia |]).
    apply Forall_nil_2. }
  assert (Hsum : foldl Z.add 0 (responseTimes (stats answeredOnce) ++ [501])
                 < 2 ^ 52).
  { rewrite Hheld. cbn [app foldl]. lia. }
  pose proof (average_is_rounded_mean 2000 answeredOnce 501 Hsigns Hsum)
    as Hspec.
  cbv zeta in Hspec. destruct Hspec as (Htimes & Hlo & Hhi & _).
  rewrite Hheld in Htimes, Hlo, Hhi. cbn [app foldl length] in Hlo, Hhi.
  split; [exact Htimes | lia].
Defined.

(** ** Mid-stage progress *)

(** X3: A progress update merges the given keys into the slice of the named
    challenge: the given keys take their new values, the other keys of
    the slice keep theirs, the slices of the other challenges and the
    rest of the state are untouched, and the same update applied twice
    is the update applied once. *)
Theorem updateChallengeProgress_merges now challenge patch state :
  let after := dispatchAt now (updateChallengeProgress challenge patch)
                 state in
  let slice m := default (∅ : gmap string JVal) (m !! challenge) in
  (∀ key, slice (challengeProgress after) !! key
          = match patch !! key with
            | Some value => Some value
            | None => slice (challengeProgress state) !! key
            end)
  ∧ (∀ other, other ≠ challenge →
       challengeProgress after !! other = challengeProgress state !! other)
  ∧ currentPhase after = currentPhase state
  ∧ completedChallenges after = completedChallenges state
  ∧ challengeResults after = challengeResults state
  ∧ stats after = stats state
  ∧ dispatchAt now (updateChallengeProgress challenge patch) after = after.
Proof.
  intros after slice.
  assert (Hafter : after
    = set_challengeProgress
        (<[challenge := patch ∪ slice (challengeProgress state)]>
           (challengeProgress state)) state) by reflexivity.
  rewrite Hafter. clear Hafter after.
  destruct state as [? ? ? ? ? ? ? progress0 ? ? ? ? ?]. cbn.
  repeat split.
  - intros key. unfold slice at 1. rewrite lookup_insert_eq. cbn.
    rewrite lookup_union. destruct (patch !! key), (slice progress0 !! key);
      done.
  - intros other Hother. by rewrite lookup_insert_ne.
  - unfold dispatchAt, updateChallengeProgress. cbn. f_equal.
    rewrite lookup_insert_eq. cbn. rewrite insert_insert_eq. f_equal.
    apply map_eq. intros key. rewrite !lookup_union.
    destruct (patch !! key), (slice progress0 !! key); done.
Qed.

(** ** Reloading the page *)

(** X4: A reload in the middle of a started game brings back everything the
    save effect writes, and nothing else: the phase clock, the transition
    overlay and the pause flag start again from their initial values. *)
Theorem reload_keeps_persisted now freshSessionId state time :
  startTime state = Some time → time ≠ 0 → currentPhase state ≠ "intro" →
  let reloaded := mount now freshSessionId (saveEffect state None) in
  persisted reloaded = persisted state
  ∧ phaseStartTime reloaded = None
  ∧ showingTransition reloaded = false
  ∧ transitionMessage reloaded = ""
  ∧ isPaused reloaded = false.
Proof.
  intros Hstart Htime Hphase.
  destruct state as [? ? phase ? ? ? ? ? start ? ? ? ?]. cbn in Hstart, Hphase.
  subst start.
  unfold mount, saveEffect, loadEffect, started. cbn.
  rewrite (bool_decide_eq_false_2 (time = 0)) by done. cbn.
  rewrite (bool_decide_eq_false_2 (time = 0)) by done.
  rewrite bool_decide_eq_false_2 by done. cbn. done.
Qed.

Lemma reload_keeps_persisted_witness :
  let paused := gameReducer 6000
                  (gameReducer 1000 (initialState "session_1") START_GAME)
                  PAUSE_GAME in
  startTime paused = Some 1000 ∧ 1000 ≠ 0 ∧ currentPhase paused ≠ "intro"
  ∧ isPaused paused = true
  ∧ isPaused (mount 9000 "session_2" (saveEffect paused None)) = false
  ∧ persisted (mount 9000 "session_2" (saveEffect paused None))
    = persisted paused.
Proof.
  cbv zeta.
  assert (Htime : 1000 ≠ 0) by lia.
  assert (Hphase : currentPhase
            (gameReducer 6000
               (gameReducer 1000 (initialState "session_1") START_GAME)
               PAUSE_GAME) ≠ "intro") by done.
  pose proof (reload_keeps_persisted 9000 "session_2"
                (gameReducer 6000
                   (gameReducer 1000 (initialState "session_1") START_GAME)
                   PAUSE_GAME) 1000 eq_refl Htime Hphase)
    as (Hpersisted & _ & _ & _ & Hpaused).
  split; [reflexivity |]. split; [exact Htime |]. split; [exact Hphase |].
  split; [reflexivity |]. split; [exact Hpaused | exact Hpersisted].
Defined.

(** X5: Storage that is absent, that records no start time, or that was
    written in the intro phase is ignored: the provider mounts on the
    initial state, as it does after [resetGame]. *)
Theorem mount_ignores_unstarted now freshSessionId storage :
  match storage with
  | None => True
  | Some saved => started (saved_startTime saved) = false
                  ∨ saved_currentPhase saved = "intro"
  end →
  mount now freshSessionId storage = initialState freshSessionId
  ∧ resetGame now freshSessionId = (initialState freshSessionId, None).
Proof.
  intros Hstorage. split; [| reflexivity].
  unfold mount, loadEffect. destruct storage as [saved |]; [| done].
  destruct Hstorage as [-> | ->]; [done |].
  by rewrite andb_false_r.
Qed.

Lemma mount_ignores_unstarted_witness :
  let saved := persisted (set_startTime (Some 0)
                            (set_currentPhase "motor-skills"
                               (initialState "session_1"))) in
  (started (saved_startTime saved) = false
   ∨ saved_currentPhase saved = "intro")
  ∧ mount 9000 "session_2" (Some saved) = initialState "session_2".
Proof.
  cbv zeta.
  assert (Hzero : started (saved_startTime
            (persisted (set_startTime (Some 0)
                          (set_currentPhase "motor-skills"
                             (initialState "session_1"))))) = false
          ∨ saved_currentPhase
              (persisted (set_startTime (Some 0)
                            (set_currentPhase "motor-skills"
                               (initialState "session_1")))) = "intro").
  { left. reflexivity. }
  split; [exact Hzero |].
  exact (proj1 (mount_ignores_unstarted 9000 "session_2" (Some _) Hzero)).
Defined.

(** X6: Until the game is started nothing is written to the storage: no
    action other than [START_GAME] and [LOAD_SAVED_STATE] records a start
    time, and the save effect writes only for a state that has one. *)
Theorem nothing_saved_before_start sessionId actions storage :
  Forall (λ timed, match timed.2 with
                   | START_GAME | LOAD_SAVED_STATE _ => False
                   | _ => True
                   end) actions →
  saveEffect (dispatchAll actions (initialState sessionId)) storage = storage.
Proof.
  intros Hall.
  assert (Hnone : startTime (dispatchAll actions (initialState sessionId))
                  = None).
  { assert (Hinit : startTime (initialState sessionId) = None) by reflexivity.
    revert Hinit. generalize (initialState sessionId).
    induction Hall as [| [now action] actions Hkeep _ IH]; intros state Hinv;
      [done |].
    rewrite dispatchAll_cons. apply IH.
    destruct action; cbn in Hkeep; try done; by destruct state. }
  unfold saveEffect. by rewrite Hnone.
Qed.

Lemma nothing_saved_before_start_witness :
  let actions := [(100, SET_USER_ID (Some "user_7"));
                  (200, SET_PHASE "visual-acuity");
                  (300, COMPLETE_CHALLENGE "visual-acuity");
                  (400, INCREMENT_STREAK)] in
  Forall (λ timed : Z * Action,
            match timed.2 with
            | START_GAME | LOAD_SAVED_STATE _ => False
            | _ => True
            end) actions
  ∧ saveEffect (dispatchAll actions (initialState "session_1")) None = None.
Proof.
  cbv zeta.
  assert (Hkeep : Forall (λ timed : Z * Action,
            match timed.2 with
            | START_GAME | LOAD_SAVED_STATE _ => False
            | _ => True
            end)
      [(100, SET_USER_ID (Some "user_7")); (200, SET_PHASE "visual-acuity");
       (300, COMPLETE_CHALLENGE "visual-acuity"); (400, INCREMENT_STREAK)]).
  { repeat constructor. }
  split; [exact Hkeep |].
  exact (nothing_saved_before_start "session_1" _ None Hkeep).
Defined.

(** ** Completing stages *)

(** X7: What the completion of a challenge of [CHALLENGE_ORDER] changes
    besides the phase and the list of completed challenges: the results
    are stored under the challenge identifier, the trait of the challenge
    (when it has one) is unlocked, and the transition overlay is hidden
    again.  The statistics, the start time and the mid-stage progress are
    left as they were: the progress of the completed stage is not cleared
    here. *)
Theorem completeChallenge_records id results now later state :
  id ∈ CHALLENGE_ORDER →
  let after := completeChallenge id results now [] later state in
  challengeResults after = <[id := results]> (challengeResults state)
  ∧ unlockedTraits after
    = unlockedTraits state ++ option_list (PROFILE_TRAITS id)
  ∧ showingTransition after = false
  ∧ transitionMessage after = ""
  ∧ stats after = stats state
  ∧ challengeProgress after = challengeProgress state
  ∧ startTime after = startTime state.
Proof.
  intros _.
  unfold completeChallenge, completeChallengeBegin, completeChallengeEnd.
  cbn [dispatchAll foldl].
  destruct (PROFILE_TRAITS id) as [trait |];
    (case_bool_decide; [destruct (CHALLENGE_ORDER !! _) |]);
    destruct state; cbn; rewrite ?app_nil_r; done.
Qed.

(** The motor-skills stage is completed in a game that has just started:
    its results are stored and "Lightning Reflexes" is unlocked. *)
Lemma completeChallenge_records_witness :
  "motor-skills" ∈ CHALLENGE_ORDER
  ∧ trait_name <$>
      unlockedTraits
        (completeChallenge "motor-skills" (JObj [("score", JNum 4)])
           2000 [] 4000
           (gameReducer 1000 (initialState "session_1") START_GAME))
    = ["Lightning Reflexes"]
  ∧ challengeResults
      (completeChallenge "motor-skills" (JObj [("score", JNum 4)])
         2000 [] 4000
         (gameReducer 1000 (initialState "session_1") START_GAME))
      !! "motor-skills"
    = Some (JObj [("score", JNum 4)]).
Proof.
  assert (Hstage : "motor-skills" ∈ CHALLENGE_ORDER).
  { unfold CHALLENGE_ORDER. rewrite !elem_of_cons. tauto. }
  split; [exact Hstage |].
  pose proof (completeChallenge_records "motor-skills"
                (JObj [("score", JNum 4)]) 2000 4000
                (gameReducer 1000 (initialState "session_1") START_GAME)
                Hstage) as Hspec.
  cbv zeta in Hspec. destruct Hspec as (Hresults & Htraits & _).
  split.
  - rewrite Htraits. reflexivity.
  - rewrite Hresults. apply lookup_insert_eq.
Defined.

(** X8: When every stage component completes the challenge of the current
    phase, as the four components do, the game started from the initial
    state walks the order without skipping or repeating: after [n <= 4]
    stages the first [n] stages are completed, once each, the phase is
    the entry after them, [n] traits are unlocked and the progress shows
    [25 n] percent. *)
Theorem stages_played_in_order sessionId start stages :
  (length stages ≤ 4)%nat →
  let n := length stages in
  let state := playStages stages
                 (gameReducer start (initialState sessionId) START_GAME) in
  completedChallenges state = take n STAGES
  ∧ CHALLENGE_ORDER !! S n = Some (currentPhase state)
  ∧ NoDup (completedChallenges state)
  ∧ length (unlockedTraits state) = n
  ∧ progress_percentage (progress state) = 25 * Z.of_nat n.
Proof.
  intros Hlen.
  destruct stages as [| [[r1 n1] l1] [| [[r2 n2] l2] [| [[r3 n3] l3]
    [| [[r4 n4] l4] [| ? ?]]]]]; cbn in Hlen; try lia; cbv zeta;
    cbn [length];
    (split; [reflexivity |]); (split; [reflexivity |]);
    (split; [| split; reflexivity]).
  all: match goal with
       | |- NoDup ?l => apply (bool_decide_unpack (NoDup l))
       end; vm_compute; exact I.
Qed.

Lemma stages_played_in_order_witness :
  (length twoStages ≤ 4)%nat
  ∧ currentPhase
      (playStages twoStages
         (gameReducer 1000 (initialState "session_1") START_GAME))
    = "motor-skills"
  ∧ completedChallenges
      (playStages twoStages
         (gameReducer 1000 (initialState "session_1") START_GAME))
    = ["color-blindness"; "visual-acuity"].
Proof.
  assert (Hlen : (length twoStages ≤ 4)%nat) by (cbn; lia).
  split; [exact Hlen |].
  destruct (stages_played_in_order "session_1" 1000 twoStages Hlen)
    as (Hcompleted & Hphase & _).
  split; [| exact Hcompleted].
  apply (inj Some). symmetry. exact Hphase.
Defined.

End StateMachineMore.

(* ================================================================== *)
(** * Further properties of the tracker *)
(* ================================================================== *)

Section TrackerMoreProps.
Import Tracker TrackerSpec Scenario TrackerMore.

(** ** What logging touches *)

(** [logInteraction] changes the history, the buffer and the timer, and
    no other field. *)
Lemma logInteraction_frame eventType data now t h :
  ∃ history buffer timer,
    (logInteraction eventType data now t h).1
    = set_batchTimer timer
        (set_interactionBuffer buffer (set_interactions history t)).
Proof.
  unfold logInteraction, addToBuffer, flushBatch. destruct t; cbn.
  repeat (case_bool_decide || case_match); cbn; eauto.
Qed.

Lemma flushBatch_frame t h :
  ∃ buffer timer,
    (flushBatch t h).1 = set_batchTimer timer (set_interactionBuffer buffer t).
Proof.
  unfold flushBatch. destruct t; cbn. repeat case_match; cbn; eauto.
Qed.

(** ** Caps of the rolling buffers *)

Lemma storePointerSample_cap event now window coords t :
  (length (pointerSamples t) ≤ 1000)%nat →
  (length (pointerSamples (storePointerSample event now window coords t))
   ≤ 1000)%nat.
Proof.
  intros Hcap. unfold storePointerSample.
  case_bool_decide; [| done].
  destruct t as [? ? ? ? ? ? ? ? ? ? samples ? ? ? ? ?]; cbn in *.
  case_bool_decide as Hbig; cbn.
  - unfold slice_last. rewrite length_drop, length_app. cbn. lia.
  - lia.
Qed.

Lemma storePointerSample_kinematics event now window coords t :
  trajectoryPoints (storePointerSample event now window coords t)
  = trajectoryPoints t
  ∧ velocityHistory (storePointerSample event now window coords t)
    = velocityHistory t
  ∧ lastPosition (storePointerSample event now window coords t)
    = lastPosition t.
Proof.
  unfold storePointerSample. destruct t; cbn.
  repeat case_bool_decide; done.
Qed.

Lemma trackKinematics_cap now coords t :
  (length (trajectoryPoints t) ≤ 100)%nat →
  (length (velocityHistory t) ≤ 10)%nat →
  (length (trajectoryPoints (trackKinematics now coords t)) ≤ 100)%nat
  ∧ (length (velocityHistory (trackKinematics now coords t)) ≤ 10)%nat.
Proof.
  intros Hpoints Hhistory. unfold trackKinematics.
  destruct (lastPosition t) as [lastPos |]; [| done].
  case_bool_decide; [| done].
  destruct t as [? ? ? ? ? ? ? history points ? ? ? ? ? ? ?]; cbn in *.
  split.
  - case_bool_decide.
    + unfold slice_last. rewrite length_drop, length_app. cbn. lia.
    + lia.
  - case_bool_decide.
    + rewrite length_drop, length_app. cbn. lia.
    + lia.
Qed.

Lemma trackPointerMove_cap event now window t :
  withinCaps t → withinCaps (trackPointerMove event now window t).
Proof.
  intros (Hsamples & Hpoints & Hhistory). unfold trackPointerMove.
  case_bool_decide; [done |].
  set (t1 := set_lastMoveTrackTime now t).
  assert (Hcaps1 : withinCaps t1) by (by destruct t).
  destruct Hcaps1 as (Hs1 & Hp1 & Hh1).
  pose proof (storePointerSample_cap event now window (getCoordinates event)
                t1 Hs1) as Hs2.
  destruct (storePointerSample_kinematics event now window
              (getCoordinates event) t1) as (Hp2 & Hh2 & _).
  set (t2 := storePointerSample _ _ _ _ t1) in *.
  rewrite <- Hp2 in Hp1. rewrite <- Hh2 in Hh1.
  destruct (trackKinematics_cap now (getCoordinates event) t2 Hp1 Hh1)
    as [Hp3 Hh3].
  destruct (trackKinematics_samples now (getCoordinates event) t2)
    as [Hs3 _].
  set (t3 := trackKinematics _ _ t2) in *.
  unfold withinCaps. destruct t3; cbn in *. rewrite Hs3. done.
Qed.

Lemma call_cap c t h : withinCaps t → withinCaps (call c t h).1.
Proof.
  intros Hcaps.
  assert (Hlog : ∀ e d n t0 h0,
            withinCaps t0 → withinCaps (logInteraction e d n t0 h0).1).
  { intros e d n t0 h0 Hcaps0.
    destruct (logInteraction_frame e d n t0 h0)
      as (history & buffer & timer & ->).
    by destruct t0. }
  destruct c; cbn [call fst].
  - by apply trackPointerMove_cap.
  - unfold trackPointerDown. apply Hlog.
    destruct Hcaps as (Hs & Hp & Hh). destruct t; unfold withinCaps; cbn in *.
    lia.
  - unfold trackPointerUp. apply Hlog.
    destruct Hcaps as (Hs & Hp & Hh). destruct t; unfold withinCaps; cbn in *.
    lia.
  - by destruct t.
  - by destruct t.
  - by apply Hlog.
  - by apply Hlog.
  - by apply Hlog.
  - destruct (flushBatch_frame t h) as (buffer & timer & ->). by destruct t.
  - unfold fireTimer. case_bool_decide; [| done].
    destruct (flushBatch_frame t (clearTimeout id h)) as (buffer & timer & ->).
    by destruct t.
  - by destruct t.
Qed.

(** X9: However long a session runs and whatever the pointer does, the
    sample buffer holds at most 1000 samples, the trajectory at most 100
    points and the velocity history at most 10 entries. *)
Theorem buffers_stay_capped sessionId userId participantId calls :
  withinCaps (run calls (new sessionId userId participantId) fresh_host).1.
Proof.
  induction calls as [| c calls IH] using rev_ind.
  - unfold withinCaps. cbn. lia.
  - rewrite run_snoc. by apply call_cap.
Qed.

(** ** Timer and history bookkeeping *)

Lemma flushBatch_bookkeeping t h :
  timerMatchesBuffer t h → accountedFor t h →
  timerMatchesBuffer (flushBatch t h).1 (flushBatch t h).2
  ∧ accountedFor (flushBatch t h).1 (flushBatch t h).2.
Proof.
  unfold timerMatchesBuffer, accountedFor, flushBatch.
  destruct t as [? ? ? history ? ? ? ? ? ? ? ? ? buffer timer ?]; cbn.
  destruct buffer as [| first buffer]; [done |].
  intros (id & -> & Htimers) Hhistory. cbn. rewrite Htimers. split.
  - apply difference_diag_L.
  - by rewrite concat_app, Hhistory; cbn; rewrite !app_nil_r.
Qed.

Lemma addToBuffer_bookkeeping data t h :
  timerMatchesBuffer t h →
  timerMatchesBuffer (addToBuffer data t h).1 (addToBuffer data t h).2
  ∧ (interactions t = concat (batches h) ++ interactionBuffer t ++ [data] →
     accountedFor (addToBuffer data t h).1 (addToBuffer data t h).2).
Proof.
  unfold timerMatchesBuffer, accountedFor, addToBuffer, flushBatch.
  destruct t as [? ? ? history ? ? ? ? ? ? ? ? ? buffer timer ?]; cbn.
  intros Htimer.
  assert (Hcleared :
    timers (match timer with
            | Some id => clearTimeout id h
            | None => h
            end) = ∅).
  { destruct buffer as [| first buffer].
    - destruct timer; cbn; rewrite Htimer; [apply empty_difference_L | done].
    - destruct Htimer as (id & -> & Htimers). cbn. rewrite Htimers.
      apply difference_diag_L. }
  case_bool_decide as Hfull.
  - destruct (buffer ++ [data]) as [| first rest] eqn:Hbuf;
      [by destruct buffer |].
    destruct timer as [id |]; cbn; rewrite <- ?Hbuf.
    + split; [exact Hcleared |]. intros ->.
      by rewrite concat_app; cbn; rewrite !app_nil_r.
    + split; [exact Hcleared |]. intros ->.
      by rewrite concat_app; cbn; rewrite !app_nil_r.
  - split.
    + destruct (buffer ++ [data]) as [| first rest] eqn:Hbuf;
        [by destruct buffer |].
      eexists. split; [reflexivity |].
      destruct timer as [id |]; cbn in *; rewrite Hcleared;
        apply (right_id_L ∅ (∪)).
    + intros ->. by destruct timer.
Qed.

Lemma logInteraction_bookkeeping eventType data now t h :
  timerMatchesBuffer t h → accountedFor t h →
  timerMatchesBuffer (logInteraction eventType data now t h).1
    (logInteraction eventType data now t h).2
  ∧ accountedFor (logInteraction eventType data now t h).1
      (logInteraction eventType data now t h).2.
Proof.
  intros Htimer Hhistory. unfold logInteraction.
  set (interaction := {| i_sessionId := _ |}).
  set (t1 := set_interactions (interactions t ++ [interaction]) t).
  assert (Htimer1 : timerMatchesBuffer t1 h) by (by destruct t).
  destruct (addToBuffer_bookkeeping interaction t1 h Htimer1)
    as [Htimer2 Hhistory2].
  split; [exact Htimer2 |]. apply Hhistory2.
  unfold accountedFor in Hhistory. destruct t; cbn in *.
  by rewrite Hhistory, <- !app_assoc.
Qed.

(** The calls that log nothing leave the history, the buffer, the timer
    and the host alone. *)
Lemma trackPointerMove_bookkeeping event now window t :
  interactions (trackPointerMove event now window t) = interactions t
  ∧ interactionBuffer (trackPointerMove event now window t)
    = interactionBuffer t
  ∧ batchTimer (trackPointerMove event now window t) = batchTimer t.
Proof.
  unfold trackPointerMove, storePointerSample, trackKinematics.
  destruct t; cbn. repeat (case_bool_decide || case_match); done.
Qed.

Lemma call_bookkeeping c t h :
  timerMatchesBuffer t h → accountedFor t h →
  timerMatchesBuffer (call c t h).1 (call c t h).2
  ∧ accountedFor (call c t h).1 (call c t h).2.
Proof.
  intros Htimer Hhistory.
  assert (Hframe : ∀ t',
    interactions t' = interactions t →
    interactionBuffer t' = interactionBuffer t →
    batchTimer t' = batchTimer t →
    timerMatchesBuffer t' h ∧ accountedFor t' h).
  { intros t' Hi Hb Ht. unfold timerMatchesBuffer, accountedFor in *.
    by rewrite Hi, Hb, Ht. }
  destruct c; cbn [call fst snd].
  - destruct (trackPointerMove_bookkeeping event now window t)
      as (Hi & Hb & Ht).
    by apply Hframe.
  - unfold trackPointerDown. apply logInteraction_bookkeeping;
      by destruct t.
  - unfold trackPointerUp. apply logInteraction_bookkeeping;
      by destruct t.
  - apply Hframe; by destruct t.
  - apply Hframe; by destruct t.
  - by apply logInteraction_bookkeeping.
  - by apply logInteraction_bookkeeping.
  - by apply logInteraction_bookkeeping.
  - by apply flushBatch_bookkeeping.
  - unfold fireTimer. case_bool_decide as Harmed; [| done].
    unfold timerMatchesBuffer in Htimer.
    destruct (interactionBuffer t) as [| first buffer] eqn:Hbuffer.
    + rewrite Htimer in Harmed. by apply not_elem_of_empty in Harmed.
    + destruct Htimer as (armed & Hsome & Htimers).
      rewrite Htimers in Harmed. apply elem_of_singleton in Harmed as ->.
      assert (Hflush : flushBatch t (clearTimeout armed h) = flushBatch t h).
      { unfold flushBatch. destruct t; cbn in *. subst.
        f_equal. unfold clearTimeout, note_batch. cbn.
        f_equal. rewrite Htimers.
        by rewrite !difference_diag_L, empty_difference_L. }
      rewrite Hflush. apply flushBatch_bookkeeping; [| done].
      unfold timerMatchesBuffer. rewrite Hbuffer. eauto.
  - apply Hframe; by destruct t.
Qed.

Lemma run_bookkeeping sessionId userId participantId calls :
  let reached := run calls (new sessionId userId participantId) fresh_host in
  timerMatchesBuffer reached.1 reached.2 ∧ accountedFor reached.1 reached.2.
Proof.
  cbv zeta. induction calls as [| c calls IH] using rev_ind.
  - by split.
  - rewrite run_snoc. destruct IH as [Htimer Hhistory].
    by apply call_bookkeeping.
Qed.

(** X10: In every state the tracker reaches, the flush timer is armed exactly
    while the buffer holds something: an interaction never waits in the
    buffer without a pending flush, an empty buffer leaves no timer
    behind, and no second timer is ever armed. *)
Theorem timer_follows_buffer sessionId userId participantId calls :
  let reached := run calls (new sessionId userId participantId) fresh_host in
  timerMatchesBuffer reached.1 reached.2
  ∧ (size (timers reached.2) ≤ 1)%nat
  ∧ (timers reached.2 = ∅ ↔ interactionBuffer reached.1 = []).
Proof.
  cbv zeta.
  destruct (run_bookkeeping sessionId userId participantId calls)
    as [Htimer _].
  split; [exact Htimer |].
  unfold timerMatchesBuffer in Htimer.
  destruct (interactionBuffer _) as [| first buffer].
  - rewrite Htimer. split; [by rewrite size_empty; lia | done].
  - destruct Htimer as (id & _ & ->). split.
    + by rewrite size_singleton.
    + split; [| done]. intros Hempty.
      exfalso. by apply non_empty_singleton_L in Hempty.
Qed.

End TrackerMoreProps.

(* ================================================================== *)
(** * The interaction history *)
(* ================================================================== *)

Section TrackerHistory.
Import Tracker TrackerSpec Scenario TrackerMore.

Lemma flushBatch_grows t h :
  interactions (flushBatch t h).1 = interactions t
  ∧ batches h `prefix_of` batches (flushBatch t h).2
  ∧ ((length (interactionBuffer t) ≤ BATCH_SIZE)%nat →
     Forall sized (batches h) → Forall sized (batches (flushBatch t h).2)).
Proof.
  unfold flushBatch. destruct t as [? ? ? ? ? ? ? ? ? ? ? ? ? buffer timer ?].
  cbn. destruct buffer as [| first buffer]; cbn; [done |].
  destruct timer; cbn; (split; [done |]); (split; [by eexists |]);
    intros Hlen Hall; apply Forall_app; (split; [done |]);
    apply Forall_singleton; unfold sized; cbn; lia.
Qed.

Lemma addToBuffer_grows data t h :
  interactions (addToBuffer data t h).1 = interactions t
  ∧ batches h `prefix_of` batches (addToBuffer data t h).2
  ∧ ((length (interactionBuffer t) < BATCH_SIZE)%nat →
     Forall sized (batches h) →
     Forall sized (batches (addToBuffer data t h).2)).
Proof.
  unfold addToBuffer.
  set (t1 := set_interactionBuffer (interactionBuffer t ++ [data]) t).
  assert (Hi : interactions t1 = interactions t) by (by destruct t).
  assert (Hb : interactionBuffer t1 = interactionBuffer t ++ [data])
    by (by destruct t).
  case_bool_decide as Hfull.
  - destruct (flushBatch_grows t1 h) as (Hinter & Hprefix & Hsized).
    split; [by rewrite Hinter |]. split; [done |].
    intros Hlen. apply Hsized. rewrite Hb, length_app. cbn. lia.
  - destruct (batchTimer t1); destruct t; cbn; done.
Qed.

Lemma logInteraction_grows eventType data now t h :
  (∃ interaction,
     interactions (logInteraction eventType data now t h).1
     = interactions t ++ [interaction]
     ∧ i_eventType interaction = eventType
     ∧ i_timestamp interaction = now
     ∧ i_round interaction = round t)
  ∧ batches h `prefix_of` batches (logInteraction eventType data now t h).2
  ∧ ((length (interactionBuffer t) < BATCH_SIZE)%nat →
     Forall sized (batches h) →
     Forall sized (batches (logInteraction eventType data now t h).2)).
Proof.
  unfold logInteraction.
  set (interaction := {| i_sessionId := _ |}).
  set (t1 := set_interactions (interactions t ++ [interaction]) t).
  destruct (addToBuffer_grows interaction t1 h) as (Hinter & Hprefix & Hsized).
  split; [| split; [done |]].
  - exists interaction. rewrite Hinter. by destruct t.
  - intros Hlen. apply Hsized. by destruct t.
Qed.

Lemma call_grows c t h :
  interactions t `prefix_of` interactions (call c t h).1
  ∧ batches h `prefix_of` batches (call c t h).2
  ∧ ((length (interactionBuffer t) < BATCH_SIZE)%nat →
     Forall sized (batches h) → Forall sized (batches (call c t h).2)).
Proof.
  assert (Hlog : ∀ eventType data now t',
    interactions t' = interactions t →
    interactionBuffer t' = interactionBuffer t →
    round t' = round t →
    interactions t `prefix_of`
      interactions (logInteraction eventType data now t' h).1
    ∧ batches h `prefix_of`
        batches (logInteraction eventType data now t' h).2
    ∧ ((length (interactionBuffer t) < BATCH_SIZE)%nat →
       Forall sized (batches h) →
       Forall sized (batches (logInteraction eventType data now t' h).2))).
  { intros eventType data now t' Hi Hb _.
    destruct (logInteraction_grows eventType data now t' h)
      as ((interaction & Hinter & _) & Hprefix & Hsized).
    rewrite Hinter, Hi, Hb in *. split; [by eexists | done]. }
  destruct c; cbn [call fst snd].
  - destruct (trackPointerMove_bookkeeping event now window t) as (-> & _).
    done.
  - unfold trackPointerDown. apply Hlog; by destruct t.
  - unfold trackPointerUp. apply Hlog; by destruct t.
  - by destruct t.
  - by destruct t.
  - by apply Hlog.
  - by apply Hlog.
  - by apply Hlog.
  - destruct (flushBatch_grows t h) as (-> & Hprefix & Hsized).
    split; [done |]. split; [done |]. intros Hlen. apply Hsized. lia.
  - unfold fireTimer. case_bool_decide; [| done].
    destruct (flushBatch_grows t (clearTimeout id h))
      as (-> & Hprefix & Hsized).
    split; [done |]. split; [done |]. intros Hlen. apply Hsized. lia.
  - by destruct t.
Qed.

Lemma run_grows calls t h :
  interactions t `prefix_of` interactions (run calls t h).1
  ∧ batches h `prefix_of` batches (run calls t h).2
  ∧ ((length (interactionBuffer t) < BATCH_SIZE)%nat →
     Forall sized (batches h) → Forall sized (batches (run calls t h).2)).
Proof.
  induction calls as [| c calls IH] using rev_ind; [done |].
  rewrite run_snoc. destruct IH as (Hi & Hb & Hsized).
  destruct (call_grows c (run calls t h).1 (run calls t h).2)
    as (Hi' & Hb' & Hsized').
  split; [by etrans |]. split; [by etrans |].
  intros Hlen Hall. apply Hsized'; [by apply run_length | by apply Hsized].
Qed.

(** X11: The history that [getAllInteractions] returns is complete and only
    grows: in every state the tracker reaches it is the batches swapped
    out so far, in order, followed by the buffer; every batch holds
    between one and [BATCH_SIZE] interactions; and whatever calls
    follow, the history and the list of batches are extended at the
    end, never rewritten. *)
Theorem history_accounted sessionId userId participantId calls more :
  let reached := run calls (new sessionId userId participantId) fresh_host in
  let later := run more reached.1 reached.2 in
  getAllInteractions reached.1
  = concat (batches reached.2) ++ interactionBuffer reached.1
  ∧ Forall sized (batches reached.2)
  ∧ getAllInteractions reached.1 `prefix_of` getAllInteractions later.1
  ∧ batches reached.2 `prefix_of` batches later.2.
Proof.
  cbv zeta.
  destruct (run_bookkeeping sessionId userId participantId calls)
    as [_ Hhistory].
  destruct (run_grows calls (new sessionId userId participantId) fresh_host)
    as (_ & _ & Hsized).
  destruct (run_grows more
              (run calls (new sessionId userId participantId) fresh_host).1
              (run calls (new sessionId userId participantId) fresh_host).2)
    as (Hi & Hb & _).
  split; [exact Hhistory |]. split; [| done].
  apply Hsized; [cbn; unfold BATCH_SIZE; lia | by apply Forall_nil].
Qed.

End TrackerHistory.

(* ================================================================== *)
(** * Flushing, gestures and recorded kinematics *)
(* ================================================================== *)

Section TrackerGestures.
Import Tracker TrackerSpec Scenario TrackerMore.

(** ** Flushing twice *)

(** X12: A flush leaves nothing to flush, and a timer runs its callback at
    most once: flushing again right after a flush, or firing the same
    timer a second time, changes neither the tracker nor the host. *)
Theorem flushBatch_idempotent id t h :
  let flushed := flushBatch t h in
  let fired := fireTimer id t h in
  interactionBuffer flushed.1 = []
  ∧ flushBatch flushed.1 flushed.2 = flushed
  ∧ (id ∉ timers fired.2)
  ∧ fireTimer id fired.1 fired.2 = fired.
Proof.
  cbv zeta.
  assert (Hflush : ∀ t0 h0, interactionBuffer (flushBatch t0 h0).1 = []
            ∧ timers (flushBatch t0 h0).2 ⊆ timers h0).
  { intros t0 h0. unfold flushBatch.
    destruct t0 as [? ? ? ? ? ? ? ? ? ? ? ? ? buffer timer ?]; cbn.
    destruct buffer; cbn; [done |].
    destruct timer; cbn; (split; [done |]);
      [by apply subseteq_difference_l | done]. }
  assert (Hagain : ∀ t0 h0,
            flushBatch (flushBatch t0 h0).1 (flushBatch t0 h0).2
            = flushBatch t0 h0).
  { intros t0 h0. destruct (Hflush t0 h0) as [Hempty _].
    unfold flushBatch at 1. rewrite Hempty. by destruct (flushBatch t0 h0). }
  split; [apply Hflush |]. split; [apply Hagain |].
  assert (Hgone : id ∉ timers (fireTimer id t h).2).
  { unfold fireTimer. case_bool_decide as Harmed; [| done].
    destruct (Hflush t (clearTimeout id h)) as [_ Hsub].
    intros Hin. apply Hsub in Hin. cbn in Hin.
    apply elem_of_difference in Hin as [_ Hnot].
    apply Hnot. by apply elem_of_singleton. }
  split; [exact Hgone |].
  unfold fireTimer at 1. rewrite bool_decide_eq_false_2 by done.
  by destruct (fireTimer id t h).
Qed.

(** ** A press and its release *)

Lemma logInteraction_history eventType data now t h :
  interactions (logInteraction eventType data now t h).1
  = interactions t ++
    [{| i_sessionId := sessionId t; i_module := "motorSkills";
        i_round := round t; i_eventType := eventType; i_timestamp := now;
        i_data := data |}].
Proof.
  destruct (logInteraction_grows eventType data now t h)
    as ((interaction & Hinter & _) & _).
  unfold logInteraction in *.
  destruct (addToBuffer_grows
              {| i_sessionId := sessionId t; i_module := "motorSkills";
                 i_round := round t; i_eventType := eventType;
                 i_timestamp := now; i_data := data |}
              (set_interactions
                 (interactions t ++
                  [{| i_sessionId := sessionId t; i_module := "motorSkills";
                      i_round := round t; i_eventType := eventType;
                      i_timestamp := now; i_data := data |}]) t) h)
    as (-> & _).
  by destruct t.
Qed.





End TrackerGestures.

(* ================================================================== *)
(** * What the tracker measures *)
(* ================================================================== *)

Section TrackerKinematics.
Import Tracker TrackerSpec Scenario TrackerMore.

(** ** The shape of a gesture *)

Lemma chained_snoc {A} (R : A → A → Prop) l x :
  chained R l → (∀ a, last l = Some a → R a x) → chained R (l ++ [x]).
Proof.
  intros Hchain Hlast i a b Ha Hb.
  destruct (decide (S i < length l)%nat) as [Hlt | Hge].
  - rewrite lookup_app_l in Ha by lia. rewrite lookup_app_l in Hb by lia.
    eauto.
  - assert (Hi : S i = length l).
    { apply lookup_lt_Some in Hb. rewrite length_app in Hb. cbn in Hb. lia. }
    rewrite lookup_app_l in Ha by lia.
    rewrite lookup_app_r in Hb by lia.
    replace (S i - length l)%nat with 0%nat in Hb by lia.
    injection Hb as <-. apply Hlast.
    rewrite last_lookup. rewrite <- Hi. exact Ha.
Qed.

Lemma chained_drop {A} (R : A → A → Prop) n l :
  chained R l → chained R (drop n l).
Proof.
  intros Hchain i a b Ha Hb. rewrite lookup_drop in Ha, Hb.
  apply (Hchain (n + i)%nat); [done |]. by rewrite <- Nat.add_succ_r.
Qed.

Lemma trackKinematics_shape now coords t :
  gestureShape t → gestureShape (trackKinematics now coords t).
Proof.
  intros [Htimes Hempty]. unfold trackKinematics.
  destruct (lastPosition t) as [lastPos |]; [| done].
  case_bool_decide as Hdt; [| done].
  destruct t as [? ? ? ? ? ? ? history points ? ? ? ? ? ? ?].
  unfold gestureShape in *. cbn in *.
  set (point := {| p_x := _ |}).
  assert (Hnew : timesIncrease (points ++ [point])).
  { apply chained_snoc; [done |]. intros a Ha. cbn.
    unfold lastPointTime in Hdt. rewrite Ha in Hdt.
    case_bool_decide; lia. }
  case_bool_decide as Hbig.
  - split; [by apply chained_drop |].
    intros Hnil. apply (f_equal length) in Hnil.
    unfold slice_last in Hnil. rewrite length_drop in Hnil. cbn in Hnil. lia.
  - split; [done |]. intros Hnil. by destruct points.
Qed.

Lemma trackPointerMove_shape event now window t :
  gestureShape t → gestureShape (trackPointerMove event now window t).
Proof.
  intros Hshape. unfold trackPointerMove.
  case_bool_decide; [done |].
  set (t1 := set_lastMoveTrackTime now t).
  destruct (storePointerSample_kinematics event now window
              (getCoordinates event) t1) as (Hp2 & Hh2 & _).
  set (t2 := storePointerSample _ _ _ _ t1) in *.
  assert (Hshape2 : gestureShape t2).
  { unfold gestureShape. rewrite Hp2, Hh2. by destruct t. }
  pose proof (trackKinematics_shape now (getCoordinates event) t2 Hshape2)
    as Hshape3.
  set (t3 := trackKinematics _ _ t2) in *.
  by destruct t3.
Qed.

Lemma call_shape c t h : gestureShape t → gestureShape (call c t h).1.
Proof.
  intros Hshape.
  assert (Hlog : ∀ e d n t0 h0,
            gestureShape t0 → gestureShape (logInteraction e d n t0 h0).1).
  { intros e d n t0 h0 Hshape0.
    destruct (logInteraction_frame e d n t0 h0)
      as (history & buffer & timer & ->).
    by destruct t0. }
  destruct c; cbn [call fst].
  - by apply trackPointerMove_shape.
  - unfold trackPointerDown. apply Hlog.
    destruct t; split; cbn; [| done].
    intros [| i] a b Ha Hb; done.
  - unfold trackPointerUp. apply Hlog.
    destruct t; split; cbn; [| done].
    intros i a b Ha; done.
  - by destruct t.
  - by destruct t.
  - by apply Hlog.
  - by apply Hlog.
  - by apply Hlog.
  - destruct (flushBatch_frame t h) as (buffer & timer & ->). by destruct t.
  - unfold fireTimer. case_bool_decide; [| done].
    destruct (flushBatch_frame t (clearTimeout id h)) as (buffer & timer & ->).
    by destruct t.
  - by destruct t.
Qed.

(** X14: Kinematics are measured during a gesture only.  In every state the
    tracker reaches, the trajectory points are in strictly increasing order
    of time, so that the time step that divides a distance is never 0;
    and while the trajectory is empty (before the first press and after
    every release) the velocity history is empty too and a pointer move
    records neither a point nor a velocity. *)
Theorem kinematics_need_press sessionId userId participantId calls :
  let reached := (run calls (new sessionId userId participantId)
                    fresh_host).1 in
  timesIncrease (trajectoryPoints reached)
  ∧ (trajectoryPoints reached = [] →
     velocityHistory reached = []
     ∧ ∀ event now window,
         trajectoryPoints (trackPointerMove event now window reached) = []
         ∧ velocityHistory (trackPointerMove event now window reached) = []).
Proof.
  cbv zeta.
  assert (Hshape : gestureShape
            (run calls (new sessionId userId participantId) fresh_host).1).
  { induction calls as [| c calls IH] using rev_ind.
    - split; [| done]. intros i a b Ha; done.
    - rewrite run_snoc. by apply call_shape. }
  set (reached := (run calls _ _).1) in *.
  destruct Hshape as [Htimes Hempty]. split; [exact Htimes |].
  intros Hnil. specialize (Hempty Hnil). split; [exact Hempty |].
  intros event now window. unfold trackPointerMove.
  case_bool_decide; [done |].
  set (t1 := set_lastMoveTrackTime now reached).
  destruct (storePointerSample_kinematics event now window
              (getCoordinates event) t1) as (Hp2 & Hh2 & _).
  set (t2 := storePointerSample _ _ _ _ t1) in *.
  assert (Hp : trajectoryPoints t2 = []) by (rewrite Hp2; by destruct reached).
  assert (Hh : velocityHistory t2 = []) by (rewrite Hh2; by destruct reached).
  unfold trackKinematics. rewrite Hp.
  destruct (lastPosition t2); cbn.
  - rewrite bool_decide_eq_false_2 by (unfold lastPointTime; cbn; lia).
    by destruct t2.
  - by destruct t2.
Qed.

(** ** Finite measurements *)

Lemma finiteCoords_fin coords :
  finiteCoords coords →
  ∃ x y : R, c_x coords = Js.Fin x ∧ c_y coords = Js.Fin y.
Proof.
  unfold finiteCoords. destruct (c_x coords), (c_y coords); cbn;
    intros [? ?]; try done; eauto.
Qed.

Lemma trackKinematics_finite now coords t :
  finiteKinematics t → finiteCoords coords →
  finiteKinematics (trackKinematics now coords t).
Proof.
  intros Hfinite Hcoords. unfold trackKinematics.
  destruct (lastPosition t) as [lastPos |] eqn:HlastPos; [| done].
  case_bool_decide as Hdt; [| done].
  destruct Hfinite as (Hhistory & Hpoints & Hlast).
  rewrite HlastPos in Hlast. cbn in Hlast.
  destruct (finiteCoords_fin coords Hcoords) as (x & y & Hx & Hy).
  destruct (finiteCoords_fin lastPos Hlast) as (x0 & y0 & Hx0 & Hy0).
  rewrite Hx, Hy, Hx0, Hy0. cbn [Js.sub Js.neg Js.add].
  rewrite hypot_fin. unfold Js.ofZ.
  rewrite (div_fin _ 1000) by lra.
  set (dt := now - lastPointTime now (trajectoryPoints t)) in *.
  assert (Hseconds : (0 < IZR dt / 1000)%R).
  { apply Rdiv_lt_0_compat; [by apply (IZR_lt 0) | lra]. }
  set (seconds := (IZR dt / 1000)%R) in *.
  rewrite (div_fin _ seconds) by lra.
  set (dist := R_sqrt.sqrt _).
  assert (Hvelocity : (0 <= dist / seconds)%R).
  { apply Rmult_le_pos; [apply sqrt_pos |].
    left. by apply Rinv_0_lt_compat. }
  assert (Hacc : Js.is_finite
            match last (velocityHistory t) with
            | Some v =>
                Js.div (Js.sub (Js.Fin (dist / seconds)) (v_velocity v))
                  (Js.Fin seconds)
            | None => Js.zero
            end).
  { destruct (last (velocityHistory t)) as [v |] eqn:Hv; [| done].
    apply last_Some_elem_of in Hv.
    destruct (proj1 (Forall_forall _ _) Hhistory v Hv)
      as [(r & -> & _) _].
    cbn [Js.sub Js.neg Js.add]. rewrite div_fin by lra. done. }
  set (acceleration := match last (velocityHistory t) with
                       | Some _ => _ | None => _ end) in *.
  destruct t as [? ? ? ? ? ? ? history points ? ? ? ? ? ? ?].
  unfold finiteKinematics. cbn in *. subst. split; [| split; [| done]].
  - assert (Hall : Forall finiteVelocity
              (history ++ [{| v_velocity := Js.Fin (dist / seconds);
                              v_acceleration := acceleration;
                              v_time := now |}])).
    { apply Forall_app. split; [done |]. apply Forall_singleton.
      split; [by eexists | done]. }
    case_bool_decide; [by apply Forall_drop | done].
  - assert (Hall : Forall measuredPoint
              (points ++ [{| p_x := Js.Fin x; p_y := Js.Fin y;
                             p_time := now;
                             p_velocity := Some (Js.Fin (dist / seconds));
                             p_acceleration := Some acceleration |}])).
    { apply Forall_app. split; [done |]. apply Forall_singleton.
      split; [done |]. split; [by eexists | done]. }
    case_bool_decide; [by apply Forall_drop | done].
Qed.

Lemma trackPointerMove_finite event now window t :
  finiteKinematics t → finiteEvent event →
  finiteKinematics (trackPointerMove event now window t).
Proof.
  intros Hfinite Hevent. unfold trackPointerMove.
  case_bool_decide; [done |].
  set (t1 := set_lastMoveTrackTime now t).
  destruct (storePointerSample_kinematics event now window
              (getCoordinates event) t1) as (Hp2 & Hh2 & Hl2).
  set (t2 := storePointerSample _ _ _ _ t1) in *.
  assert (Hfinite2 : finiteKinematics t2).
  { unfold finiteKinematics. rewrite Hp2, Hh2, Hl2. by destruct t. }
  pose proof (trackKinematics_finite now (getCoordinates event) t2
                Hfinite2 Hevent) as (Hh3 & Hp3 & _).
  set (t3 := trackKinematics _ _ t2) in *.
  unfold finiteKinematics. by destruct t3.
Qed.

Lemma call_finite c t h :
  finiteCall c → finiteKinematics t → finiteKinematics (call c t h).1.
Proof.
  intros Hc Hfinite.
  assert (Hlog : ∀ e d n t0 h0,
    finiteKinematics t0 → finiteKinematics (logInteraction e d n t0 h0).1).
  { intros e d n t0 h0 Hfinite0.
    destruct (logInteraction_frame e d n t0 h0)
      as (history & buffer & timer & ->).
    by destruct t0. }
  destruct c; cbn [call fst]; cbn in Hc.
  - by apply trackPointerMove_finite.
  - unfold trackPointerDown. apply Hlog.
    destruct Hfinite as (Hh & _ & _).
    destruct t; unfold finiteKinematics; cbn in *.
    split; [done |]. split; [| done].
    apply Forall_singleton. by split.
  - unfold trackPointerUp. apply Hlog.
    destruct t; unfold finiteKinematics; cbn. done.
  - by destruct t.
  - by destruct t.
  - by apply Hlog.
  - by apply Hlog.
  - by apply Hlog.
  - destruct (flushBatch_frame t h) as (buffer & timer & ->). by destruct t.
  - unfold fireTimer. case_bool_decide; [| done].
    destruct (flushBatch_frame t (clearTimeout id h)) as (buffer & timer & ->).
    by destruct t.
  - by destruct t.
Qed.

Lemma run_finite calls t h :
  Forall finiteCall calls → finiteKinematics t →
  finiteKinematics (run calls t h).1.
Proof.
  induction calls as [| c calls IH] using rev_ind; [done |].
  intros Hall Hfinite. apply Forall_app in Hall as [Hcalls Hc].
  rewrite Forall_singleton in Hc.
  rewrite run_snoc. apply call_finite; [done |]. by apply IH.
Qed.

Lemma finiteKinematics_new sessionId userId participantId :
  finiteKinematics (new sessionId userId participantId).
Proof. unfold finiteKinematics. cbn. done. Qed.

Lemma onGrid_finite v : onGrid v → Js.is_finite v.
Proof. by intros (m & -> & _). Qed.

Lemma hostCall_finite c : hostCall c → finiteCall c.
Proof.
  destruct c; cbn; try done; intros [[Hx Hy] _];
    split; by apply onGrid_finite.
Qed.

Lemma onGrid_ofZ (z : Z) : - 2 ^ 20 ≤ z ≤ 2 ^ 20 → onGrid (Js.ofZ z).
Proof.
  intros Hz. exists (z * 2 ^ 32). split; [| lia].
  unfold Js.ofZ. f_equal. rewrite mult_IZR.
  change (2 ^ 32) with (2 ^ Z.of_nat 32). rewrite <- pow_IZR.
  field; apply pow_nonzero; lra.
Qed.

Lemma hostEvent_cursor (x y : Z) :
  - 2 ^ 20 ≤ x ≤ 2 ^ 20 → - 2 ^ 20 ≤ y ≤ 2 ^ 20 →
  hostEvent (cursorEvent (Js.ofZ x) (Js.ofZ y)).
Proof.
  intros Hx Hy. unfold hostEvent, getCoordinates, cursorEvent.
  cbn [touches clientX clientY c_x c_y Js.or_default].
  split; destruct (Js.truthy _);
    first [by apply onGrid_ofZ | by apply (onGrid_ofZ 0)].
Qed.

Lemma hostCall_dragCalls : Forall hostCall dragCalls.
Proof.
  unfold dragCalls.
  repeat (apply Forall_cons_2;
          [split; [apply hostEvent_cursor; lia | unfold hostClock; lia] |]).
  apply Forall_nil_2.
Qed.

(** X15: As long as the pointer events report positions on the grid and the
    clock returns time values, every velocity the tracker records is a
    finite number that is not negative and every acceleration is finite:
    the division by the time step never yields [NaN] or an infinity. *)
Theorem recorded_kinematics_finite sessionId userId participantId calls :
  Forall hostCall calls →
  let reached := (run calls (new sessionId userId participantId)
                    fresh_host).1 in
  Forall finiteVelocity (velocityHistory reached)
  ∧ Forall measuredPoint (trajectoryPoints reached).
Proof.
  intros Hcalls reached.
  assert (Hfinite : Forall finiteCall calls).
  { eapply Forall_impl; [exact Hcalls | exact hostCall_finite]. }
  destruct (run_finite calls (new sessionId userId participantId)
              fresh_host Hfinite
              (finiteKinematics_new sessionId userId participantId))
    as (Hh & Hp & _).
  done.
Qed.

(** The drag of the example: a press and two moves 40 ms apart. *)
Lemma recorded_kinematics_finite_witness :
  Forall hostCall dragCalls
  ∧ Forall finiteVelocity
      (velocityHistory (run dragCalls session1 fresh_host).1).
Proof.
  split; [exact hostCall_dragCalls |].
  apply (recorded_kinematics_finite "session_1" None "participant_1"
           dragCalls).
  exact hostCall_dragCalls.
Defined.

End TrackerKinematics.

(* ================================================================== *)
(** * The analyzer on what the tracker records *)
(* ================================================================== *)

Section TrackerAnalysis.
Import Tracker TrackerSpec Scenario TrackerMore.
Local Open Scope R_scope.

(** ** Jerkiness *)

Lemma sum_finite (values : list JsNum) (acc : R) :
  Forall Js.is_finite values →
  ∃ total : R, foldl Js.add (Js.Fin acc) values = Js.Fin total.
Proof.
  intros Hall. revert acc.
  induction Hall as [| v values Hv _ IH]; intros acc; [by exists acc |].
  destruct v; try done. cbn [foldl Js.add]. apply IH.
Qed.

Lemma squares_finite (values : list JsNum) (mean acc : R) :
  Forall Js.is_finite values → 0 <= acc →
  ∃ total : R,
    foldl (λ total v, Js.add total (Js.pow2 (Js.sub v (Js.Fin mean))))
      (Js.Fin acc) values = Js.Fin total
    ∧ 0 <= total.
Proof.
  intros Hall. revert acc.
  induction Hall as [| v values Hv _ IH]; intros acc Hacc; [by exists acc |].
  destruct v as [r | | |]; try done.
  cbn [foldl]. unfold Js.pow2. cbn [Js.sub Js.neg Js.add Js.mul].
  apply IH. pose proof (Rle_0_sqr (r + - mean)) as Hsq.
  unfold Rsqr in Hsq. lra.
Qed.

(** X16: [calculateJerkiness] on a history of at most ten entries with
    bounded accelerations is a finite number that is not negative: the
    standard deviation of the accelerations.  It is 0 for fewer than
    three entries, whatever they hold. *)
Theorem calculateJerkiness_magnitude t :
  (length (velocityHistory t) ≤ 10)%nat →
  Forall boundedAcceleration (velocityHistory t) →
  magnitude (calculateJerkiness t)
  ∧ ((length (velocityHistory t) < 3)%nat → calculateJerkiness t = Js.zero).
Proof.
  intros _ Hall. unfold calculateJerkiness.
  case_bool_decide as Hshort.
  { split; [exists 0; split; [done | lra] | done]. }
  assert (Hfin : Forall Js.is_finite (v_acceleration <$> velocityHistory t)).
  { apply Forall_fmap. eapply Forall_impl; [exact Hall |].
    by intros v (a & Ha & _); cbn; rewrite Ha. }
  set (accelerations := v_acceleration <$> velocityHistory t) in *.
  assert (Hcount : 0 < IZR (Z.of_nat (length accelerations))).
  { apply (IZR_lt 0). unfold accelerations. rewrite length_fmap. lia. }
  set (count := IZR (Z.of_nat (length accelerations))) in *.
  split; [| intros Hlt; lia].
  destruct (sum_finite accelerations 0 Hfin) as (total & Hsum).
  unfold sum, Js.zero, Js.ofZ. rewrite Hsum.
  fold count. rewrite div_fin by lra.
  destruct (squares_finite accelerations (total / count) 0 Hfin)
    as (squares & -> & Hsquares); [lra |].
  rewrite div_fin by lra.
  assert (Hvar : 0 <= squares / count).
  { apply Rmult_le_pos; [done |]. left. by apply Rinv_0_lt_compat. }
  rewrite sqrt_fin by done. eexists. split; [done |]. apply sqrt_pos.
Qed.

Lemma boundedAcceleration_small v (z : Z) :
  v_acceleration v = Js.ofZ z → (- 8 ≤ z ≤ 8)%Z → boundedAcceleration v.
Proof.
  intros Ha [Hlo Hhi]. exists (IZR z). split; [done |].
  apply Rle_trans with (2 ^ 3).
  - apply IZR_le in Hlo, Hhi. apply Rabs_le. cbn [pow]. lra.
  - apply Rle_pow; [lra | lia].
Qed.

(** Three entries with the accelerations 0, 5 and -2. *)
Lemma calculateJerkiness_magnitude_witness :
  (length (velocityHistory threeVelocities) ≤ 10)%nat
  ∧ magnitude (calculateJerkiness threeVelocities).
Proof.
  assert (Hlength : (length (velocityHistory threeVelocities) ≤ 10)%nat).
  { cbn. lia. }
  split; [exact Hlength |].
  apply (calculateJerkiness_magnitude threeVelocities Hlength).
  unfold threeVelocities, session1.
  cbn [velocityHistory set_velocityHistory new].
  repeat (apply Forall_cons_2;
          [eapply boundedAcceleration_small; [reflexivity | lia] |]).
  apply Forall_nil_2.
Defined.

(** ** Straightness and smoothness of recorded gestures *)

Lemma measuredPoint_finite points :
  Forall measuredPoint points → Forall finitePoint points.
Proof.
  intros Hall. eapply Forall_impl; [exact Hall |]. by intros p [Hp _].
Qed.

Lemma truthyVelocities_positive points :
  Forall measuredPoint points →
  Forall positive (truthyVelocities points).
Proof.
  induction 1 as [| p points (_ & Hv & _) _ IH]; [done |].
  unfold truthyVelocities in *. cbn.
  destruct (p_velocity p) as [v |]; cbn in Hv |- *; [| exact IH].
  destruct Hv as (r & -> & Hr).
  destruct (Js.truthy (Js.Fin r)) eqn:Htruthy; cbn; [| exact IH].
  apply Forall_cons_2; [| exact IH].
  apply truthy_fin in Htruthy. exists r. split; [done | lra].
Qed.

(** X17: On every gesture the tracker records from pointer events at
    positions on the grid, with a clock that returns time values,
    straightness and smoothness are each either [NaN] or a number between
    0 and 1: never an infinity, never negative, never above 1.  For two
    or more points, smoothness is [NaN] exactly when no recorded velocity
    differs from 0. *)
Theorem metrics_of_recorded_gestures sessionId userId participantId calls :
  Forall hostCall calls →
  let reached := (run calls (new sessionId userId participantId)
                    fresh_host).1 in
  let metrics := analyzeTrajectory reached in
  (straightness metrics = Js.NaN
   ∨ ∃ s, straightness metrics = Js.Fin s ∧ 0 <= s <= 1)
  ∧ (smoothness metrics = Js.NaN
     ∨ ∃ s, smoothness metrics = Js.Fin s ∧ 0 <= s <= 1)
  ∧ ((2 ≤ length (trajectoryPoints reached))%nat →
     (smoothness metrics = Js.NaN
      ↔ truthyVelocities (trajectoryPoints reached) = [])).
Proof.
  intros Hhost reached metrics.
  assert (Hcalls : Forall finiteCall calls).
  { eapply Forall_impl; [exact Hhost | exact hostCall_finite]. }
  destruct (run_finite calls (new sessionId userId participantId)
              fresh_host Hcalls
              (finiteKinematics_new sessionId userId participantId))
    as (_ & Hpoints & _).
  fold reached in Hpoints. clearbody reached.
  pose proof (measuredPoint_finite _ Hpoints) as Hfinite.
  pose proof (truthyVelocities_positive _ Hpoints) as Hpositive.
  destruct (trajectoryPoints reached) as [| first [| second rest]] eqn:Hp.
  - unfold metrics, analyzeTrajectory. rewrite Hp. cbn.
    split; [right; exists 1; split; [done | lra] |].
    split; [right; exists 1; split; [done | lra] |]. lia.
  - unfold metrics, analyzeTrajectory. rewrite Hp. cbn.
    split; [right; exists 1; split; [done | lra] |].
    split; [right; exists 1; split; [done | lra] |]. lia.
  - assert (Hlen : (2 ≤ length (trajectoryPoints reached))%nat)
      by (rewrite Hp; cbn; lia).
    split; [| split].
    + destruct (straightness_bounds reached first second rest Hp Hfinite)
        as [[_ Hnan] | [_ Hs]]; [by left | by right].
    + destruct (decide (truthyVelocities (trajectoryPoints reached) = []))
        as [Hnone | Hsome].
      * left. by apply analyzeTrajectory_no_velocity.
      * right. apply smoothness_bounds; [done | done |]. by rewrite Hp.
    + intros _. split.
      * intros Hnan.
        destruct (decide (truthyVelocities (trajectoryPoints reached) = []))
          as [Hnone | Hsome]; [by rewrite <- Hp |].
        destruct (smoothness_bounds reached Hlen Hsome) as (s & Hs & _);
          [by rewrite Hp |].
        fold metrics in Hs. congruence.
      * intros Hnone. apply analyzeTrajectory_no_velocity; [done |].
        by rewrite Hp.
Qed.

(** The drag of the example: a press and two moves. *)
Lemma metrics_of_recorded_gestures_witness :
  Forall hostCall dragCalls
  ∧ (straightness (analyzeTrajectory (run dragCalls session1 fresh_host).1)
     = Js.NaN
     ∨ ∃ s, straightness
              (analyzeTrajectory (run dragCalls session1 fresh_host).1)
            = Js.Fin s ∧ 0 <= s <= 1).
Proof.
  split; [exact hostCall_dragCalls |].
  apply (metrics_of_recorded_gestures "session_1" None "participant_1"
           dragCalls).
  exact hostCall_dragCalls.
Defined.

(** ** A straight gesture *)

Lemma toFixedR_one : Js.toFixedR 3 1 = 1.
Proof.
  unfold Js.toFixedR, Js.round_half_up.
  rewrite bool_decide_eq_false_2 by lra.
  change (IZR (10 ^ Z.of_nat 3)) with 1000.
  rewrite <- (Int_part_spec (1 * 1000 + / 2) 1000) by lra.
  field.
Qed.

Lemma gridPoint_finite p : gridPoint p → finitePoint p.
Proof. intros [Hx Hy]. split; by apply onGrid_finite. Qed.

(** X18: A gesture of at most a hundred points on the grid whose path is as
    long as the chord from its first to its last point, and not of
    length 0, has straightness exactly 1; a gesture of two points at
    different positions is one. *)
Theorem straight_gesture_scores_one t first second rest :
  trajectoryPoints t = first :: second :: rest →
  (length (trajectoryPoints t) ≤ 100)%nat →
  Forall gridPoint (first :: second :: rest) →
  0 < polyline first (second :: rest) →
  polyline first (second :: rest)
  = distance first (default first (last (first :: second :: rest))) →
  straightness (analyzeTrajectory t) = Js.ofZ 1.
Proof.
  intros Hpoints _ Hgrid Hpos Hchord.
  assert (Hall : Forall finitePoint (first :: second :: rest)).
  { eapply Forall_impl; [exact Hgrid | exact gridPoint_finite]. }
  pose proof (Forall_inv Hall) as Hfirst.
  pose proof (Forall_inv_tail Hall) as Hrest.
  assert (Hlastfin :
    finitePoint (default first (last (first :: second :: rest)))).
  { destruct (last (first :: second :: rest)) as [p |] eqn:Hl; [| done].
    apply last_Some_elem_of in Hl.
    by apply (proj1 (Forall_forall _ _) Hall). }
  unfold analyzeTrajectory. rewrite Hpoints. cbn [straightness].
  unfold Js.zero. rewrite pathLengthLoop_finite by done.
  rewrite Rplus_0_l.
  destruct (finitePoint_coords _ Hfirst) as [-> ->].
  destruct (finitePoint_coords _ Hlastfin) as [-> ->].
  unfold Js.pow2. cbn [Js.sub Js.neg Js.add]. rewrite hypot_fin.
  match goal with
  | |- context [Js.Fin (R_sqrt.sqrt ?e)] =>
      assert (Hnum : R_sqrt.sqrt e = polyline first (second :: rest))
  end.
  { rewrite Hchord. unfold distance, dist_euc. f_equal. unfold Rsqr. ring. }
  rewrite Hnum. set (path := polyline first (second :: rest)) in *.
  rewrite div_fin by lra. cbn [Js.toFixed]. unfold Js.ofZ. f_equal.
  replace (path / path) with 1 by (field; lra).
  apply toFixedR_one.
Qed.

(** Two points 50 px apart. *)
Lemma straight_gesture_scores_one_witness :
  Forall gridPoint (trajectoryPoints twoPoints)
  ∧ straightness (analyzeTrajectory twoPoints) = Js.ofZ 1.
Proof.
  assert (Hlength : R_sqrt.sqrt (Rsqr (100 - 130) + Rsqr (50 - 90)) = 50).
  { replace (Rsqr (100 - 130) + Rsqr (50 - 90)) with (Rsqr 50)
      by (unfold Rsqr; lra).
    apply sqrt_Rsqr. lra. }
  assert (Hgrid : Forall gridPoint (trajectoryPoints twoPoints)).
  { unfold twoPoints, session1.
    cbn [trajectoryPoints set_trajectoryPoints new].
    repeat (apply Forall_cons_2;
            [split; cbn [p_x p_y]; apply onGrid_ofZ; lia |]).
    apply Forall_nil_2. }
  split; [exact Hgrid |].
  eapply (straight_gesture_scores_one twoPoints).
  - reflexivity.
  - cbn. lia.
  - exact Hgrid.
  - cbn. unfold distance, dist_euc, realX, realY. cbn. rewrite Hlength. lra.
  - cbn. unfold distance, dist_euc, realX, realY. cbn. rewrite Hlength. lra.
Defined.

End TrackerAnalysis.

(* ================================================================== *)
(** * Properties of the performance metrics *)
(* ================================================================== *)

Section PerformanceMetricsProps.
Import PerformanceMetrics.
Local Open Scope R_scope.

Lemma perfRun_snoc calls c p :
  perfRun (calls ++ [c]) p = perfCall c (perfRun calls p).
Proof. unfold perfRun. by rewrite foldl_app. Qed.

Lemma total_snoc values x : total (values ++ [x]) = total values + x.
Proof. unfold total. by rewrite foldl_app. Qed.

Lemma frameClock_snoc calls c :
  frameClock (calls ++ [c])
  = frameClock calls ++
    match c with Frame now => [now] | InputAt _ _ => [] end.
Proof.
  unfold frameClock. rewrite omap_app. by destruct c.
Qed.

(** From [startTracking] at [start] on, through any frames and input
    events: tracking stays on, the last frame is remembered, one frame
    time is kept per frame and the frame times add up to the time from
    [start] to the last frame; the count of dropped frames is never
    negative; and every input event kept has a timestamp other than 0 and
    the lag between that timestamp and the time it was handled. *)
Lemma perfRun_bookkeeping start p0 calls :
  let p := perfRun calls (startTracking start p0) in
  let lastFrame := default start (last (frameClock calls)) in
  isTrackingRef p = true
  ∧ lastFrameTimeRef p = Some lastFrame
  ∧ length (frameTimesRef p) = length (frameClock calls)
  ∧ total (frameTimesRef p) = lastFrame - start
  ∧ (0 ≤ droppedFramesRef p)%Z
  ∧ Forall (λ e, eventTime e ≠ 0 ∧ lag e = processTime e - eventTime e)
      (inputEventsRef p).
Proof.
  cbv zeta. induction calls as [| c calls IH] using rev_ind.
  - cbn. unfold total. cbn. repeat split; [lra | done | done].
  - rewrite perfRun_snoc, frameClock_snoc.
    destruct IH as (Htracking & Hlast & Hlen & Htotal & Hdropped & Hinputs).
    set (p := perfRun calls (startTracking start p0)) in *.
    destruct c as [now | eventTimestamp now]; cbn [perfCall].
    + unfold recordFrame. rewrite Htracking, Hlast. cbn.
      rewrite last_snoc. cbn. rewrite total_snoc, !length_app, Hlen, Htotal.
      cbn. repeat split; [lra | | done].
      case_bool_decide as Hslow; [| done].
      assert (Hfloor : (1 ≤ Int_part
                (((now - default start (last (frameClock calls)))
                  / (1667 / 100))))%Z).
      { set (frameTime := now - _) in *.
        destruct (base_Int_part (frameTime / (1667 / 100))) as [_ Hgt].
        assert (Hratio : 1 < frameTime / (1667 / 100)).
        { apply (Rmult_lt_reg_r (1667 / 100)); [lra |].
          replace (frameTime / (1667 / 100) * (1667 / 100)) with frameTime
            by (field; lra).
          lra. }
        assert (Hpos : (0 < Int_part (frameTime / (1667 / 100)))%Z)
          by (apply lt_IZR; lra).
        lia. }
      lia.
    + rewrite app_nil_r. unfold recordInputEvent. rewrite Htracking. cbn.
      destruct eventTimestamp as [timestamp |]; [| done].
      case_bool_decide as Hzero; [done |]. cbn.
      repeat split; try done.
      apply Forall_app. split; [done |]. apply Forall_singleton. done.
Qed.

(** X20: One frame time per frame.  Whatever the game records between
    [startTracking] at [start] and the report, the hook keeps one frame
    time for each frame and remembers the time of the last frame; the
    report has an average frame time exactly when a frame was recorded;
    and its count of dropped frames is the one kept, which is never
    negative. *)
Theorem frames_counted start p0 calls :
  let p := perfRun calls (startTracking start p0) in
  let frames := frameClock calls in
  length (frameTimesRef p) = length frames
  ∧ lastFrameTimeRef p = Some (default start (last frames))
  ∧ (avgFrameMs (computeMetrics p) = None ↔ frames = [])
  ∧ droppedFrames (computeMetrics p) = droppedFramesRef p
  ∧ (0 ≤ droppedFrames (computeMetrics p))%Z.
Proof.
  cbv zeta.
  destruct (perfRun_bookkeeping start p0 calls)
    as (_ & Hlast & Hlen & _ & Hdropped & _).
  set (p := perfRun calls (startTracking start p0)) in *.
  split; [exact Hlen |]. split; [exact Hlast |].
  unfold computeMetrics.
  destruct (frameTimesRef p) as [| frameTime frameTimes] eqn:Hframes.
  - destruct (frameClock calls); [| discriminate]. cbn.
    split; [done |].
    assert (Hzero : droppedFramesRef p = 0%Z); [| by rewrite Hzero].
    clear -Hframes. revert Hframes. unfold p. clear p.
    induction calls as [| c calls IH] using rev_ind; [done |].
    rewrite perfRun_snoc.
    destruct (perfRun_bookkeeping start p0 calls) as (Htracking & Hlast & _).
    destruct c as [now | eventTimestamp now]; cbn [perfCall].
    + unfold recordFrame. rewrite Htracking, Hlast. cbn.
      intros Hnil. by destruct (frameTimesRef _).
    + unfold recordInputEvent. rewrite Htracking. cbn.
      destruct eventTimestamp as [timestamp |]; [| exact IH].
      by case_bool_decide.
  - destruct (frameClock calls) as [| frame frames]; [discriminate |].
    cbn [avgFrameMs droppedFrames]. done.
Qed.

Lemma recordFrame_nonneg now p last_ :
  isTrackingRef p = true → lastFrameTimeRef p = Some last_ →
  last_ <= now →
  Forall (Rle 0) (frameTimesRef p) →
  IZR (droppedFramesRef p) * (1667 / 100) <= total (frameTimesRef p) →
  Forall (Rle 0) (frameTimesRef (recordFrame now p))
  ∧ IZR (droppedFramesRef (recordFrame now p)) * (1667 / 100)
    <= total (frameTimesRef (recordFrame now p)).
Proof.
  intros Htracking Hlast Hclock Hall Hbound.
  unfold recordFrame. rewrite Htracking, Hlast. cbn.
  rewrite total_snoc. split.
  - apply Forall_app. split; [done |]. apply Forall_singleton. lra.
  - case_bool_decide as Hslow; [| lra].
    set (frameTime := now - last_) in *.
    destruct (base_Int_part (frameTime / (1667 / 100))) as [Hle _].
    rewrite plus_IZR, minus_IZR.
    assert (Hscaled : IZR (Int_part (frameTime / (1667 / 100)))
                      * (1667 / 100) <= frameTime).
    { replace frameTime with (frameTime / (1667 / 100) * (1667 / 100)) at 2
        by (field; lra).
      apply Rmult_le_compat_r; [lra | done]. }
    lra.
Qed.

Lemma nondecreasing_snoc start times time :
  nondecreasing start (times ++ [time])
  ↔ nondecreasing start times ∧ default start (last times) <= time.
Proof.
  revert start. induction times as [| t times IH]; intros start.
  - cbn. tauto.
  - cbn [app nondecreasing]. rewrite IH.
    replace (default start (last (t :: times)))
      with (default t (last times)); [tauto |].
    destruct times as [| t' times']; [done |].
    rewrite last_cons_cons.
    destruct (last (t' :: times')) eqn:Hl; [done | by apply last_None in Hl].
Qed.

(** X21: With a clock that never runs backwards, no frame time is negative
    and the frames counted as dropped fit into the time that passed:
    their number times 16.67 ms is at most the time from [start] to the
    last frame. *)
Theorem dropped_frames_fit start p0 calls :
  nondecreasing start (frameClock calls) →
  let p := perfRun calls (startTracking start p0) in
  Forall (Rle 0) (frameTimesRef p)
  ∧ IZR (droppedFramesRef p) * (1667 / 100)
    <= default start (last (frameClock calls)) - start.
Proof.
  intros Hclock. cbv zeta.
  destruct (perfRun_bookkeeping start p0 calls) as (_ & _ & _ & <- & _).
  revert Hclock. induction calls as [| c calls IH] using rev_ind.
  - intros _. cbn. unfold total. cbn. split; [done | lra].
  - rewrite frameClock_snoc, perfRun_snoc.
    destruct (perfRun_bookkeeping start p0 calls)
      as (Htracking & Hlast & _).
    destruct c as [now | eventTimestamp now]; cbn [perfCall].
    + intros Hclock. apply nondecreasing_snoc in Hclock as [Hbefore Hnow].
      destruct (IH Hbefore) as [Hall Hbound].
      by eapply recordFrame_nonneg.
    + rewrite app_nil_r. intros Hclock. destruct (IH Hclock) as [Hall Hbound].
      unfold recordInputEvent. rewrite Htracking. cbn.
      destruct eventTimestamp as [timestamp |]; [| done].
      by case_bool_decide.
Qed.

Lemma dropped_frames_fit_witness :
  let p := perfRun threeFrames (startTracking 1000 initial) in
  IZR (droppedFramesRef p) * (1667 / 100) <= 1083 - 1000.
Proof.
  cbv zeta.
  apply (dropped_frames_fit 1000 initial threeFrames).
  cbn. lra.
Defined.

(** ** After the stop *)

(** X22: Once [stopTracking] has run, frames and input events are ignored:
    the refs stay as they were and [getCurrentMetrics] keeps returning
    the report that [stopTracking] returned. *)
Theorem stopped_metrics_frozen p calls :
  let stopped := stopTracking p in
  perfRun calls stopped.1 = stopped.1
  ∧ getCurrentMetrics (perfRun calls stopped.1) = stopped.2.
Proof.
  cbv zeta.
  assert (Hrun : perfRun calls (stopTracking p).1 = (stopTracking p).1).
  { induction calls as [| c calls IH] using rev_ind; [done |].
    rewrite perfRun_snoc, IH. by destruct c. }
  by rewrite Hrun.
Qed.

(** ** The report *)

Lemma roundTo_bounds (scale lo hi : Z) (x : R) :
  (0 < scale)%Z → IZR lo <= x <= IZR hi →
  IZR lo <= roundTo scale x <= IZR hi.
Proof.
  intros Hscale [Hlo Hhi]. unfold roundTo, Js.round_half_up.
  assert (Hs : 0 < IZR scale) by (by apply (IZR_lt 0)).
  destruct (base_Int_part (x * IZR scale + / 2)) as [Hle Hgt].
  set (n := Int_part (x * IZR scale + / 2)) in *.
  assert (Hxlo : IZR lo * IZR scale <= x * IZR scale)
    by (apply Rmult_le_compat_r; lra).
  assert (Hxhi : x * IZR scale <= IZR hi * IZR scale)
    by (apply Rmult_le_compat_r; lra).
  rewrite <- !mult_IZR in *.
  assert (Hn0 : (lo * scale - 1 < n)%Z)
    by (apply lt_IZR; rewrite minus_IZR; lra).
  assert (Hn1 : (n < hi * scale + 1)%Z)
    by (apply lt_IZR; rewrite plus_IZR; lra).
  assert (Hlo' : (lo * scale <= n)%Z) by lia.
  assert (Hhi' : (n <= hi * scale)%Z) by lia.
  apply IZR_le in Hlo', Hhi'. rewrite mult_IZR in Hlo', Hhi'.
  split.
  - apply (Rmult_le_reg_r (IZR scale)); [done |].
    replace (IZR n / IZR scale * IZR scale) with (IZR n) by (field; lra).
    done.
  - apply (Rmult_le_reg_r (IZR scale)); [done |].
    replace (IZR n / IZR scale * IZR scale) with (IZR n) by (field; lra).
    done.
Qed.

Lemma count_snoc values x : count (values ++ [x]) = count values + 1.
Proof.
  unfold count. rewrite length_app. cbn.
  rewrite Nat2Z.inj_add, plus_IZR. done.
Qed.

Lemma total_bounds (lo hi : R) values :
  Forall (λ x, lo <= x <= hi) values →
  lo * count values <= total values <= hi * count values.
Proof.
  induction values as [| x values IH] using rev_ind; intros Hall.
  - unfold total, count. cbn [foldl length Z.of_nat].
    rewrite !Rmult_0_r. lra.
  - apply Forall_app in Hall as [Hvalues Hx].
    rewrite Forall_singleton in Hx.
    rewrite total_snoc, count_snoc. specialize (IH Hvalues). lra.
Qed.

Lemma average_bounds (lo hi : R) values :
  values ≠ [] → Forall (λ x, lo <= x <= hi) values →
  lo <= average values <= hi.
Proof.
  intros Hne Hall. unfold average.
  assert (Hcount : 0 < count values).
  { unfold count. apply (IZR_lt 0). destruct values; [done | cbn; lia]. }
  destruct (total_bounds lo hi values Hall) as [Hlo Hhi].
  split.
  - apply (Rmult_le_reg_r (count values)); [done |].
    replace (total values / count values * count values)
      with (total values) by (field; lra).
    done.
  - apply (Rmult_le_reg_r (count values)); [done |].
    replace (total values / count values * count values)
      with (total values) by (field; lra).
    done.
Qed.

(** X23: Whatever the refs hold, the report is well formed: without a frame
    every measurement is [null] and the dropped frames read 0; with a
    frame the average, the percentile and the rate are numbers, the
    rate is never negative when the average frame time is not, and an
    input lag, when one is reported, lies between 0 and 500 ms. *)
Theorem report_well_formed p :
  let report := computeMetrics p in
  samplingHzTarget report = 60%Z
  ∧ match frameTimesRef p with
    | [] =>
        samplingHzEstimated report = None ∧ avgFrameMs report = None
        ∧ p95FrameMs report = None ∧ droppedFrames report = 0%Z
        ∧ inputLagMsEstimate report = None
    | _ :: _ =>
        is_Some (avgFrameMs report) ∧ is_Some (p95FrameMs report)
        ∧ ∃ hz, samplingHzEstimated report = Some hz ∧ 0 <= hz
    end
  ∧ from_option (λ l, 0 <= l <= 500) True (inputLagMsEstimate report).
Proof.
  cbv zeta. unfold computeMetrics.
  destruct (frameTimesRef p) as [| frameTime frameTimes]; [done |].
  cbn [samplingHzTarget samplingHzEstimated avgFrameMs p95FrameMs
       inputLagMsEstimate].
  split; [done |]. split.
  - split; [by eexists |]. split; [by eexists |].
    eexists. split; [reflexivity |].
    set (avg := average (frameTime :: frameTimes)).
    assert (Hhz : 0 <= (if bool_decide (0 < avg) then 1000 / avg else 60)).
    { case_bool_decide as Hpos; [| lra].
      left. apply Rdiv_lt_0_compat; lra. }
    unfold roundTo, Js.round_half_up.
    destruct (base_Int_part
                ((if bool_decide (0 < avg) then 1000 / avg else 60)
                 * 10 + / 2)) as [_ Hgt].
    set (n := Int_part _) in *.
    assert (Hn : (-1 < n)%Z) by (apply lt_IZR; lra).
    assert (Hn' : (0 <= n)%Z) by lia. apply IZR_le in Hn'.
    apply Rmult_le_pos; lra.
  - destruct (inputEventsRef p) as [| e events]; [done |].
    destruct (filter validLag (lag <$> e :: events))
      as [| l lags] eqn:Hlags; [done |].
    cbn. apply (roundTo_bounds 100 0 500); [lia |].
    apply average_bounds; [done |].
    apply Forall_forall. intros x Hx. rewrite <- Hlags in Hx.
    apply list_elem_of_filter in Hx as [[Hlo Hhi] _]. lra.
Qed.

(** ** The 95th percentile *)

#[local] Instance Rle_total : Total Rle.
Proof. intros x y. destruct (Rle_or_lt x y); [by left | right; lra]. Qed.

#[local] Instance Rle_transitive : Transitive Rle.
Proof. intros x y z. apply Rle_trans. Qed.

Lemma sorted_lookup_le l i j a b :
  StronglySorted Rle l → l !! i = Some a → l !! j = Some b → (i ≤ j)%nat →
  a <= b.
Proof.
  intros Hsorted. revert i j.
  induction Hsorted as [| x l Hsorted IH Hall]; intros i j Ha Hb Hij;
    [done |].
  destruct i as [| i], j as [| j]; cbn in *.
  - injection Ha as <-. injection Hb as <-. lra.
  - injection Ha as <-. exact (Forall_lookup_1 _ _ _ _ Hall Hb).
  - lia.
  - apply (IH i j); [done | done | lia].
Qed.

Lemma p95Index_bounds (n : nat) :
  (0 < n)%nat →
  let k := Int_part (IZR (Z.of_nat n) * (95 / 100)) in
  (0 ≤ k)%Z ∧ (k < Z.of_nat n)%Z ∧ (19 * Z.of_nat n < 20 * k + 20)%Z.
Proof.
  intros Hn k.
  destruct (base_Int_part (IZR (Z.of_nat n) * (95 / 100))) as [Hle Hgt].
  fold k in Hle, Hgt.
  assert (Hpos : 0 < IZR (Z.of_nat n)) by (apply (IZR_lt 0); lia).
  assert (Hk : (-1 < k)%Z) by (apply lt_IZR; lra).
  split; [lia |]. split.
  - apply lt_IZR. lra.
  - apply lt_IZR. rewrite plus_IZR, !mult_IZR. lra.
Qed.

Lemma filter_none {A} (P : A → Prop) `{∀ x, Decision (P x)} (l : list A) :
  Forall (λ x, ¬ P x) l → filter P l = [].
Proof.
  induction 1 as [| x l Hx _ IH]; [done |].
  by rewrite filter_cons_False.
Qed.

Lemma filter_length_mono {A} (P Q : A → Prop)
    `{∀ x, Decision (P x)} `{∀ x, Decision (Q x)} (l : list A) :
  (∀ x, P x → Q x) → (length (filter P l) ≤ length (filter Q l))%nat.
Proof.
  intros Himpl. induction l as [| x l IH]; [done |].
  rewrite !filter_cons.
  destruct (decide (P x)) as [HP | HP], (decide (Q x)) as [HQ | HQ];
    cbn; try lia.
  by apply Himpl in HP.
Qed.

(** X24: The percentile that [computeMetrics] reports, before rounding.  For
    a session in which no frame time is negative, at most one frame in
    twenty took longer than it; and it is one of the frame times, or the
    average frame time when the frame found at the index took 0 ms. *)
Theorem percentile95_covers frameTimes :
  frameTimes ≠ [] → Forall (Rle 0) frameTimes →
  let p95 := percentile95 frameTimes (average frameTimes) in
  (20 * length (filter (λ x, (p95 < x)%R) frameTimes)
   ≤ length frameTimes)%nat
  ∧ (p95 ∈ frameTimes ∨ p95 = average frameTimes).
Proof.
  intros Hne Hall. cbv zeta. unfold percentile95.
  pose proof (merge_sort_Permutation Rle frameTimes) as Hperm.
  pose proof (StronglySorted_merge_sort Rle frameTimes) as Hsorted.
  set (sorted := merge_sort Rle frameTimes) in *.
  assert (Hlen : length sorted = length frameTimes)
    by (by rewrite Hperm).
  assert (Hn : (0 < length frameTimes)%nat)
    by (destruct frameTimes; [done | cbn; lia]).
  unfold count. rewrite Hlen.
  destruct (p95Index_bounds (length frameTimes) Hn) as (Hk0 & Hk1 & Hk2).
  set (k := Int_part (IZR (Z.of_nat (length frameTimes)) * (95 / 100))) in *.
  assert (Hidx : (Z.to_nat k < length sorted)%nat) by lia.
  destruct (lookup_lt_is_Some_2 sorted (Z.to_nat k) Hidx) as [v Hv].
  rewrite Hv.
  assert (Hcover :
    (20 * length (filter (λ x, (v < x)%R) frameTimes)
     ≤ length frameTimes)%nat).
  { rewrite <- Hperm.
    rewrite <- (take_drop (S (Z.to_nat k)) sorted) at 1.
    rewrite filter_app, filter_none, app_nil_l.
    - pose proof (length_filter (λ x, v < x)
                    (drop (S (Z.to_nat k)) sorted)) as Hle.
      rewrite length_drop in Hle. lia.
    - apply Forall_forall. intros x Hx.
      apply elem_of_take in Hx as (i & Hi & Hlt).
      pose proof (sorted_lookup_le sorted i (Z.to_nat k) x v Hsorted Hi Hv
                    ltac:(lia)).
      lra. }
  assert (Hin : v ∈ frameTimes).
  { rewrite <- Hperm. by eapply list_elem_of_lookup_2. }
  case_bool_decide as Hzero; [| by split; [| left]].
  split; [| by right].
  assert (Havg : 0 <= average frameTimes).
  { unfold average. apply Rmult_le_pos.
    - clear -Hall.
      induction frameTimes as [| x frameTimes IH] using rev_ind;
        [unfold total; cbn; lra |].
      apply Forall_app in Hall as [Hrest Hx].
      rewrite Forall_singleton in Hx.
      rewrite total_snoc. specialize (IH Hrest). lra.
    - left. apply Rinv_0_lt_compat. unfold count. apply (IZR_lt 0). lia. }
  etrans; [| exact Hcover].
  apply Nat.mul_le_mono_l. apply filter_length_mono. intros x Hx. lra.
Qed.


Lemma percentile95_covers_witness :
  percentile95 [16; 50; 17] (average [16; 50; 17]) ∈ [16; 50; 17]
  ∨ percentile95 [16; 50; 17] (average [16; 50; 17])
    = average [16; 50; 17].
Proof.
  apply (percentile95_covers [16; 50; 17]).
  - discriminate.
  - repeat (apply Forall_cons_2; [lra |]). apply Forall_nil_2.
Defined.

End PerformanceMetricsProps.

(* ================================================================== *)
(** * Properties of the bubble field *)
(* ================================================================== *)

Section BubbleFieldProps.
Import Tracker TrackerSpec Scenario TrackerMore MotorSkillsGame.
Import PerformanceMetrics BubbleField.

(** Settles the comparisons of event types in the hypothesis [H]. *)
Ltac settle_event_types H :=
  repeat match type of H with
    | context [bool_decide (?a = ?b)] =>
        first [ rewrite (bool_decide_eq_true_2 (a = b)) in H by done
              | rewrite (bool_decide_eq_false_2 (a = b)) in H by done ]
    end.

(** ** The tally and the log *)

Lemma roundTally_snoc round allInteractions i :
  roundTally round (allInteractions ++ [i])
  = (((roundTally round allInteractions).1
      + if bool_decide (i_round i = round ∧ i_eventType i = "bubble_hit")
        then 1 else 0)%nat,
     ((roundTally round allInteractions).2
      + if bool_decide (i_round i = round ∧ i_eventType i = "bubble_miss")
        then 1 else 0)%nat).
Proof.
  unfold roundTally. rewrite !filter_app, !length_app. cbn.
  destruct (decide (i_round i = round)) as [Hround | Hround]; cbn;
    repeat case_decide; repeat case_bool_decide; cbn; try done; tauto.
Qed.

(** What one logged interaction does to the round and to the tally. *)
Lemma logInteraction_tally eventType data now t h round :
  Tracker.round t = round →
  let t' := (logInteraction eventType data now t h).1 in
  Tracker.round t' = round
  ∧ roundTally round (interactions t')
    = (((roundTally round (interactions t)).1
        + if bool_decide (eventType = "bubble_hit") then 1 else 0)%nat,
       ((roundTally round (interactions t)).2
        + if bool_decide (eventType = "bubble_miss") then 1 else 0)%nat).
Proof.
  intros Hround. cbv zeta. split.
  - destruct (logInteraction_frame eventType data now t h)
      as (history & buffer & timer & ->).
    by destruct t.
  - rewrite logInteraction_history, roundTally_snoc. cbn.
    repeat case_bool_decide; try done; tauto.
Qed.

Lemma trackPointerMove_round event now window t :
  Tracker.round (trackPointerMove event now window t) = Tracker.round t.
Proof.
  unfold trackPointerMove, storePointerSample, trackKinematics.
  destruct t; cbn. repeat (case_bool_decide || case_match); done.
Qed.

(** ** One frame *)

Lemma animateBubbles_invariant now round bubbles t h :
  Tracker.round t = round → Forall onStage bubbles →
  ∃ kept t' h',
    animateBubbles now bubbles (Some t) h = (kept, (Some t', h'))
    ∧ Tracker.round t' = round
    ∧ (roundTally round (interactions t')).1
      = (roundTally round (interactions t)).1
    ∧ (length kept + (roundTally round (interactions t')).2
       = length bubbles + (roundTally round (interactions t)).2)%nat
    ∧ (b_id <$> kept) `sublist_of` (b_id <$> bubbles)
    ∧ Forall onStage kept.
Proof.
  intros Hround Hall. revert t h Hround.
  induction Hall as [| bubble bubbles Hbubble _ IH]; intros t h Hround.
  - exists [], t, h. by repeat split.
  - cbn [animateBubbles].
    destruct Hbubble as (column & y & s & Hcol & Hrange & Hx & Hy & Hyr
                         & Hs & Hspos).
    assert (Hrisen : b_y (rise bubble) = Js.Fin (y + - s)).
    { unfold rise. cbn. by rewrite Hy, Hs. }
    rewrite Hrisen. unfold Js.ofZ, Js.lt.
    case_bool_decide as Hleft.
    + unfold withTracker.
      destruct (logInteraction_tally "bubble_miss"
                  (BubbleMissData (rise bubble)
                     (now - b_spawnTime (rise bubble)))
                  now t h round Hround) as [Hround1 Htally1].
      unfold trackBubbleMiss.
      destruct (logInteraction _ _ _ t h) as [t1 h1] eqn:Hlog.
      cbn [fst] in Hround1, Htally1. settle_event_types Htally1.
      destruct (IH t1 h1 Hround1)
        as (kept & t' & h' & -> & Hround' & Hhits & Hcount & Hsub & Hkept).
      exists kept, t', h'. split; [done |]. split; [done |].
      rewrite Htally1 in Hhits, Hcount. cbn [fst snd] in Hhits, Hcount.
      split; [lia |]. split; [cbn [length]; lia |].
      split; [by apply sublist_cons | done].
    + destruct (IH t h Hround)
        as (kept & t' & h' & -> & Hround' & Hhits & Hcount & Hsub & Hkept).
      exists (rise bubble :: kept), t', h'.
      split; [done |]. split; [done |]. split; [done |].
      split; [cbn [length]; lia |]. split; [by apply sublist_skip |].
      apply Forall_cons_2; [| done].
      exists column, (y + - s)%R, s.
      split; [done |]. split; [done |]. split; [done |].
      split; [exact Hrisen |]. split; [| done].
      cbn in Hleft. lra.
Qed.

(** ** One click *)

Lemma filter_other_ids (bubble : Bubble) (bubbles : list Bubble) :
  NoDup (b_id <$> bubbles) → bubble ∈ bubbles →
  (length (filter (λ b, b_id b ≠ b_id bubble) bubbles) + 1
   = length bubbles)%nat.
Proof.
  induction bubbles as [| b bubbles IH]; intros Hdup Hin.
  - by apply elem_of_nil in Hin.
  - cbn in Hdup. apply NoDup_cons in Hdup as [Hfresh Hdup].
    rewrite filter_cons.
    apply elem_of_cons in Hin as [-> | Hin].
    + destruct (decide (b_id b ≠ b_id b)) as [Hne | _]; [done |].
      assert (Hall : filter (λ b0, b_id b0 ≠ b_id b) bubbles = bubbles).
      { clear -Hfresh. induction bubbles as [| b' bubbles IH]; [done |].
        rewrite filter_cons.
        destruct (decide (b_id b' ≠ b_id b)) as [_ | Hsame].
        - f_equal. apply IH. intros Hin. apply Hfresh.
          cbn. by apply list_elem_of_further.
        - exfalso. apply Hfresh. apply dec_stable in Hsame.
          cbn. rewrite Hsame. apply list_elem_of_here. }
      rewrite Hall. cbn. lia.
    + destruct (decide (b_id b ≠ b_id bubble)) as [_ | Hsame].
      * cbn. specialize (IH Hdup Hin). lia.
      * exfalso. apply Hfresh. apply dec_stable in Hsame.
        rewrite Hsame. by apply list_elem_of_fmap_2.
Qed.

(** ** One event *)

Lemma spawnBubble_column round index :
  1 ≤ round ≤ 3 →
  ∃ roundPattern column (s : R),
    at_index BUBBLE_PATTERNS (round - 1) = Some roundPattern
    ∧ pattern roundPattern !! (index `mod` length (pattern roundPattern))%nat
      = Some column
    ∧ 0 ≤ column ≤ 4
    ∧ speed roundPattern = Js.Fin s ∧ (0 < s)%R.
Proof.
  intros Hround.
  assert (Hcases : round = 1 ∨ round = 2 ∨ round = 3) by lia.
  assert (Hcolumns : ∀ roundPattern,
    roundPattern ∈ BUBBLE_PATTERNS →
    pattern roundPattern ≠ []
    ∧ Forall (λ column, 0 ≤ column ≤ 4) (pattern roundPattern)
    ∧ ∃ s : R, speed roundPattern = Js.Fin s ∧ (0 < s)%R).
  { intros roundPattern Hin. unfold BUBBLE_PATTERNS in Hin.
    repeat (apply elem_of_cons in Hin as [-> | Hin]);
      [| | | by apply elem_of_nil in Hin];
      (split; [done |]); (split; [repeat constructor; lia |]);
      eexists; (split; [reflexivity |]); cbn; lra. }
  assert (Hpattern : ∃ roundPattern,
    at_index BUBBLE_PATTERNS (round - 1) = Some roundPattern
    ∧ roundPattern ∈ BUBBLE_PATTERNS).
  { destruct Hcases as [-> | [-> | ->]]; eexists;
      (split; [reflexivity |]); unfold BUBBLE_PATTERNS;
      repeat first [apply list_elem_of_here | apply list_elem_of_further]. }
  destruct Hpattern as (roundPattern & Hat & Hin).
  destruct (Hcolumns roundPattern Hin) as (Hne & Hall & s & Hs & Hspos).
  assert (Hlt : (index `mod` length (pattern roundPattern)
                 < length (pattern roundPattern))%nat).
  { apply Nat.mod_upper_bound. by destruct (pattern roundPattern). }
  destruct (lookup_lt_is_Some_2 _ _ Hlt) as [column Hcolumn].
  exists roundPattern, column, s. repeat split; try done;
    apply (Forall_lookup_1 _ _ _ _ Hall Hcolumn).
Qed.

Lemma step_invariant round spawned e g :
  1 ≤ round ≤ 3 → roundInvariant round spawned g → allowed e g →
  ∃ g', step e g = Some g'
        ∧ roundInvariant round
            (spawned + if isSpawn e then 1 else 0) g'.
Proof.
  intros Hrange (Hplaying & Hcurrent & t & Htracker & Hround & Hcount
                 & Hdup & Hstage) Hallowed.
  destruct e as [id spawnTime now | now perfNow
                 | bubble event timeStamp now perfNow
                 | event timeStamp now perfNow | pointerPos now window];
    cbn [step isSpawn].
  - unfold spawnBubble. rewrite Hplaying, Hcurrent. cbn [negb].
    destruct (spawnBubble_column round (patternIndexRef g) Hrange)
      as (roundPattern & column & s & -> & Hcolumn & Hcol & Hs & Hspos).
    cbn [mbind option_bind]. rewrite Hcolumn. cbn [mbind option_bind].
    rewrite Htracker. unfold withTracker, trackBubbleSpawn.
    match goal with
    | |- context [logInteraction ?e ?d ?n t ?h0] =>
        destruct (logInteraction_tally e d n t h0 round Hround)
          as [Hround1 Htally1];
        destruct (logInteraction e d n t h0) as [t1 h1]
    end.
    cbn [fst] in Hround1, Htally1. settle_event_types Htally1.
    eexists. split; [reflexivity |].
    split; [done |]. split; [done |]. exists t1.
    cbn [refs motorTrackerRef bubblesRef].
    split; [done |]. split; [done |].
    rewrite Htally1. cbn [fst snd]. rewrite length_app. cbn [length].
    split; [lia |]. split.
    + rewrite fmap_app. cbn. apply NoDup_app. split; [done |].
      split; [| apply NoDup_singleton].
      intros x Hx Hin. apply list_elem_of_singleton in Hin as ->.
      by apply Hallowed.
    + apply Forall_app. split; [done |]. apply Forall_singleton.
      exists column, (IZR STAGE_HEIGHT), s. cbn.
      split; [done |]. split; [done |]. split.
      { unfold Js.ofZ. do 2 f_equal. unfold COLUMN_WIDTH, STAGE_WIDTH.
        change (800 / 5) with 160. change (160 / 2) with 80. lia. }
      split; [done |]. split; [| done].
      unfold BUBBLE_RADIUS, STAGE_HEIGHT. split; [apply IZR_le; lia | lra].
  - unfold animate. rewrite Htracker.
    destruct (animateBubbles_invariant now round (bubblesRef (refs g)) t
                (host g) Hround Hstage)
      as (kept & t' & h' & -> & Hround' & Hhits & Hkept & Hsub & Hon).
    eexists. split; [reflexivity |].
    split; [done |]. split; [done |]. exists t'.
    cbn [refs motorTrackerRef bubblesRef].
    split; [done |]. split; [done |]. split; [lia |].
    split; [by eapply sublist_NoDup | done].
  - unfold handleBubbleClick. rewrite Htracker.
    unfold withTracker, trackBubbleHit.
    match goal with
    | |- context [logInteraction ?e ?d ?n t ?h0] =>
        destruct (logInteraction_tally e d n t h0 round Hround)
          as [Hround1 Htally1];
        destruct (logInteraction e d n t h0) as [t1 h1]
    end.
    cbn [fst] in Hround1, Htally1. settle_event_types Htally1.
    eexists. split; [reflexivity |].
    split; [done |]. split; [done |]. exists t1.
    cbn [refs motorTrackerRef bubblesRef].
    split; [done |]. split; [done |].
    rewrite Htally1. cbn [fst snd].
    pose proof (filter_other_ids bubble (bubblesRef (refs g)) Hdup Hallowed)
      as Hone.
    split; [lia |]. split.
    + eapply sublist_NoDup; [exact Hdup |].
      apply fmap_sublist, sublist_filter.
    + apply Forall_forall. intros b Hb.
      apply list_elem_of_filter in Hb as [_ Hb].
      by apply (proj1 (Forall_forall _ _) Hstage).
  - unfold handleStageClick. rewrite Htracker.
    unfold withTracker, trackPointerUp.
    match goal with
    | |- context [logInteraction ?e ?d ?n ?t0 ?h0] =>
        destruct (logInteraction_tally e d n t0 h0 round)
          as [Hround1 Htally1]; [by destruct t |];
        destruct (logInteraction e d n t0 h0) as [t1 h1]
    end.
    cbn [fst] in Hround1, Htally1. settle_event_types Htally1.
    eexists. split; [reflexivity |].
    split; [done |]. split; [done |]. exists t1.
    cbn [refs motorTrackerRef bubblesRef].
    split; [done |]. split; [done |].
    rewrite Htally1. cbn [fst snd].
    replace (interactions _) with (interactions t) by (by destruct t).
    split; [lia | done].
  - eexists. split; [reflexivity |].
    unfold sampleCursorPosition. rewrite Hplaying, Htracker. cbn [negb].
    destruct pointerPos as [pos |].
    + split; [done |]. split; [done |].
      eexists. cbn [refs motorTrackerRef bubblesRef fst].
      split; [reflexivity |].
      rewrite trackPointerMove_round.
      destruct (trackPointerMove_bookkeeping
                  {| touches := None; clientX := Some (c_x pos);
                     clientY := Some (c_y pos); pointerType := None;
                     pressure := None |} now window t) as (-> & _).
      split; [done |]. split; [lia | done].
    + split; [done |]. split; [done |]. exists t.
      cbn [refs fst]. split; [done |]. split; [done |].
      split; [lia | done].
Qed.

Lemma play_invariant round events :
  1 ≤ round ≤ 3 →
  ∀ spawned g,
    roundInvariant round spawned g → wellPlayed events g →
    ∃ g', play events g = Some g'
          ∧ roundInvariant round (spawned + spawns events) g'.
Proof.
  intros Hrange. induction events as [| e events IH];
    intros spawned g Hinv Hwell.
  - exists g. split; [done |]. unfold spawns. cbn.
    by rewrite Nat.add_0_r.
  - destruct Hwell as [Hallowed Hrest].
    destruct (step_invariant round spawned e g Hrange Hinv Hallowed)
      as (g1 & Hstep & Hinv1).
    rewrite Hstep in Hrest. cbn in Hrest.
    destruct (IH _ g1 Hinv1 Hrest) as (g' & Hplay & Hinv').
    exists g'. split; [cbn [play]; rewrite Hstep; exact Hplay |].
    replace (spawned + spawns (e :: events))%nat
      with (spawned + (if isSpawn e then 1 else 0) + spawns events)%nat;
      [exact Hinv' |].
    unfold spawns. rewrite filter_cons.
    destruct (isSpawn e); case_decide; try done; cbn [length]; lia.
Qed.

Lemma startRound_invariant round perfNow g tracker :
  currentRound g = round →
  motorTrackerRef (refs g) = Some tracker →
  roundTally round (interactions tracker) = (0, 0)%nat →
  roundInvariant round 0 (startRound perfNow g).
Proof.
  intros Hround Htracker Htally. unfold roundInvariant, startRound.
  rewrite Htracker, Hround.
  split; [done |]. split; [done |].
  exists (set_round round tracker).
  split; [done |]. split; [by destruct tracker |].
  replace (interactions (set_round round tracker))
    with (interactions tracker) by (by destruct tracker).
  rewrite Htally. split; [done |]. split; [apply NoDup_nil_2 | done].
Qed.

(** X25: No bubble is lost or counted twice.  While a round is played (its
    bubbles spawned with fresh ids, its bubble clicks on bubbles that are
    on stage), the game never stops on an error, and every bubble spawned
    in the round is either still on stage, or counted as a hit, or
    counted as a miss in the tally that [endRound] takes from the
    tracker's log: the three numbers add up to the number of spawns.
    Clicks on the empty stage count as neither. *)
Theorem bubbles_conserved round perfNow g tracker events :
  1 ≤ round ≤ 3 →
  currentRound g = round →
  motorTrackerRef (refs g) = Some tracker →
  roundTally round (interactions tracker) = (0, 0)%nat →
  wellPlayed events (startRound perfNow g) →
  ∃ g' tracker',
    play events (startRound perfNow g) = Some g'
    ∧ motorTrackerRef (refs g') = Some tracker'
    ∧ (spawns events
       = length (bubblesRef (refs g'))
         + (roundTally round (getAllInteractions tracker')).1
         + (roundTally round (getAllInteractions tracker')).2)%nat
    ∧ NoDup (b_id <$> bubblesRef (refs g')).
Proof.
  intros Hrange Hround Htracker Htally Hwell.
  pose proof (startRound_invariant round perfNow g tracker Hround Htracker
                Htally) as Hinv.
  destruct (play_invariant round events Hrange 0%nat _ Hinv Hwell)
    as (g' & Hplay & _ & _ & t' & Ht' & _ & Hcount & Hdup & _).
  exists g', t'. by repeat split.
Qed.

(** X26: Every bubble on stage is where the game drew it: in the middle of
    one of the five columns, at most at the bottom edge and not yet
    more than a radius above the top edge, and rising at the speed of
    its round. *)
Theorem bubbles_stay_on_stage round perfNow g tracker events :
  1 ≤ round ≤ 3 →
  currentRound g = round →
  motorTrackerRef (refs g) = Some tracker →
  wellPlayed events (startRound perfNow g) →
  ∃ g', play events (startRound perfNow g) = Some g'
        ∧ Forall onStage (bubblesRef (refs g')).
Proof.
  intros Hrange Hround Htracker Hwell.
  assert (Hinv : ∃ spawned,
            roundInvariant round spawned (startRound perfNow g)).
  { exists ((roundTally round (interactions tracker)).1
            + (roundTally round (interactions tracker)).2)%nat.
    unfold roundInvariant, startRound.
    rewrite Htracker, Hround.
    split; [done |]. split; [done |].
    exists (set_round round tracker).
    split; [done |]. split; [by destruct tracker |].
    replace (interactions (set_round round tracker))
      with (interactions tracker) by (by destruct tracker).
    split; [done |]. split; [apply NoDup_nil_2 | done]. }
  destruct Hinv as (spawned & Hinv).
  destruct (play_invariant round events Hrange spawned _ Hinv Hwell)
    as (g' & Hplay & _ & _ & t' & _ & _ & _ & _ & Hstage).
  by exists g'.
Qed.

Lemma wellPlayed_clickThenSpawn :
  wellPlayed clickThenSpawn (startRound 0 (freshGame 1)).
Proof.
  unfold clickThenSpawn. cbn [wellPlayed allowed step from_option].
  split; [exact I |]. split.
  - unfold handleStageClick. destruct (withTracker _ _ _).
    cbn. apply not_elem_of_nil.
  - destruct (spawnBubble _ _ _ _); exact I.
Qed.

Lemma bubbles_conserved_witness :
  ∃ g' tracker',
    play clickThenSpawn (startRound 0 (freshGame 1)) = Some g'
    ∧ motorTrackerRef (refs g') = Some tracker'
    ∧ (spawns clickThenSpawn
       = length (bubblesRef (refs g'))
         + (roundTally 1 (getAllInteractions tracker')).1
         + (roundTally 1 (getAllInteractions tracker')).2)%nat
    ∧ NoDup (b_id <$> bubblesRef (refs g')).
Proof.
  apply (bubbles_conserved 1 0 (freshGame 1) session1 clickThenSpawn).
  - lia.
  - reflexivity.
  - reflexivity.
  - reflexivity.
  - apply wellPlayed_clickThenSpawn.
Defined.

Lemma bubbles_stay_on_stage_witness :
  ∃ g', play clickThenSpawn (startRound 0 (freshGame 1)) = Some g'
        ∧ Forall onStage (bubblesRef (refs g')).
Proof.
  apply (bubbles_stay_on_stage 1 0 (freshGame 1) session1 clickThenSpawn).
  - lia.
  - reflexivity.
  - reflexivity.
  - apply wellPlayed_clickThenSpawn.
Defined.

(** ** The performance hook *)

Lemma step_perfMetrics e g g' :
  step e g = Some g' →
  perfMetrics g' = perfRun (perfCalls [e]) (perfMetrics g)
  ∧ currentRound g' = currentRound g.
Proof.
  destruct e; cbn [step]; intros Hstep.
  - unfold spawnBubble in Hstep.
    destruct (negb _); [by injection Hstep as <- |].
    destruct (at_index _ _) as [roundPattern |]; [| done].
    cbn [mbind option_bind] in Hstep.
    destruct (pattern roundPattern !! _) as [column |]; [| done].
    cbn [mbind option_bind] in Hstep.
    destruct (withTracker _ _ _). by injection Hstep as <-.
  - injection Hstep as <-. unfold animate.
    by destruct (animateBubbles _ _ _ _) as [kept [tracker h]].
  - injection Hstep as <-. unfold handleBubbleClick.
    by destruct (withTracker _ _ _).
  - injection Hstep as <-. unfold handleStageClick.
    by destruct (withTracker _ _ _).
  - by injection Hstep as <-.
Qed.

Lemma play_perfMetrics events g g' :
  play events g = Some g' →
  perfMetrics g' = perfRun (perfCalls events) (perfMetrics g)
  ∧ currentRound g' = currentRound g.
Proof.
  revert g. induction events as [| e events IH]; intros g Hplay.
  - by injection Hplay as <-.
  - cbn [play] in Hplay.
    destruct (step e g) as [g1 |] eqn:Hstep; [| done].
    cbn [mbind option_bind] in Hplay.
    destruct (step_perfMetrics e g g1 Hstep) as [Hperf1 Hround1].
    destruct (IH g1 Hplay) as [Hperf Hround].
    rewrite Hperf, Hperf1, Hround, Hround1. split; [| done].
    change (e :: events) with ([e] ++ events).
    unfold perfCalls, perfRun. by rewrite omap_app, foldl_app.
Qed.

Lemma frameClock_perfCalls events :
  length (frameClock (perfCalls events)) = frames events.
Proof.
  unfold frames, frameClock, perfCalls.
  induction events as [| e events IH]; [done |].
  rewrite filter_cons. destruct e; cbn; case_decide; try done; cbn; lia.
Qed.

Lemma perfRun_idle calls p :
  isTrackingRef p = false → perfRun calls p = p.
Proof.
  intros Hidle. induction calls as [| c calls IH] using rev_ind; [done |].
  rewrite perfRun_snoc, IH.
  destruct c; cbn; [unfold recordFrame | unfold recordInputEvent];
    by rewrite Hidle.
Qed.

(** X27: The game reports to the performance hook one frame per animation
    frame and one input event per click, and nothing else.  In round 1,
    where [startRound] starts the tracking, the hook holds one frame time
    per animation frame.  In a later round [startRound] does not start
    it: if the hook is not tracking by then, as after a reload that
    resumes the game in round 2 or 3, it records nothing and its report
    stays the empty one. *)
Theorem game_feeds_metrics perfNow g events g' :
  play events (startRound perfNow g) = Some g' →
  perfMetrics g'
  = perfRun (perfCalls events) (perfMetrics (startRound perfNow g))
  ∧ (currentRound g = 1 →
     length (frameTimesRef (perfMetrics g')) = frames events)
  ∧ (currentRound g ≠ 1 → isTrackingRef (perfMetrics g) = false →
     perfMetrics g' = perfMetrics g
     ∧ (frameTimesRef (perfMetrics g) = [] →
        avgFrameMs (stopTracking (perfMetrics g')).2 = None
        ∧ inputLagMsEstimate (stopTracking (perfMetrics g')).2 = None)).
Proof.
  intros Hplay.
  destruct (play_perfMetrics events _ g' Hplay) as [Hperf _].
  split; [exact Hperf |]. split.
  - intros Hround. rewrite Hperf. unfold startRound. cbn [perfMetrics].
    rewrite bool_decide_eq_true_2 by done.
    destruct (perfRun_bookkeeping perfNow (perfMetrics g) (perfCalls events))
      as (_ & _ & -> & _).
    apply frameClock_perfCalls.
  - intros Hround Hidle.
    assert (Hsame : perfMetrics g' = perfMetrics g).
    { rewrite Hperf. unfold startRound. cbn [perfMetrics].
      rewrite bool_decide_eq_false_2 by done. by apply perfRun_idle. }
    split; [exact Hsame |]. intros Hnone. rewrite Hsame.
    unfold stopTracking, computeMetrics. cbn. by rewrite Hnone.
Qed.

Lemma game_feeds_metrics_witness :
  length (frameTimesRef
            (perfMetrics (animate 1016 16 (startRound 0 (freshGame 1)))))
  = frames [AnimationFrame 1016 16].
Proof.
  destruct (game_feeds_metrics 0 (freshGame 1) [AnimationFrame 1016 16]
              (animate 1016 16 (startRound 0 (freshGame 1))))
    as (_ & Hframes & _).
  - reflexivity.
  - by apply Hframes.
Defined.

End BubbleFieldProps.

(* ================================================================== *)
(** * Properties of the round report *)
(* ================================================================== *)

Section RoundReportProps.
Import Tracker TrackerSpec Scenario TrackerMore BubbleField RoundReport.

Lemma filter_isAttempt_snoc round allInteractions i :
  filter (isAttempt round) (allInteractions ++ [i])
  = filter (isAttempt round) allInteractions
    ++ if bool_decide (isAttempt round i) then [i] else [].
Proof.
  rewrite filter_app. f_equal. cbn.
  by destruct (decide (isAttempt round i)); case_bool_decide.
Qed.

Lemma attempts_tally round allInteractions :
  let attempts := filter (isAttempt round) allInteractions in
  length attempts
  = ((roundTally round allInteractions).1
     + (roundTally round allInteractions).2)%nat
  ∧ length (filter (λ i, i_eventType i = "bubble_hit") attempts)
    = (roundTally round allInteractions).1.
Proof.
  cbv zeta. induction allInteractions as [| i rest IH] using rev_ind.
  - done.
  - rewrite filter_isAttempt_snoc, roundTally_snoc. cbn [fst snd].
    rewrite filter_app, !length_app. destruct IH as [-> ->].
    unfold isAttempt.
    destruct (decide (i_round i = round)) as [Hround | Hround];
      destruct (decide (i_eventType i = "bubble_hit")) as [Hhit | Hhit];
      destruct (decide (i_eventType i = "bubble_miss")) as [Hmiss | Hmiss];
      try (rewrite Hhit in Hmiss; discriminate);
      repeat case_bool_decide; cbn; repeat case_decide;
      cbn; try lia; tauto.
Qed.

(** X28: The report of a round agrees with the log.  [sendRoundDataToML]
    always returns; it posts the buffered samples of the round when there
    are any, and no trace otherwise; it sends one attempt per bubble
    that the log counts as hit or missed in the round (the numbers that
    [endRound] tallies), as many of them marked as hits as the tally has
    hits, and sends nothing when the tally is empty; and it touches
    neither the timers nor the batches. *)
Theorem round_report_matches_tally netTrace netAttempts window round t
    sent h :
  let result :=
    sendRoundDataToML netTrace netAttempts window round t sent h in
  let samples := filter (λ s, s_round s = round) (pointerSamples t) in
  let tally := roundTally round (getAllInteractions t) in
  posted result.2
  = posted h ++
    match samples with
    | [] => []
    | _ :: _ => [PostMotorTrace (sessionId t) (userId t) samples]
    end
  ∧ (if bool_decide (tally.1 + tally.2 = 0)%nat
     then result.1 = sent
     else ∃ attempts,
            result.1
            = sent ++ [{| r_sessionId := sessionId t;
                          r_userId := userId t;
                          r_attempts := attempts |}]
            ∧ length attempts = (tally.1 + tally.2)%nat
            ∧ length (filter (λ a, a_hit a = true) attempts) = tally.1)
  ∧ timers result.2 = timers h
  ∧ batches result.2 = batches h.
Proof.
  cbv zeta. unfold sendRoundDataToML, getAllInteractions.
  destruct (attempts_tally round (interactions t)) as [Hcount Hhits].
  set (tally := roundTally round (interactions t)) in *.
  set (samples := filter (λ s, s_round s = round) (pointerSamples t)).
  set (h1 := match samples with [] => h | _ :: _ => _ end).
  assert (Hh1 : posted h1
                = posted h ++
                  match samples with
                  | [] => []
                  | _ :: _ =>
                      [PostMotorTrace (sessionId t) (userId t) samples]
                  end
                ∧ timers h1 = timers h ∧ batches h1 = batches h).
  { unfold h1. destruct samples as [| s rest].
    - by rewrite app_nil_r.
    - unfold logPointerSamples. by destruct (netTrace _). }
  destruct Hh1 as (Hposted & Htimers & Hbatches).
  destruct (filter (isAttempt round) (interactions t))
    as [| i attempts] eqn:Hattempts.
  - cbn [fst snd].
    rewrite bool_decide_eq_true_2 by (cbn [length] in Hcount; lia).
    done.
  - rewrite bool_decide_eq_false_2 by (cbn [length] in Hcount; lia).
    unfold logMotorAttempts.
    assert (Hmarked :
      length (filter (λ a, a_hit a = true)
                (toAttempt window <$> i :: attempts)) = tally.1).
    { rewrite <- Hhits. clear.
      induction (i :: attempts) as [| j rest IH]; [done |].
      rewrite fmap_cons, !filter_cons. cbn [a_hit toAttempt].
      case_bool_decide; repeat case_decide; cbn; try done; lia. }
    destruct (netAttempts _); cbn [fst snd].
    + split; [done |]. split; [| done].
      eexists. split; [reflexivity |].
      split; [by rewrite length_fmap | done].
    + split; [done |]. split; [| done].
      eexists. split; [reflexivity |].
      split; [by rewrite length_fmap | done].
Qed.

(** X29: What is reported about a bubble.  Right after [trackBubbleHit], the
    last attempt of the round is a hit on that bubble: it carries the
    time of the interaction that was logged, the reaction time, the
    column, the bubble position and the click position, each coordinate
    divided by the viewport dimension of its own axis, and the speed, the
    radius of 40 px and the logged click accuracy divided by the smaller
    viewport dimension.  Right after [trackBubbleMiss] it is a timeout of
    that bubble, with the same target but no click position, no reaction
    time and no error distance.  A click on the empty stage adds no
    attempt. *)
Theorem attempts_mirror_the_log window bubble event now t h :
  let attemptsOf tracker :=
    toAttempt window <$>
      filter (isAttempt (round t)) (interactions tracker) in
  let screenWidth := innerWidth window in
  let screenHeight := innerHeight window in
  let minDim := jsMin screenWidth screenHeight in
  let speedNorm :=
    if Js.truthy (b_speed bubble) then Js.div (b_speed bubble) minDim
    else Js.zero in
  (∃ logged attempt clickAccuracy,
     last (interactions (trackBubbleHit bubble event now t h).1)
     = Some logged
     ∧ last (attemptsOf (trackBubbleHit bubble event now t h).1)
       = Some attempt
     ∧ event_clickAccuracy logged = Some clickAccuracy
     ∧ a_round attempt = round t
     ∧ a_hit attempt = true ∧ a_clicked attempt = true
     ∧ a_missType attempt = "hit"
     ∧ a_tms attempt = i_timestamp logged
     ∧ a_bubbleId attempt = or_unknown (Some (b_id bubble))
     ∧ a_spawnTms attempt = b_spawnTime bubble
     ∧ a_column attempt = Some (b_column bubble)
     ∧ a_reactionTimeMs attempt = Some (now - b_spawnTime bubble)
     ∧ a_clickX attempt
       = Some (Js.div (c_x (getCoordinates event)) screenWidth)
     ∧ a_clickY attempt
       = Some (Js.div (c_y (getCoordinates event)) screenHeight)
     ∧ a_targetX attempt = Js.div (b_x bubble) screenWidth
     ∧ a_targetY attempt = Js.div (b_y bubble) screenHeight
     ∧ a_targetRadius attempt = Js.div (Js.ofZ 40) minDim
     ∧ a_speedNorm attempt = speedNorm
     ∧ a_errorDistNorm attempt = Some (Js.div clickAccuracy minDim))
  ∧ (∃ logged attempt,
       last (interactions (trackBubbleMiss bubble now t h).1) = Some logged
       ∧ last (attemptsOf (trackBubbleMiss bubble now t h).1) = Some attempt
       ∧ a_round attempt = round t
       ∧ a_hit attempt = false ∧ a_clicked attempt = false
       ∧ a_missType attempt = "timeout"
       ∧ a_tms attempt = i_timestamp logged
       ∧ a_bubbleId attempt = or_unknown (Some (b_id bubble))
       ∧ a_spawnTms attempt = b_spawnTime bubble
       ∧ a_column attempt = Some (b_column bubble)
       ∧ a_reactionTimeMs attempt = None
       ∧ a_clickX attempt = None ∧ a_clickY attempt = None
       ∧ a_targetX attempt = Js.div (b_x bubble) screenWidth
       ∧ a_targetY attempt = Js.div (b_y bubble) screenHeight
       ∧ a_targetRadius attempt = Js.div (Js.ofZ 40) minDim
       ∧ a_speedNorm attempt = speedNorm
       ∧ a_errorDistNorm attempt = None)
  ∧ attemptsOf (trackPointerUp event None false now t h).1 = attemptsOf t.
Proof.
  cbv zeta. split; [| split].
  - unfold trackBubbleHit. rewrite logInteraction_history.
    rewrite filter_isAttempt_snoc.
    rewrite bool_decide_eq_true_2 by (split; [by left | done]).
    rewrite fmap_app. cbn [fmap list_fmap]. rewrite !last_snoc.
    eexists _, _, _. split; [reflexivity |]. split; [reflexivity |].
    cbn. repeat split; done.
  - unfold trackBubbleMiss. rewrite logInteraction_history.
    rewrite filter_isAttempt_snoc.
    rewrite bool_decide_eq_true_2 by (split; [by right | done]).
    rewrite fmap_app. cbn [fmap list_fmap]. rewrite !last_snoc.
    eexists _, _. split; [reflexivity |]. split; [reflexivity |].
    cbn. repeat split; done.
  - unfold trackPointerUp. rewrite logInteraction_history.
    rewrite filter_isAttempt_snoc.
    rewrite bool_decide_eq_false_2.
    + rewrite app_nil_r. by destruct t.
    + intros [[Hhit | Hmiss] _]; discriminate.
Qed.

End RoundReportProps.
